(** * Rise-and-Shine build scripts: project-model generation engine

    A shallow embedding of the core of the CUGL build scripts
    ([cugl/scripts/util.py] and [cugl/sdlapp/scripts/apple.py]) and the
    properties of that core.

    Python values are modelled as follows.
    - [str] is a list of characters ([pystr]); positions are integers ([Z]),
      because the scripts compare them with [-1] and even slice with them.
    - an exception is the [Raise] branch of [result]; the value [None] is
      the [None] of an [option].
    - a [dict] that is iterated is an association list in insertion order;
      a [dict] or [set] that is only looked up is a [gmap] or [gset]. *)

From Stdlib Require Import ZArith Ascii String List Lia Bool.
From stdpp Require Import base option list gmap strings.
Import ListNotations.

Local Open Scope Z_scope.
Local Open Scope list_scope.

(** ** Exceptions *)

Inductive pyexc : Type :=
  | IndexError
  | TypeError
  | RuntimeError
  | FileNotFoundError.

Inductive result (A : Type) : Type :=
  | Ok (a : A)
  | Raise (e : pyexc).
Arguments Ok {A} a.
Arguments Raise {A} e.

Definition bind {A B : Type} (m : result A) (k : A -> result B) : result B :=
  match m with
  | Ok a => k a
  | Raise e => Raise e
  end.

Notation "'do' x <- m ; k" := (bind m (fun x => k))
  (at level 10, x name, m at level 100, k at level 200).

(** [for x in l: s = body(s, x)] with exceptions leaving the loop. *)
Fixpoint for_each {A S : Type} (l : list A) (body : S -> A -> result S) (s : S)
  : result S :=
  match l with
  | [] => Ok s
  | x :: l' => do s' <- body s x; for_each l' body s'
  end.

(** ** Python strings *)

Abbreviation pystr := (list ascii).

(** A literal. *)
Definition str (s : string) : pystr := list_ascii_of_string s.

Module PyStr.

Definition len (s : pystr) : Z := Z.of_nat (length s).

(** Truth value of a string: the empty string is false. *)
Definition truthy (s : pystr) : bool :=
  match s with [] => false | _ => true end.

(** Truth value of [None]-or-string. *)
Definition truthy_opt (o : option pystr) : bool :=
  match o with None => false | Some s => truthy s end.

Definition eqb (s t : pystr) : bool := bool_decide (s = t).

(** [s.startswith(sub)] *)
Fixpoint startswith (s sub : pystr) {struct sub} : bool :=
  match sub with
  | [] => true
  | c :: sub' =>
      match s with
      | [] => false
      | d :: s' => Ascii.eqb c d && startswith s' sub'
      end
  end.

(** Index of the first occurrence of [sub] in [s], scanning from the
    left. *)
Fixpoint find_first (s sub : pystr) : option nat :=
  if startswith s sub then Some 0%nat
  else match s with
       | [] => None
       | _ :: s' => S <$> find_first s' sub
       end.

(** Python normalises a slice or search bound: a negative bound counts
    from the end, and the result is clamped to [0 .. len]. *)
Definition clamp (s : pystr) (i : Z) : nat :=
  let i' := if i <? 0 then i + len s else i in
  Z.to_nat (Z.min (Z.max i' 0) (len s)).

(** [s[:stop]] *)
Definition slice_to (s : pystr) (stop : Z) : pystr := take (clamp s stop) s.

(** [s[start:]] *)
Definition slice_from (s : pystr) (start : Z) : pystr := drop (clamp s start) s.

(** [s.find(sub, start)]: [-1] when there is no occurrence at or after
    [start]; a [start] beyond the end finds nothing, not even the empty
    string. *)
Definition find (s sub : pystr) (start : Z) : Z :=
  let st := if start <? 0 then Z.max (start + len s) 0 else start in
  if len s <? st then -1
  else match find_first (drop (Z.to_nat st) s) sub with
       | Some i => st + Z.of_nat i
       | None => -1
       end.

(** [sub in s] *)
Definition contains (s sub : pystr) : bool :=
  match find_first s sub with Some _ => true | None => false end.

(** [s[i]] for a non-negative [i] *)
Definition index (s : pystr) (i : nat) : result ascii :=
  match s !! i with
  | Some c => Ok c
  | None => Raise IndexError
  end.

(** [sep.join(l)] *)
Fixpoint join (sep : pystr) (l : list pystr) : pystr :=
  match l with
  | [] => []
  | [x] => x
  | x :: l' => x ++ sep ++ join sep l'
  end.

(** The lines of a text file as iteration over the file yields them:
    every line keeps its line break, the last one may lack it. *)
Fixpoint lines_aux (cur : pystr) (s : pystr) : list pystr :=
  match s with
  | [] => match cur with [] => [] | _ => [rev cur] end
  | c :: s' =>
      if Ascii.eqb c "010"%char then rev (c :: cur) :: lines_aux [] s'
      else lines_aux (c :: cur) s'
  end.

Definition lines (s : pystr) : list pystr := lines_aux [] s.

(** [s.split(sep)] for a one-character separator. *)
Fixpoint split_aux (sep : ascii) (cur : pystr) (s : pystr) : list pystr :=
  match s with
  | [] => [rev cur]
  | c :: s' =>
      if Ascii.eqb c sep then rev cur :: split_aux sep [] s'
      else split_aux sep (c :: cur) s'
  end.

Definition split (s : pystr) (sep : ascii) : list pystr := split_aux sep [] s.

(** [c.upper()] on ASCII letters. *)
Definition upper_char (c : ascii) : ascii :=
  let n := nat_of_ascii c in
  if ((97 <=? n)%nat && (n <=? 122)%nat)%bool then ascii_of_nat (n - 32) else c.

Definition upper (s : pystr) : pystr := map upper_char s.

End PyStr.

(** ** IdentifierService: [UUIDService.applyPrefix] *)

Definition hyphen : ascii := "-"%char.

(** One iteration of the loop of [applyPrefix]. *)
Definition applyPrefix_step (prefix uuid : pystr) (copy : pystr) (ii : nat)
  : result pystr :=
  if ((ii <? length uuid)%nat && bool_decide (uuid !! ii = Some hyphen))%bool then
    do c <- PyStr.index uuid ii; Ok (copy ++ [c])
  else if (ii <? length prefix)%nat then
    do c <- PyStr.index prefix ii; Ok (copy ++ [c])
  else
    do c <- PyStr.index uuid ii; Ok (copy ++ [c]).

Definition applyPrefix (prefix uuid : pystr) : result pystr :=
  do copy <- for_each (seq 0 (Nat.max (length prefix) (length uuid)))
                      (applyPrefix_step prefix uuid) [];
  Ok (PyStr.slice_to copy (PyStr.len uuid)).


(** The character that [applyPrefix] writes at position [ii]. *)
Definition overlay_at (prefix uuid : pystr) (ii : nat) : option ascii :=
  match uuid !! ii with
  | Some c =>
      if bool_decide (c = hyphen) then Some hyphen
      else match prefix !! ii with Some d => Some d | None => Some c end
  | None => prefix !! ii
  end.

(** ** IdentifierService: [UUIDService] *)

(** The two hash functions the service calls are library code:
    [shortus_uuid name] is [self._shortus.uuid(name=name)] for the
    [shortuuid.ShortUUID] built in [__init__], and [uuid5_url name] is
    [str(uuid.uuid5(uuid.NAMESPACE_URL, name))]. *)
Class Hasher : Type := {
  shortus_uuid : pystr -> pystr;
  uuid5_url : pystr -> pystr
}.

(** The alphabet given to [shortuuid.ShortUUID] in [__init__]. *)
Definition shortus_alphabet : pystr := str "abcdefABCDEF0123456789".

(** What is used of the [shortuuid] library: an encoded UUID has no fewer
    characters than an Apple UUID keeps (for this alphabet it has
    [ceil(log(2**128, 22)) = 29]), all of the alphabet. *)
Class HasherSpec (H : Hasher) : Prop := {
  shortus_uuid_length : forall name, (24 <= length (shortus_uuid name))%nat;
  shortus_uuid_alphabet : forall name c, c ∈ shortus_uuid name -> c ∈ shortus_alphabet
}.

Record UUIDService : Type := mkUUIDService {
  _uniques : gset pystr;
  _apples : gmap pystr pystr;
  _windows : gmap pystr pystr
}.

(** The maximum number of retries on failure. *)
Definition MAX_TRIES : nat := 8.

(** The size of an Apple UUID *)
Definition APPLE_SIZE : Z := 24.

(** [UUIDService.__init__] *)
Definition UUIDService_init : UUIDService :=
  {| _uniques := ∅; _apples := ∅; _windows := ∅ |}.

Section UUIDService.
Context `{Hasher}.

(** The candidate of [_compute_Apple_UUID_]:
    [self._shortus.uuid(name=url).upper()[:self.APPLE_SIZE]]. *)
Definition apple_candidate (url : pystr) : pystr :=
  PyStr.slice_to (PyStr.upper (shortus_uuid url)) APPLE_SIZE.

(** The candidate of [_compute_Windows_UUID_]. *)
Definition windows_candidate (url : pystr) : pystr :=
  PyStr.upper (uuid5_url url).

(** The recursion of [_compute_Apple_UUID_], on the number of tries that
    are left ([MAX_TRIES - tries]); none left is the guard
    [tries >= self.MAX_TRIES].  Next to the outcome the function counts
    the candidates it has examined (a ghost value, not in the source). *)
Fixpoint compute_Apple_left (left : nat) (self : UUIDService) (url : pystr)
  : nat * result pystr :=
  match left with
  | O => (O, Raise RuntimeError)
  | S left' =>
      let result := apple_candidate url in
      if decide (result ∈ _uniques self) then
        let '(n, r) := compute_Apple_left left' self url in (S n, r)
      else (1%nat, Ok result)
  end.

Definition _compute_Apple_UUID_ (self : UUIDService) (url : pystr) (tries : nat)
  : result pystr :=
  snd (compute_Apple_left (MAX_TRIES - tries) self url).

(** The number of candidates the call examines. *)
Definition _compute_Apple_UUID_attempts (self : UUIDService) (url : pystr)
    (tries : nat) : nat :=
  fst (compute_Apple_left (MAX_TRIES - tries) self url).

Definition getAppleUUID (self : UUIDService) (url : pystr)
  : result pystr * UUIDService :=
  match _apples self !! url with
  | Some r => (Ok r, self)
  | None =>
      match _compute_Apple_UUID_ self url 0 with
      | Raise e => (Raise e, self)
      | Ok result =>
          if PyStr.truthy result then
            (Ok result,
             {| _uniques := {[result]} ∪ _uniques self;
                _apples := <[url := result]> (_apples self);
                _windows := _windows self |})
          else (Ok result, self)
      end
  end.

Fixpoint compute_Windows_left (left : nat) (self : UUIDService) (url : pystr)
  : nat * result pystr :=
  match left with
  | O => (O, Raise RuntimeError)
  | S left' =>
      let result := windows_candidate url in
      if decide (result ∈ _uniques self) then
        let '(n, r) := compute_Windows_left left' self url in (S n, r)
      else (1%nat, Ok result)
  end.

Definition _compute_Windows_UUID_ (self : UUIDService) (url : pystr) (tries : nat)
  : result pystr :=
  snd (compute_Windows_left (MAX_TRIES - tries) self url).

Definition getWindowsUUID (self : UUIDService) (url : pystr)
  : result pystr * UUIDService :=
  match _windows self !! url with
  | Some r => (Ok r, self)
  | None =>
      match _compute_Windows_UUID_ self url 0 with
      | Raise e => (Raise e, self)
      | Ok result =>
          if PyStr.truthy result then
            (Ok result,
             {| _uniques := {[result]} ∪ _uniques self;
                _apples := _apples self;
                _windows := <[url := result]> (_windows self) |})
          else (Ok result, self)
      end
  end.

(** The states a service can be in: a fresh one, and the state any call
    leaves behind. *)
Inductive reachable : UUIDService -> Prop :=
  | reachable_init : reachable UUIDService_init
  | reachable_apple self url :
      reachable self -> reachable (snd (getAppleUUID self url))
  | reachable_windows self url :
      reachable self -> reachable (snd (getWindowsUUID self url)).

(** Every cached Apple identifier is the candidate of its seed. *)
Definition apples_are_candidates (self : UUIDService) : Prop :=
  forall url r, _apples self !! url = Some r -> r = apple_candidate url.

End UUIDService.

(** A 24-character upper-case hexadecimal string. *)
Definition is_upper_hex (c : ascii) : bool :=
  bool_decide (c ∈ str "0123456789ABCDEF").

Definition is_apple_uuid (s : pystr) : Prop :=
  length s = 24%nat /\ forallb is_upper_hex s = true.

(** A small stand-in for the two library hashes, to run the service on
    concrete input: the digits are taken from the characters of the name. *)
Definition toy_digit (c : ascii) : ascii :=
  nth (nat_of_ascii c mod 22) shortus_alphabet "0"%char.

Definition toy_shortus_uuid (name : pystr) : pystr :=
  take 29 (map toy_digit name ++ repeat "0"%char 29).

Definition toy_hasher : Hasher :=
  {| shortus_uuid := toy_shortus_uuid; uuid5_url := fun name => str "urn:" ++ name |}.

(** ** Dictionaries in insertion order *)

Module Dict.
Section Dict.
Context {V : Type}.

(** [d[k]], [None] for a missing key *)
Fixpoint get (d : list (pystr * V)) (k : pystr) : option V :=
  match d with
  | [] => None
  | (k', v) :: d' => if decide (k' = k) then Some v else get d' k
  end.

(** [k in d] *)
Definition has (d : list (pystr * V)) (k : pystr) : bool :=
  match get d k with Some _ => true | None => false end.

(** [d[k] = v]: an existing key keeps its place, a new key goes last. *)
Fixpoint set (d : list (pystr * V)) (k : pystr) (v : V) : list (pystr * V) :=
  match d with
  | [] => [(k, v)]
  | (k', v') :: d' =>
      if decide (k' = k) then (k', v) :: d' else (k', v') :: set d' k v
  end.

End Dict.
End Dict.

(** ** FileTree: [insert_filetree] *)

(** A node of a filetree: the target tag of a file, or the dictionary of a
    directory. *)
#[warning="-register-all"]
Inductive filenode : Type :=
  | Leaf (target : pystr)
  | Directory (children : list (pystr * filenode)).

Abbreviation FileTree := (list (pystr * filenode)).

(** [if not entry in curr: curr[entry] = {}] *)
Definition ensure_directory (curr : FileTree) (entry : pystr) : FileTree :=
  if negb (Dict.has curr entry) then Dict.set curr entry (Directory []) else curr.

(** The loop [for entry in path] of [insert_filetree] together with the
    assignment [prev[path[-1]] = target] that follows it.  A directory
    that the walk changes is changed in place, so its parent sees the
    change.  A walk that reaches a file before the path ends raises: the
    tag is a string, and neither [curr[entry] = {}] nor [curr[entry]] is
    defined on a string. *)
Fixpoint insert_path (curr : FileTree) (path : list pystr) (target : pystr)
  : result FileTree :=
  match path with
  | [] => Ok curr
  | [entry] => Ok (Dict.set curr entry (Leaf target))
  | entry :: path' =>
      let curr1 := ensure_directory curr entry in
      match Dict.get curr1 entry with
      | Some (Directory sub) =>
          do sub' <- insert_path sub path' target;
          Ok (Dict.set curr1 entry (Directory sub'))
      | Some (Leaf _) => Raise TypeError
      | None => Raise TypeError
      end
  end.

Definition insert_filetree (filetree : FileTree) (files : list pystr)
    (target : pystr) : result FileTree :=
  for_each files
    (fun tree file => insert_path tree (PyStr.split file "/"%char) target)
    filetree.

(** The node at a path. *)
Fixpoint filetree_lookup (tree : FileTree) (path : list pystr) : option filenode :=
  match path with
  | [] => None
  | [entry] => Dict.get tree entry
  | entry :: path' =>
      match Dict.get tree entry with
      | Some (Directory sub) => filetree_lookup sub path'
      | _ => None
      end
  end.

(** ** TemplateSubstitution: [file_replace] and [file_replace_after] *)

Definition nl : pystr := ["010"%char].
Definition tab : ascii := "009"%char.

Module PyReplace.

(** [s.replace(old, new)] for a non-empty [old]: the occurrences are
    taken from the left and do not overlap; [skip] counts the characters
    of an occurrence that are still to be passed over. *)
Fixpoint go (s old new : pystr) (skip : nat) : pystr :=
  match s with
  | [] => []
  | c :: s' =>
      match skip with
      | S k => go s' old new k
      | O =>
          if PyStr.startswith s old then new ++ go s' old new (length old - 1)
          else c :: go s' old new 0
      end
  end.

(** [s.replace(old, new)]; an empty [old] matches before every character
    and at the end. *)
Definition replace (s old new : pystr) : pystr :=
  match old with
  | [] => new ++ flat_map (fun c => c :: new) s
  | _ => go s old new 0
  end.

End PyReplace.

(** A file system: the text of every file that exists, by path. *)
Abbreviation filesystem := (gmap pystr pystr).

(** The loop [for key in data: contents = contents.replace(key,data[key])]. *)
Definition replace_keys (data : list (pystr * pystr)) (contents : pystr) : pystr :=
  fold_left (fun contents kv => PyReplace.replace contents (fst kv) (snd kv))
            data contents.

(** [file_replace(path, data)]: the outcome and the file system it leaves.
    [open(path)] raises [FileNotFoundError] for a file that does not
    exist. *)
Definition file_replace (fs : filesystem) (path : pystr) (data : list (pystr * pystr))
  : result unit * filesystem :=
  match fs !! path with
  | None => (Raise FileNotFoundError, fs)
  | Some contents0 =>
      let contents := replace_keys data contents0 in
      if PyStr.truthy contents then (Ok tt, <[path := contents]> fs)
      else (Raise FileNotFoundError, fs)
  end.

(** The body of the [while] loop of [file_replace_after]: the new
    [contents], [pos0] and [pos1]. *)
Definition replace_after_body (contents key value : pystr) (pos1 : Z)
  : pystr * Z * Z :=
  let pos0 := PyStr.find contents key pos1 in
  let pos0 := if negb (pos0 =? -1) then pos0 + PyStr.len key else pos0 in
  let pos1 := PyStr.find contents nl pos0 in
  let pos1 := if pos1 =? -1 then PyStr.len contents else pos1 in
  (PyStr.slice_to contents pos0 ++ value ++ PyStr.slice_from contents pos1,
   pos0, pos1).

(** [while pos0 != -1: ...], with a bound on the number of iterations;
    [None] when the bound is reached. *)
Fixpoint replace_after_loop (fuel : nat) (contents key value : pystr)
    (pos0 pos1 : Z) : option pystr :=
  if pos0 =? -1 then Some contents
  else match fuel with
       | O => None
       | S fuel' =>
           let '(contents', pos0', pos1') :=
             replace_after_body contents key value pos1 in
           replace_after_loop fuel' contents' key value pos0' pos1'
       end.

(** The loop [for key in data] of [file_replace_after]. *)
Fixpoint replace_after_keys (fuel : nat) (data : list (pystr * pystr))
    (contents : pystr) : option pystr :=
  match data with
  | [] => Some contents
  | (key, value) :: data' =>
      match replace_after_loop fuel contents key value 0 0 with
      | Some contents' => replace_after_keys fuel data' contents'
      | None => None
      end
  end.

(** [file_replace_after(path, data)]; [None] when a [while] loop needs more
    than [fuel] iterations. *)
Definition file_replace_after (fuel : nat) (fs : filesystem) (path : pystr)
    (data : list (pystr * pystr)) : option (result unit * filesystem) :=
  match fs !! path with
  | None => Some (Raise FileNotFoundError, fs)
  | Some contents0 =>
      match replace_after_keys fuel data contents0 with
      | None => None
      | Some contents =>
          if PyStr.truthy contents then Some (Ok tt, <[path := contents]> fs)
          else Some (Raise FileNotFoundError, fs)
      end
  end.

(** A [config.yml] as [__main__] patches it, line by line. *)
Definition config_yml : pystr :=
  str "name: Demo" ++ nl ++ str "suffix: true" ++ nl ++ str "build: out" ++ nl.

(** ** StructuredProjectStore: [place_entries] *)

(** [sub] occurs in [s]. *)
Definition occurs (sub s : pystr) : Prop :=
  exists pre post, s = pre ++ sub ++ post.

(** ['\n\t\t\t\t'] *)
Definition indent : pystr := nl ++ [tab; tab; tab; tab].

(** [place_entries(obj, entries, prefix)]; the bare [return] gives [None]. *)
Definition place_entries (obj : pystr) (entries : list pystr) (prefix : pystr)
  : option pystr :=
  let line := PyStr.find obj (prefix ++ str " = (") 0 in
  if line =? -1 then None
  else
    let pos := PyStr.find obj nl line in
    let children := indent ++ PyStr.join indent entries in
    Some (PyStr.slice_to obj pos ++ children ++ PyStr.slice_from obj pos).

(** A loop of the callers of [place_entries], as in [populate_assets]:
    [[
      for pos in range(len(groups)):
          if marker in groups[pos]:
              groups[pos] = place_entries(groups[pos], entries, prefix)
    ]]
    A block is a string or, once such an assignment has stored it, [None];
    the test [marker in None] raises. *)
Definition place_in_group_step (marker : pystr) (entries : list pystr)
    (prefix : pystr) (groups : list (option pystr)) (pos : nat)
  : result (list (option pystr)) :=
  match groups !! pos with
  | None => Raise IndexError
  | Some None => Raise TypeError
  | Some (Some obj) =>
      if PyStr.contains obj marker
      then Ok (<[pos := place_entries obj entries prefix]> groups)
      else Ok groups
  end.

Definition place_in_groups (marker : pystr) (entries : list pystr)
    (prefix : pystr) (groups : list (option pystr))
  : result (list (option pystr)) :=
  for_each (seq 0 (length groups)) (place_in_group_step marker entries prefix)
           groups.

(** What the loop stores at the place of a block. *)
Definition place_or_keep (marker : pystr) (entries : list pystr)
    (prefix : pystr) (obj : pystr) : option pystr :=
  if PyStr.contains obj marker then place_entries obj entries prefix
  else Some obj.

(** The first loop of [populate_assets] on the section [PBXGroup]. *)
Definition populate_assets_group (children : list pystr)
    (groups : list (option pystr)) : result (list (option pystr)) :=
  place_in_groups (str "/* Assets */ =") children (str "children") groups.

(** White space, as [str.lstrip] takes it off. *)
Definition is_white (c : ascii) : bool :=
  bool_decide (c ∈ [" "%char; "009"%char; "010"%char; "011"%char; "012"%char;
                     "013"%char]).

Fixpoint lstrip (s : pystr) : pystr :=
  match s with
  | [] => []
  | c :: s' => if is_white c then lstrip s' else s
  end.

(** The entries of a piece of block text, read as the format lays a list
    out: one entry on a line, behind its indentation; lines of white space
    only hold no entry. *)
Definition content_lines (s : pystr) : list pystr :=
  filter (fun l => l <> []) (map lstrip (PyStr.split s "010"%char)).

(** An entry as [place_entries] expects it: one line, not empty and not
    indented beforehand. *)
Definition entry_ok (e : pystr) : Prop :=
  ("010"%char ∉ e) /\ lstrip e = e /\ e <> [].

(** A block text [head] ends in the line that holds the anchor
    [prefix + ' = (']: the first occurrence of the anchor in [head] has no
    line break after it. *)
Definition anchored (prefix head : pystr) : Prop :=
  exists i, PyStr.find_first head (prefix ++ str " = (") = Some i /\
            ("010"%char ∉ drop i head).

(** [n] tabs. *)
Definition tabs (n : nat) : pystr := repeat tab n.

(** ** StructuredProjectStore: [parse_pbxproj] and [write_pbxproj] *)

(** The components of a pbxproj file *)
Definition PBX_SEQUENCE : list pystr :=
  map str ["PBXHeader"; "PBXBuildFile"; "PBXContainerItemProxy";
           "PBXFileReference"; "PBXFrameworksBuildPhase"; "PBXGroup";
           "PBXNativeTarget"; "PBXProject"; "PBXReferenceProxy";
           "PBXResourcesBuildPhase"; "PBXSourcesBuildPhase";
           "XCBuildConfiguration"; "XCConfigurationList"; "PBXFooter"]%string.

(** ['/* Begin '+name+' section */'] and ['/* End '+name+' section */'] *)
Definition begin_banner (name : pystr) : pystr :=
  str "/* Begin " ++ name ++ str " section */".

Definition end_banner (name : pystr) : pystr :=
  str "/* End " ++ name ++ str " section */".

(** [util.group_parity(text, parens)], with the two characters of
    [parens] given one by one. *)
Definition group_parity (text : pystr) (opening closing : ascii) : Z :=
  fold_left (fun result c =>
               if Ascii.eqb c opening then result + 1
               else if Ascii.eqb c closing then result - 1
               else result)
            text 0.

(** The project model: the sections in the order they were met, each with
    its list of objects.  An object is a string; the last object of the
    last section can be [None]. *)
Abbreviation pbxproj := (list (pystr * list (option pystr))).

(** The variables of the scan of [parse_pbxproj].  In the source [block]
    is the very list stored in [contents[state]]; here [contents] holds
    the sections that are complete and [block] the list of the current
    one, which the end of the scan puts behind them. *)
Record scan_state : Type := mkScan {
  index : nat;
  block : list (option pystr);
  accum : option pystr;
  brace : Z;
  contents : pbxproj;
  between : bool
}.

Definition state_of (st : scan_state) : pystr := nth (index st) PBX_SEQUENCE [].

Definition scan_init : scan_state :=
  {| index := 0; block := []; accum := None; brace := 0; contents := [];
     between := false |}.

(** [line if accum is None else accum+line] *)
Definition accumulate (accum : option pystr) (line : pystr) : option pystr :=
  match accum with
  | None => Some line
  | Some a => Some (a ++ line)
  end.

(** [state in ['PBXHeader','PBXFooter']] *)
Definition is_edge (state : pystr) : bool :=
  PyStr.eqb state (str "PBXHeader") || PyStr.eqb state (str "PBXFooter").

(** The branch of the loop body that a line takes. *)
Inductive scan_branch : Type :=
  | Advance     (* time to advance state *)
  | Verbatim    (* header and footer lines *)
  | Closing     (* the end banner of the section *)
  | Object      (* a line of an object: the braces are counted *)
  | Skipped.    (* between the end banner and the next section *)

Definition branch_of (st : scan_state) (line : pystr) : scan_branch :=
  let state := state_of st in
  let advance :=
    if negb (PyStr.eqb state (str "PBXFooter"))
    then PyStr.contains line (begin_banner (nth (index st + 1) PBX_SEQUENCE []))
    else false in
  let complete := PyStr.contains line (end_banner state) in
  if advance || (complete && (index st =? length PBX_SEQUENCE - 2)%nat) then Advance
  else if is_edge state then Verbatim
  else if complete then Closing
  else if negb (between st) then Object
  else Skipped.

(** One pass through the loop body; [None] is the [return None] on
    mismatched braces. *)
Definition scan_line (st : scan_state) (line : pystr) : option scan_state :=
  match branch_of st line with
  | Advance =>
      Some {| index := index st + 1;
              block := [];
              accum := None;
              brace := 0;
              contents :=
                contents st ++
                [(state_of st,
                  if PyStr.truthy_opt (accum st) then block st ++ [accum st]
                  else block st)];
              between := false |}
  | Verbatim =>
      Some {| index := index st; block := block st;
              accum := accumulate (accum st) line;
              brace := brace st; contents := contents st;
              between := between st |}
  | Closing =>
      if PyStr.truthy_opt (accum st) && negb (bool_decide (accum st = Some nl))
      then Some {| index := index st; block := block st ++ [accum st];
                   accum := accum st; brace := brace st;
                   contents := contents st; between := true |}
      else Some st
  | Object =>
      let brace' := brace st + group_parity line "{"%char "}"%char in
      if brace' <? 0 then None
      else
        let accum' := accumulate (accum st) line in
        if brace' =? 0 then
          Some {| index := index st;
                  block := if negb (bool_decide (accum' = Some nl))
                           then block st ++ [accum'] else block st;
                  accum := None; brace := brace';
                  contents := contents st; between := between st |}
        else
          Some {| index := index st; block := block st; accum := accum';
                  brace := brace'; contents := contents st;
                  between := between st |}
  | Skipped => Some st
  end.

(** [for line in file] *)
Fixpoint scan (st : scan_state) (lines : list pystr) : option scan_state :=
  match lines with
  | [] => Some st
  | line :: lines' =>
      match scan_line st line with
      | Some st' => scan st' lines'
      | None => None
      end
  end.

(** The dictionary that is returned: [block.append(accum)] after the
    loop puts what is left, be it [None], into the last section. *)
Definition scan_result (st : scan_state) : pbxproj :=
  contents st ++ [(state_of st, block st ++ [accum st])].

(** [parse_pbxproj], on the text of [project.pbxproj]. *)
Definition parse_pbxproj (text : pystr) : option pbxproj :=
  match scan scan_init (PyStr.lines text) with
  | Some st => Some (scan_result st)
  | None => None
  end.

(** [for item in pbxproj[state]: file.write(item)]; writing [None]
    raises. *)
Fixpoint write_items (items : list (option pystr)) : result pystr :=
  match items with
  | [] => Ok []
  | Some item :: items' => do rest <- write_items items'; Ok (item ++ rest)
  | None :: _ => Raise TypeError
  end.

Definition write_section (section : pystr * list (option pystr)) : result pystr :=
  let '(state, items) := section in
  do body <- write_items items;
  if negb (is_edge state)
  then Ok (begin_banner state ++ nl ++ body ++ end_banner state ++ nl ++ nl)
  else Ok body.

(** [write_pbxproj]: the text written to [project.pbxproj]. *)
Fixpoint write_pbxproj (pbxproj : pbxproj) : result pystr :=
  match pbxproj with
  | [] => Ok []
  | section :: pbxproj' =>
      do text <- write_section section;
      do rest <- write_pbxproj pbxproj';
      Ok (text ++ rest)
  end.

(** The text of a file from its lines. *)
Definition text_of_lines (lines : list string) : pystr :=
  concat (map (fun line => str line ++ nl) lines).

(** A project file whose first object closes a brace that was never
    opened. *)
Definition unbalanced_project : pystr :=
  text_of_lines
    ["// !$*UTF8*$!"; "{";
     "/* Begin PBXBuildFile section */";
     "    AB01 /* main.cpp in Sources */ = isa = PBXBuildFile; };";
     "/* End PBXBuildFile section */"]%string.

(** What [accum] holds after the lines [post] of the header or footer. *)
Definition accum_of (post : list pystr) : option pystr :=
  match post with
  | [] => None
  | _ => Some (concat post)
  end.

(** A line that moves the scan from the last section into the footer. *)
Definition enters_footer (line : pystr) : bool :=
  PyStr.contains line (begin_banner (str "PBXFooter")) ||
  PyStr.contains line (end_banner (str "XCConfigurationList")).

(** The parse has come to the footer: it is the last section of the
    model. *)
Definition has_footer (m : pbxproj) : Prop :=
  exists sections items, m = sections ++ [(str "PBXFooter", items)].

(** ** Well-formed project files *)

(** A line of a text file that is not the last one: it ends in its only
    line break. *)
Definition is_line (line : pystr) : Prop :=
  exists t, line = t ++ nl /\ ("010"%char ∉ t).

(** A line inside section [i] that holds neither the banner that opens
    the next section nor the banner that closes this one. *)
Definition plain_line (i : nat) (line : pystr) : Prop :=
  PyStr.contains line (begin_banner (nth (i + 1) PBX_SEQUENCE [])) = false /\
  PyStr.contains line (end_banner (nth i PBX_SEQUENCE [])) = false.

(** The lines of one object, read at brace depth [d]: the depth stays
    above zero until the last line brings it back to zero. *)
Inductive object_lines : Z -> list pystr -> Prop :=
  | object_last d line :
      d + group_parity line "{"%char "}"%char = 0 ->
      object_lines d [line]
  | object_more d line lines :
      0 < d + group_parity line "{"%char "}"%char ->
      object_lines (d + group_parity line "{"%char "}"%char) lines ->
      object_lines d (line :: lines).

(** An object of section [i]. *)
Definition is_object (i : nat) (lines : list pystr) : Prop :=
  object_lines 0 lines /\ Forall (plain_line i) lines /\ concat lines <> nl.

(** The lines of section [i] with the objects [objs]. *)
Definition section_lines (i : nat) (objs : list (list pystr)) : list pystr :=
  [begin_banner (nth i PBX_SEQUENCE []) ++ nl] ++ concat objs ++
  [end_banner (nth i PBX_SEQUENCE []) ++ nl].

(** The lines of the sections from [i] on, with a blank line between two
    sections. *)
Fixpoint sections_lines (i : nat) (objss : list (list (list pystr)))
  : list pystr :=
  match objss with
  | [] => []
  | [objs] => section_lines i objs
  | objs :: objss' => section_lines i objs ++ [nl] ++ sections_lines (S i) objss'
  end.

(** Every object of the sections from [i] on is well formed. *)
Fixpoint sections_ok (i : nat) (objss : list (list (list pystr))) : Prop :=
  match objss with
  | [] => True
  | objs :: objss' => Forall (is_object i) objs /\ sections_ok (S i) objss'
  end.

(** The sections of the model from [i] on. *)
Fixpoint sections_model (i : nat) (objss : list (list (list pystr))) : pbxproj :=
  match objss with
  | [] => []
  | objs :: objss' =>
      (nth i PBX_SEQUENCE [], map (fun lines => Some (concat lines)) objs)
      :: sections_model (S i) objss'
  end.

(** A project file: the lines of the header, the objects of the twelve
    sections, given line by line, and the lines of the footer. *)
Record project : Type := mkProject {
  header : list pystr;
  objects : list (list (list pystr));
  footer : list pystr
}.

Definition project_lines (p : project) : list pystr :=
  header p ++ sections_lines 1 (objects p) ++ footer p.

Definition project_text (p : project) : pystr := concat (project_lines p).

(** The model of a project file. *)
Definition project_model (p : project) : pbxproj :=
  [(str "PBXHeader", [Some (concat (header p))])] ++
  sections_model 1 (objects p) ++
  [(str "PBXFooter", [Some (concat (footer p))])].

Definition well_formed (p : project) : Prop :=
  header p <> [] /\ footer p <> [] /\
  Forall is_line (header p) /\ Forall is_line (footer p) /\
  Forall (Forall (Forall is_line)) (objects p) /\
  Forall (plain_line 0) (header p) /\
  length (objects p) = 12%nat /\
  sections_ok 1 (objects p).

(** The project with a blank line put before its footer. *)
Definition with_blank_line (p : project) : project :=
  {| header := header p; objects := objects p; footer := nl :: footer p |}.

(** The conditions of [well_formed] as tests. *)
Definition is_line_b (line : pystr) : bool :=
  match rev line with
  | c :: t => Ascii.eqb c "010"%char && negb (existsb (Ascii.eqb "010"%char) t)
  | [] => false
  end.

Definition plain_line_b (i : nat) (line : pystr) : bool :=
  negb (PyStr.contains line (begin_banner (nth (i + 1) PBX_SEQUENCE []))) &&
  negb (PyStr.contains line (end_banner (nth i PBX_SEQUENCE []))).

Fixpoint object_lines_b (d : Z) (lines : list pystr) : bool :=
  match lines with
  | [] => false
  | [line] => d + group_parity line "{"%char "}"%char =? 0
  | line :: lines' =>
      (0 <? d + group_parity line "{"%char "}"%char) &&
      object_lines_b (d + group_parity line "{"%char "}"%char) lines'
  end.

Definition is_object_b (i : nat) (lines : list pystr) : bool :=
  object_lines_b 0 lines && forallb (plain_line_b i) lines &&
  negb (bool_decide (concat lines = nl)).

Fixpoint sections_ok_b (i : nat) (objss : list (list (list pystr))) : bool :=
  match objss with
  | [] => true
  | objs :: objss' => forallb (is_object_b i) objs && sections_ok_b (S i) objss'
  end.

Definition well_formed_b (p : project) : bool :=
  negb (bool_decide (header p = [])) && negb (bool_decide (footer p = [])) &&
  forallb is_line_b (header p) && forallb is_line_b (footer p) &&
  forallb (forallb (forallb is_line_b)) (objects p) &&
  forallb (plain_line_b 0) (header p) &&
  (length (objects p) =? 12)%nat &&
  sections_ok_b 1 (objects p).

(** A small project file with every section, laid out as the IDE writes
    it: a blank line between the sections and none before the footer. *)
Definition line (s : string) : pystr := str s ++ nl.

Definition sample : project :=
  {| header :=
       map line ["// !$*UTF8*$!"; "{"; "  archiveVersion = 1;";
                 "  objects = {"; ""]%string;
     objects :=
       map (map (map line))
         [ (* PBXBuildFile *)
           [["    AB01 /* main.cpp in Sources */ = {isa = PBXBuildFile; fileRef = BA01; };"];
            ["    AB02 /* icon.png in Resources */ = {isa = PBXBuildFile; fileRef = AA01; };"]];
           (* PBXContainerItemProxy *)
           [];
           (* PBXFileReference *)
           [["    BA01 /* main.cpp */ = {isa = PBXFileReference; path = main.cpp; };"]];
           (* PBXFrameworksBuildPhase *)
           [];
           (* PBXGroup *)
           [["    CD01 /* Assets */ = {";
             "      isa = PBXGroup;";
             "      children = (";
             "        AA01 /* icon.png */,";
             "      );";
             "    };"]];
           (* PBXNativeTarget, PBXProject, PBXReferenceProxy,
              PBXResourcesBuildPhase, PBXSourcesBuildPhase *)
           []; []; []; []; [];
           (* XCBuildConfiguration *)
           [["    EB01 /* Debug */ = {";
             "      buildSettings = {";
             "        PRODUCT_NAME = app;";
             "      };";
             "    };"]];
           (* XCConfigurationList *)
           [["    EB02 /* Build configuration list */ = {";
             "      isa = XCConfigurationList;";
             "    };"]] ]%string;
     footer :=
       map line ["  };"; "  rootObject = EB0F3C8E /* Project object */;";
                 "}"]%string |}.

Definition sample_project : pystr := project_text sample.


(** * More of the scripts *)

(** ** IdentifierService: what the caches hold *)

Section UUIDService_caches.
Context `{Hasher}.

(** No identifier is cached for two seeds, be it in one namespace or
    across the two. *)
Definition caches_distinct (self : UUIDService) : Prop :=
  (forall url1 url2 r,
      _apples self !! url1 = Some r -> _apples self !! url2 = Some r ->
      url1 = url2) /\
  (forall url1 url2 r,
      _windows self !! url1 = Some r -> _windows self !! url2 = Some r ->
      url1 = url2) /\
  (forall url1 url2 r,
      _apples self !! url1 = Some r -> _windows self !! url2 = Some r -> False).

(** Every cached identifier is recorded as used. *)
Definition caches_recorded (self : UUIDService) : Prop :=
  (forall url r, _apples self !! url = Some r -> r ∈ _uniques self) /\
  (forall url r, _windows self !! url = Some r -> r ∈ _uniques self).

End UUIDService_caches.

(** ** Paths: [posix_to_windows], [posix_split], [windows_split] *)

Definition slash : ascii := "/"%char.
Definition backslash : ascii := "\"%char.
Definition colon : ascii := ":"%char.

(** [posix_to_windows(posix, mount)]; [split] never gives an empty list,
    so the first branch of the source is never taken. *)
Definition posix_to_windows (posix mount : pystr) : pystr :=
  let components := PyStr.split posix slash in
  match components with
  | [] => posix
  | first :: _ =>
      if PyStr.eqb first []
      then mount ++ [colon] ++ PyStr.join [backslash] components
      else PyStr.join [backslash] components
  end.

(** [posix_split(path)] *)
Definition posix_split (path : pystr) : list pystr :=
  let result := PyStr.split path slash in
  match result with
  | first :: rest => if PyStr.eqb first [] then str "." :: rest else result
  | [] => result
  end.

(** [windows_split(path)] *)
Definition windows_split (path : pystr) : list pystr :=
  let result := PyStr.split path backslash in
  match result with
  | first :: rest =>
      if PyStr.contains first [colon] then str "." :: rest else result
  | [] => result
  end.

(** A path with every ['/'] turned into a backslash. *)
Definition to_backslashes (path : pystr) : pystr :=
  map (fun c => if Ascii.eqb c slash then backslash else c) path.

(** The path is empty or begins with ['/']: its first component is
    empty. *)
Definition first_component_empty (path : pystr) : bool :=
  match path with
  | [] => true
  | c :: _ => Ascii.eqb c slash
  end.

(** ** [parse_pbxproj]: what the model holds *)

(** Every item of the sections that are complete and of the current block
    is a string. *)
Definition items_present (st : scan_state) : Prop :=
  Forall (fun section : pystr * list (option pystr) =>
            Forall is_Some (snd section)) (contents st) /\
  Forall is_Some (block st).

(** A project file that ends inside the first object of its first
    section: the braces of the object are still open at the end
    banner. *)
Definition unterminated_project : pystr :=
  text_of_lines
    ["// !$*UTF8*$!"; "{";
     "/* Begin PBXBuildFile section */";
     "    AB01 /* main.cpp in Sources */ = {isa = PBXBuildFile;";
     "/* End PBXBuildFile section */"]%string.

(** Inside a section the brace count is the parity of the text that is
    being accumulated, and the count is above zero while there is such a
    text. *)
Definition brace_counts (st : scan_state) : Prop :=
  is_edge (state_of st) = false ->
  brace st = group_parity (default [] (accum st)) "{"%char "}"%char /\
  (accum st <> None -> 0 < brace st).

(** The object of [unterminated_project], and the scan at the end banner
    of its section. *)
Definition open_object : pystr :=
  str "    AB01 /* main.cpp in Sources */ = {isa = PBXBuildFile;" ++ nl.

Definition at_end_banner : scan_state :=
  {| index := 1; block := []; accum := Some open_object; brace := 1;
     contents := [(str "PBXHeader",
                   [Some (str "// !$*UTF8*$!" ++ nl ++ str "{" ++ nl)])];
     between := false |}.

(** ** [filter_targets] *)

(** The two tests of the first loop of [filter_targets] on an object of
    the section [PBXNativeTarget]. *)
Definition removes_macos (targets : list pystr) (obj : pystr) : bool :=
  bool_decide (str "ios" ∈ targets) && PyStr.contains obj (str "macos").

Definition removes_ios (targets : list pystr) (obj : pystr) : bool :=
  bool_decide (str "macos" ∈ targets) && PyStr.contains obj (str "ios").

(** [for pos in range(len(section))]: the positions to remove; a
    position can be appended twice. *)
Fixpoint collect_rems (targets : list pystr) (section : list pystr) (pos : nat)
  : list nat :=
  match section with
  | [] => []
  | obj :: section' =>
      (if removes_macos targets obj then [pos] else []) ++
      (if removes_ios targets obj then [pos] else []) ++
      collect_rems targets section' (S pos)
  end.

(** The [while pos < len(section)] loop; [None] when the fuel does not
    last. *)
Fixpoint delete_loop (fuel : nat) (rems : list nat) (section : list pystr)
    (pos off : nat) : option (list pystr) :=
  if (pos <? length section)%nat then
    match fuel with
    | O => None
    | S fuel' =>
        if bool_decide ((pos + off)%nat ∈ rems)
        then delete_loop fuel' rems (delete pos section) pos (off + 1)
        else delete_loop fuel' rems section (pos + 1) off
    end
  else Some section.

(** [filter_targets], on the list of targets of the configuration and
    the objects of the section [PBXNativeTarget]; the result is the
    section as the function leaves it. *)
Definition filter_targets (fuel : nat) (targets : list pystr)
    (section : list pystr) : option (list pystr) :=
  if bool_decide (str "apple" ∈ targets) then Some section
  else delete_loop fuel (collect_rems targets section 0) section 0 0.

(** ** [determine_orientation] and [assign_orientation] *)

(** The double quote. *)
Definition quote : pystr := ["034"%char].

(** [determine_orientation(orientation)] of the Apple build. *)
Definition determine_orientation (orientation : pystr) : pystr :=
  if PyStr.eqb orientation (str "portrait") then
    str "UIInterfaceOrientationPortrait"
  else if PyStr.eqb orientation (str "landscape") then
    str "UIInterfaceOrientationLandscapeRight"
  else if PyStr.eqb orientation (str "portrait-flipped") then
    str "UIInterfaceOrientationPortraitUpsideDown"
  else if PyStr.eqb orientation (str "landscape-flipped") then
    str "UIInterfaceOrientationLandscapeLeft"
  else if PyStr.eqb orientation (str "portrait-either") then
    quote ++ str "UIInterfaceOrientationPortrait UIInterfaceOrientationPortraitUpsideDown" ++ quote
  else if PyStr.eqb orientation (str "landscape-either") then
    quote ++ str "UIInterfaceOrientationLandscapeRight UIInterfaceOrientationLandscapeLeft" ++ quote
  else if PyStr.eqb orientation (str "multidirectional") then
    quote ++ str "UIInterfaceOrientationPortrait UIInterfaceOrientationLandscapeRight" ++ quote
  else if PyStr.eqb orientation (str "omnidirectional") then
    quote ++ str "UIInterfaceOrientationPortrait UIInterfaceOrientationLandscapeRight UIInterfaceOrientationLandscapeLeft UIInterfaceOrientationPortraitUpsideDown" ++ quote
  else str "UIInterfaceOrientationLandscapeRight".

(** The keys that [assign_orientation] looks for. *)
Definition launch_key : pystr := str "INFOPLIST_KEY_UILaunchStoryboardName".
Definition main_key : pystr := str "INFOPLIST_KEY_UIMainStoryboardFile".
Definition orientations_key : pystr :=
  str "INFOPLIST_KEY_UISupportedInterfaceOrientations".
Definition ipad_key : pystr := orientations_key ++ str "_iPad".
Definition iphone_key : pystr := orientations_key ++ str "_iPhone".

(** ['\t\t\t\t'+key+' = '+value+';'] *)
Definition setting_line (key value : pystr) : pystr :=
  tabs 4 ++ key ++ str " = " ++ value ++ str ";".

(** One of the five [if]s on [data[ii]]: the line and the flag [change]
    as the [if] leaves them. *)
Definition assign_if (test : bool) (key value : pystr) (state : pystr * bool)
  : pystr * bool :=
  if test && PyStr.contains (fst state) key
  then (setting_line key value, true)
  else state.

(** The body of the loop [for ii in range(len(data))] on one line. *)
Definition assign_line (portrait : bool) (orientation : pystr) (line : pystr)
  : pystr * bool :=
  let state := (line, false) in
  let state := assign_if portrait launch_key (str "Portrait") state in
  let state := assign_if portrait main_key (str "Portrait") state in
  let state := assign_if true orientations_key orientation state in
  let state := assign_if true ipad_key orientation state in
  let state := assign_if true iphone_key orientation state in
  state.

(** The body of the loop [for pos in range(len(section))] on one
    object. *)
Definition assign_object (portrait : bool) (orientation : pystr) (obj : pystr)
  : pystr :=
  let data := map (assign_line portrait orientation)
                  (PyStr.split obj "010"%char) in
  if existsb snd data then PyStr.join nl (map fst data) else obj.

(** [assign_orientation], on the orientation of the configuration and
    the section [XCBuildConfiguration]. *)
Definition assign_orientation (config_orientation : pystr)
    (section : list pystr) : list pystr :=
  let orientation := determine_orientation config_orientation in
  let portrait := PyStr.contains orientation (str "Portrait") in
  map (assign_object portrait orientation) section.

(** ** [reassign_pbxproj]: the application ids and the include lists *)

(** [l[:-1]] and [l[-1:]] on a list. *)
Definition but_last {A} (l : list A) : list A := take (length l - 1) l.
Definition last_only {A} (l : list A) : list A := drop (length l - 1) l.

(** [macid] and [iosid]:
    [[
      macid = appid.split('.')
      macid = '.'.join(macid[:-1]+['mac']+macid[-1:])
    ]] *)
Definition platform_id (tag appid : pystr) : pystr :=
  let parts := PyStr.split appid "."%char in
  PyStr.join (str ".") (but_last parts ++ [tag] ++ last_only parts).

(** The lists of the configuration are objects of a store: a dictionary
    and a variable hold the place of a list, and two of them can hold the
    same place. *)
Abbreviation store := (gmap nat (list pystr)).

(** [key in entries and entries[key]] *)
Definition has_entries (h : store) (entries : list (pystr * nat)) (key : pystr)
  : bool :=
  match Dict.get entries key with
  | Some place =>
      match h !! place with Some (_ :: _) => true | _ => false end
  | None => false
  end.

(** The list [allincludes] and the store at the test [if allincludes], or
    the [KeyError] of [config['include_dict']['all']]. *)
Inductive includes_outcome : Type :=
  | Includes (allincludes : list pystr) (h : store)
  | KeyError_all.

(** The lines of [reassign_pbxproj] that compute [allincludes]:
    [[
      if 'all' in entries and entries['all']:
          allincludes = config['include_dict']['all']
      else:
          allincludes = []
      if 'apple' in entries and entries['apple']:
          allincludes += config['include_dict']['all']
      else:
          allincludes += []
    ]]
    where [entries] is [config['include_dict']].  The first assignment
    makes [allincludes] the list of the configuration itself, and [+=]
    extends a list in place. *)
Definition apple_includes (h : store) (entries : list (pystr * nat))
  : includes_outcome :=
  let '(place, h1) :=
    if has_entries h entries (str "all")
    then (default 0%nat (Dict.get entries (str "all")), h)
    else let place := fresh (dom h) in (place, <[place := []]> h) in
  if has_entries h entries (str "apple") then
    match Dict.get entries (str "all") with
    | None => KeyError_all
    | Some place_all =>
        let h2 := <[place := default [] (h1 !! place)
                             ++ default [] (h1 !! place_all)]> h1 in
        Includes (default [] (h2 !! place)) h2
    end
  else Includes (default [] (h1 !! place)) h1.

(** A configuration with one include directory for all platforms and one
    for Apple. *)
Definition sample_store : store :=
  <[0%nat := [str "include"]]> (<[1%nat := [str "apple/include"]]> ∅).

Definition sample_include_dict : list (pystr * nat) :=
  [(str "all", 0%nat); (str "apple", 1%nat)].

(** ** The configuration: [normalize] and [snake2Camel] *)

(** [l.remove(x)], which takes out the first [x]; it is only called on a
    list that holds [x]. *)
Fixpoint remove_first (x : pystr) (l : list pystr) : list pystr :=
  match l with
  | [] => []
  | y :: l' => if decide (y = x) then l' else y :: remove_first x l'
  end.

(** The lines of [normalize] below the comment [# We only allow one of
    these], on the list [config['targets']]. *)
Definition one_apple_target (targets : list pystr) : list pystr :=
  if bool_decide (str "apple" ∈ targets) then
    let targets :=
      if bool_decide (str "ios" ∈ targets)
      then remove_first (str "ios") targets else targets in
    let targets :=
      if bool_decide (str "macos" ∈ targets)
      then remove_first (str "macos") targets else targets in
    targets
  else if bool_decide (str "macos" ∈ targets) && bool_decide (str "ios" ∈ targets)
  then remove_first (str "macos") (remove_first (str "ios") targets)
       ++ [str "apple"]
  else targets.



(** ** The Android makefile: [expand_sources] *)

Section android_sources.

(** [os.path.splitext(key)[1] in SOURCE_EXT], a test on the name of the
    file. *)
Variable has_source_ext : pystr -> bool.

(** [' \\\n\t%s/%s' % (path,key)] *)
Definition source_line (path key : pystr) : pystr :=
  str " \" ++ nl ++ [tab] ++ path ++ str "/" ++ key.

(** What one key of the loop of [expand_sources] adds to [result]; the
    loop over the keys of a directory is the inner [walk]. *)
Fixpoint expand_key (path key : pystr) (node : filenode) : pystr :=
  match node with
  | Directory children =>
      (fix walk (filetree : FileTree) : pystr :=
         match filetree with
         | [] => []
         | (key', node') :: filetree' =>
             expand_key (path ++ str "/" ++ key) key' node' ++ walk filetree'
         end) children
  | Leaf category =>
      if bool_decide (category ∈ [str "all"; str "android"])
         && has_source_ext key
      then source_line path key
      else []
  end.

(** [expand_sources(path, filetree)] of the Android build. *)
Fixpoint expand_sources (path : pystr) (filetree : FileTree) : pystr :=
  match filetree with
  | [] => []
  | (key, node) :: filetree' =>
      expand_key path key node ++ expand_sources path filetree'
  end.

End android_sources.

(** ** [directory_replace] *)






(** * Properties *)

(** ** The string operations on values of Python *)

Example find_negative_start :
  PyStr.find (str "abc" ++ nl) nl (-1) = 3 /\ PyStr.find (str "abc") nl (-1) = -1.
Proof. split; reflexivity. Qed.

Example find_empty_at_end :
  PyStr.find (str "abc") [] 3 = 3 /\ PyStr.find (str "abc") [] 4 = -1.
Proof. split; reflexivity. Qed.

Example slice_negative :
  PyStr.slice_to (str "abc") (-1) = str "ab" /\ PyStr.slice_to [] (-1) = [] /\
  PyStr.slice_from (str "abc") (-1) = str "c".
Proof. repeat split; reflexivity. Qed.

Example replace_does_not_overlap :
  PyReplace.replace (str "aaa") (str "aa") (str "b") = str "ba" /\
  PyReplace.replace (str "abc") [] (str "-") = str "-a-b-c-".
Proof. split; reflexivity. Qed.

Example split_keeps_empty_parts :
  PyStr.split (str "a/b//c") "/"%char = [str "a"; str "b"; []; str "c"] /\
  PyStr.split [] "/"%char = [[]].
Proof. split; reflexivity. Qed.

Example lines_keep_breaks :
  PyStr.lines (str "ab" ++ nl ++ str "c") = [str "ab" ++ nl; str "c"] /\
  PyStr.lines [] = [].
Proof. split; reflexivity. Qed.

(** ** Loops *)

Lemma for_each_app {A S : Type} (l1 l2 : list A) (body : S -> A -> result S) s :
  for_each (l1 ++ l2) body s = do s' <- for_each l1 body s; for_each l2 body s'.
Proof.
  revert s; induction l1 as [|x l1 IH]; intros s; simpl; [reflexivity|].
  destruct (body s x); simpl; auto.
Qed.

(** ** Slices *)

Lemma clamp_nonneg (s : pystr) (i : Z) :
  0 <= i -> PyStr.clamp s i = Nat.min (Z.to_nat i) (length s).
Proof.
  intros Hi. unfold PyStr.clamp, PyStr.len.
  destruct (Z.ltb_spec i 0); lia.
Qed.

Lemma clamp_len (s : pystr) : PyStr.clamp s (PyStr.len s) = length s.
Proof. rewrite clamp_nonneg; unfold PyStr.len; lia. Qed.

Lemma slice_to_len_app (s t : pystr) :
  PyStr.slice_to (s ++ t) (PyStr.len s) = s.
Proof.
  unfold PyStr.slice_to. rewrite clamp_nonneg by (unfold PyStr.len; lia).
  unfold PyStr.len. rewrite Nat2Z.id, length_app.
  replace (Nat.min (length s) (length s + length t)) with (length s) by lia.
  by rewrite take_app_length.
Qed.

(** ** applyPrefix *)

Lemma applyPrefix_step_ok (prefix uuid copy : pystr) (ii : nat) :
  (ii < Nat.max (length prefix) (length uuid))%nat ->
  exists c, overlay_at prefix uuid ii = Some c /\
            applyPrefix_step prefix uuid copy ii = Ok (copy ++ [c]).
Proof.
  intros Hii. unfold applyPrefix_step, overlay_at, PyStr.index.
  destruct (uuid !! ii) as [c|] eqn:Hu.
  - apply lookup_lt_Some in Hu as Hlt.
    replace (ii <? length uuid)%nat with true by (symmetry; apply Nat.ltb_lt; lia).
    simpl. destruct (bool_decide_reflect (c = hyphen)) as [->|Hne].
    + rewrite bool_decide_eq_true_2 by done. simpl. eauto.
    + rewrite bool_decide_eq_false_2 by congruence.
      destruct (prefix !! ii) as [d|] eqn:Hp.
      * apply lookup_lt_Some in Hp.
        replace (ii <? length prefix)%nat with true
          by (symmetry; apply Nat.ltb_lt; lia).
        simpl. eauto.
      * apply lookup_ge_None in Hp.
        replace (ii <? length prefix)%nat with false
          by (symmetry; apply Nat.ltb_ge; lia).
        simpl. eauto.
  - apply lookup_ge_None in Hu.
    replace (ii <? length uuid)%nat with false by (symmetry; apply Nat.ltb_ge; lia).
    assert (Hp : (ii < length prefix)%nat) by lia.
    replace (ii <? length prefix)%nat with true by (symmetry; apply Nat.ltb_lt; lia).
    apply lookup_lt_is_Some in Hp as [d Hd]. exists d. rewrite Hd. simpl. eauto.
Qed.

(** Loop invariant: after [k] iterations the copy holds the first [k]
    overlaid characters. *)
Lemma applyPrefix_loop (prefix uuid : pystr) (k : nat) :
  (k <= Nat.max (length prefix) (length uuid))%nat ->
  exists copy,
    for_each (seq 0 k) (applyPrefix_step prefix uuid) [] = Ok copy /\
    length copy = k /\
    forall i, (i < k)%nat -> copy !! i = overlay_at prefix uuid i.
Proof.
  induction k as [|k IH]; intros Hk.
  - exists []. simpl. repeat split; auto. intros; lia.
  - destruct IH as (copy & Hrun & Hlen & Hat); [lia|].
    destruct (applyPrefix_step_ok prefix uuid copy k) as (c & Hc & Hstep); [lia|].
    exists (copy ++ [c]). rewrite seq_S, for_each_app, Hrun. simpl.
    rewrite Hstep. simpl. split; [done|]. split.
    + rewrite length_app. simpl. lia.
    + intros i Hi. destruct (decide (i = k)) as [->|Hne].
      * rewrite lookup_app_r by lia. rewrite Hlen, Nat.sub_diag. simpl. congruence.
      * rewrite lookup_app_l by lia. apply Hat. lia.
Qed.

Lemma applyPrefix_spec (prefix uuid : pystr) :
  exists r, applyPrefix prefix uuid = Ok r /\
            length r = length uuid /\
            forall i, (i < length uuid)%nat -> r !! i = overlay_at prefix uuid i.
Proof.
  destruct (applyPrefix_loop prefix uuid (Nat.max (length prefix) (length uuid)))
    as (copy & Hrun & Hlen & Hat); [lia|].
  exists (PyStr.slice_to copy (PyStr.len uuid)).
  unfold applyPrefix. rewrite Hrun. simpl. split; [done|].
  unfold PyStr.slice_to. rewrite clamp_nonneg by (unfold PyStr.len; lia).
  unfold PyStr.len. rewrite Nat2Z.id. split.
  - rewrite length_take. lia.
  - intros i Hi. rewrite lookup_take_lt by lia. apply Hat. lia.
Qed.

(** C5. For every prefix and identifier, [applyPrefix] returns (without
    raising) a string of exactly the length of the identifier, and every
    position that holds the separator ['-'] in the identifier still holds
    ['-'] in the result; a prefix longer than the identifier is truncated. *)
Theorem applyPrefix_length_and_separators (prefix uuid : pystr) :
  exists r, applyPrefix prefix uuid = Ok r /\
            length r = length uuid /\
            forall i, uuid !! i = Some hyphen -> r !! i = Some hyphen.
Proof.
  destruct (applyPrefix_spec prefix uuid) as (r & Hr & Hlen & Hat).
  exists r. repeat split; auto.
  intros i Hi. rewrite Hat by (by apply lookup_lt_Some in Hi).
  unfold overlay_at. rewrite Hi. by rewrite bool_decide_eq_true_2.
Qed.

Lemma applyPrefix_length_and_separators_witness :
  exists r, applyPrefix (str "ABCDEFGHIJKLMN") (str "0123-4567-89") = Ok r /\
            length r = 12%nat /\ r !! 4%nat = Some hyphen /\ r !! 9%nat = Some hyphen.
Proof.
  destruct (applyPrefix_length_and_separators
              (str "ABCDEFGHIJKLMN") (str "0123-4567-89")) as (r & Hr & Hlen & Hh).
  exists r. split; [exact Hr|]. split; [exact Hlen|].
  split; apply Hh; reflexivity.
Defined.

(** ** UUIDService *)

Section UUIDService_facts.
Context `{Hasher}.

Lemma compute_Apple_left_collide (left : nat) self url :
  apple_candidate url ∈ _uniques self ->
  compute_Apple_left left self url = (left, Raise RuntimeError).
Proof.
  intros Hin. induction left as [|left IH]; simpl; [reflexivity|].
  rewrite decide_True by done. by rewrite IH.
Qed.

Lemma compute_Apple_left_fresh (left : nat) self url :
  apple_candidate url ∉ _uniques self ->
  compute_Apple_left (S left) self url = (1%nat, Ok (apple_candidate url)).
Proof. intros Hin. simpl. by rewrite decide_False. Qed.

(** The recursion as the source writes it. *)
Lemma _compute_Apple_UUID__unfold self url (tries : nat) :
  _compute_Apple_UUID_ self url tries =
  if (MAX_TRIES <=? tries)%nat then Raise RuntimeError
  else if decide (apple_candidate url ∈ _uniques self)
       then _compute_Apple_UUID_ self url (tries + 1)
       else Ok (apple_candidate url).
Proof.
  unfold _compute_Apple_UUID_.
  destruct (Nat.leb_spec MAX_TRIES tries) as [Hge|Hlt].
  - replace (MAX_TRIES - tries)%nat with 0%nat by lia. reflexivity.
  - replace (MAX_TRIES - tries)%nat with (S (MAX_TRIES - (tries + 1))) by lia.
    simpl. destruct (decide _); [|reflexivity].
    by destruct (compute_Apple_left _ _ _).
Qed.

(** The helper never returns an identifier that was handed out before. *)
Lemma _compute_Apple_UUID__unique self url tries r :
  _compute_Apple_UUID_ self url tries = Ok r ->
  r = apple_candidate url /\ r ∉ _uniques self.
Proof.
  unfold _compute_Apple_UUID_.
  destruct (decide (apple_candidate url ∈ _uniques self)) as [Hin|Hnin].
  - rewrite compute_Apple_left_collide by done. discriminate.
  - destruct (MAX_TRIES - tries)%nat as [|left]; [discriminate|].
    rewrite compute_Apple_left_fresh by done. simpl. by intros [= <-].
Qed.

Lemma getAppleUUID_keeps_candidates self url :
  apples_are_candidates self ->
  apples_are_candidates (snd (getAppleUUID self url)).
Proof.
  intros Hinv. unfold getAppleUUID.
  destruct (_apples self !! url) as [r|] eqn:Hc; [exact Hinv|].
  destruct (_compute_Apple_UUID_ self url 0) as [r|e] eqn:Hr; [|exact Hinv].
  destruct (PyStr.truthy r); [|exact Hinv].
  apply _compute_Apple_UUID__unique in Hr as [-> _].
  intros url' r'. simpl. rewrite lookup_insert.
  case_decide; [by intros [= <-]; subst|apply Hinv].
Qed.

Lemma getWindowsUUID_keeps_candidates self url :
  apples_are_candidates self ->
  apples_are_candidates (snd (getWindowsUUID self url)).
Proof.
  intros Hinv. unfold getWindowsUUID.
  destruct (_windows self !! url); [exact Hinv|].
  destruct (_compute_Windows_UUID_ self url 0); [|exact Hinv].
  destruct (PyStr.truthy _); exact Hinv.
Qed.

Lemma reachable_candidates self :
  reachable self -> apples_are_candidates self.
Proof.
  induction 1 as [|self url _ IH|self url _ IH].
  - intros url r. simpl. by rewrite lookup_empty.
  - by apply getAppleUUID_keeps_candidates.
  - by apply getWindowsUUID_keeps_candidates.
Qed.

(** A second call with the same seed repeats the outcome of the first
    and leaves the service as it is. *)
Lemma getAppleUUID_repeat self url :
  getAppleUUID (snd (getAppleUUID self url)) url = getAppleUUID self url.
Proof.
  unfold getAppleUUID at 2 3.
  destruct (_apples self !! url) as [r|] eqn:Hc.
  - simpl. unfold getAppleUUID. by rewrite Hc.
  - destruct (_compute_Apple_UUID_ self url 0) as [r|e] eqn:Hr.
    + destruct (PyStr.truthy r) eqn:Ht; simpl.
      * unfold getAppleUUID. simpl. by rewrite lookup_insert_eq.
      * unfold getAppleUUID. by rewrite Hc, Hr, Ht.
    + simpl. unfold getAppleUUID. by rewrite Hc, Hr.
Qed.

Section with_spec.
Context `{!HasherSpec H}.

Lemma upper_alphabet_hex c :
  c ∈ shortus_alphabet -> is_upper_hex (PyStr.upper_char c) = true.
Proof.
  intros Hc.
  assert (Hall : Forall (fun c => is_upper_hex (PyStr.upper_char c) = true)
                        shortus_alphabet).
  { unfold shortus_alphabet. simpl. repeat constructor. }
  rewrite Forall_forall in Hall. by apply Hall.
Qed.

Lemma apple_candidate_is_uuid url : is_apple_uuid (apple_candidate url).
Proof.
  unfold apple_candidate, is_apple_uuid, PyStr.slice_to, PyStr.upper.
  rewrite clamp_nonneg by (unfold APPLE_SIZE; lia).
  pose proof (shortus_uuid_length url) as Hlen.
  rewrite length_map. unfold APPLE_SIZE. split.
  - rewrite length_take, length_map. lia.
  - apply forallb_forall. intros c Hc. apply list_elem_of_In in Hc.
    apply elem_of_take in Hc as (i & Hc & _).
    apply list_elem_of_lookup_2 in Hc.
    apply list_elem_of_fmap in Hc as (d & -> & Hd).
    apply upper_alphabet_hex. by apply (shortus_uuid_alphabet url).
Qed.

Lemma apple_candidate_truthy url : PyStr.truthy (apple_candidate url) = true.
Proof.
  destruct (apple_candidate_is_uuid url) as [Hlen _].
  by destruct (apple_candidate url).
Qed.

(** C6. On one service instance, a second call of [getAppleUUID] with
    the same url has the outcome of the first call and leaves the
    service unchanged; an identifier that is returned is a string of 24
    upper-case hexadecimal characters. *)
Theorem getAppleUUID_deterministic self url r1 s1 :
  reachable self ->
  getAppleUUID self url = (r1, s1) ->
  getAppleUUID s1 url = (r1, s1) /\
  forall r, r1 = Ok r -> is_apple_uuid r.
Proof.
  intros Hreach Hcall. split.
  - pose proof (getAppleUUID_repeat self url) as Hrep.
    by rewrite Hcall in Hrep.
  - intros r ->. apply reachable_candidates in Hreach.
    unfold getAppleUUID in Hcall.
    destruct (_apples self !! url) as [r'|] eqn:Hc.
    + injection Hcall as <- _. rewrite (Hreach url r' Hc).
      apply apple_candidate_is_uuid.
    + destruct (_compute_Apple_UUID_ self url 0) as [r'|e] eqn:Hr.
      * apply _compute_Apple_UUID__unique in Hr as [-> _].
        destruct (PyStr.truthy _); injection Hcall as <- _;
          apply apple_candidate_is_uuid.
      * discriminate.
Qed.

(** On a fresh service the first call returns the candidate. *)
Lemma getAppleUUID_fresh url :
  fst (getAppleUUID UUIDService_init url) = Ok (apple_candidate url).
Proof.
  unfold getAppleUUID, _compute_Apple_UUID_.
  change (MAX_TRIES - 0)%nat with (S 7).
  rewrite compute_Apple_left_fresh by set_solver.
  cbn [snd _apples UUIDService_init]. rewrite lookup_empty.
  by rewrite apple_candidate_truthy.
Qed.

End with_spec.

(** C7. When the candidate of a seed collides with an identifier handed
    out before, [_compute_Apple_UUID_] examines exactly [MAX_TRIES = 8]
    candidates and then raises [RuntimeError]; [getAppleUUID] passes the
    error on for a seed it has not cached, and records nothing. *)
Theorem compute_Apple_UUID_exhausts self url :
  apple_candidate url ∈ _uniques self ->
  _compute_Apple_UUID_ self url 0 = Raise RuntimeError /\
  _compute_Apple_UUID_attempts self url 0 = 8%nat /\
  (_apples self !! url = None ->
   getAppleUUID self url = (Raise RuntimeError, self)).
Proof.
  intros Hin. unfold _compute_Apple_UUID_, _compute_Apple_UUID_attempts.
  rewrite compute_Apple_left_collide by done. simpl.
  split; [done|]. split; [done|].
  intros Hc. unfold getAppleUUID, _compute_Apple_UUID_. rewrite Hc.
  by rewrite compute_Apple_left_collide.
Qed.

Lemma compute_Windows_left_collide (left : nat) self url :
  windows_candidate url ∈ _uniques self ->
  compute_Windows_left left self url = (left, Raise RuntimeError).
Proof.
  intros Hin. induction left as [|left IH]; simpl; [reflexivity|].
  rewrite decide_True by done. by rewrite IH.
Qed.

(** The same for the Windows identifiers. *)
Lemma compute_Windows_UUID_exhausts self url :
  windows_candidate url ∈ _uniques self ->
  _compute_Windows_UUID_ self url 0 = Raise RuntimeError.
Proof.
  intros Hin. unfold _compute_Windows_UUID_.
  by rewrite compute_Windows_left_collide.
Qed.

End UUIDService_facts.

(** The stand-in hash meets the guarantees of the library. *)
Lemma toy_digit_alphabet c : toy_digit c ∈ shortus_alphabet.
Proof.
  unfold toy_digit. apply list_elem_of_In, nth_In.
  change (length shortus_alphabet) with 22%nat.
  apply Nat.mod_upper_bound. lia.
Qed.

Lemma toy_hasher_spec : HasherSpec toy_hasher.
Proof.
  split; simpl; unfold toy_shortus_uuid; intros name.
  - rewrite length_take, length_app, length_map, repeat_length. lia.
  - intros c Hc. apply elem_of_take in Hc as (i & Hc & _).
    apply list_elem_of_lookup_2 in Hc. apply elem_of_app in Hc as [Hc|Hc].
    + apply list_elem_of_fmap in Hc as (d & -> & _). apply toy_digit_alphabet.
    + apply list_elem_of_In, repeat_spec in Hc. subst c.
      unfold shortus_alphabet. simpl. set_solver.
Qed.

Lemma getAppleUUID_deterministic_witness :
  exists r s1,
    @getAppleUUID toy_hasher UUIDService_init (str "https://x/y") = (Ok r, s1) /\
    @getAppleUUID toy_hasher s1 (str "https://x/y") = (Ok r, s1) /\
    is_apple_uuid r.
Proof.
  pose proof (@getAppleUUID_fresh toy_hasher toy_hasher_spec (str "https://x/y"))
    as Hfresh.
  destruct (@getAppleUUID toy_hasher UUIDService_init (str "https://x/y"))
    as [r1 s1] eqn:Hcall.
  simpl in Hfresh. subst r1.
  destruct (@getAppleUUID_deterministic toy_hasher toy_hasher_spec
              UUIDService_init (str "https://x/y") _ s1
              (@reachable_init toy_hasher) Hcall) as [Hsame Hfmt].
  eexists _, s1. split; [reflexivity|]. split; [exact Hsame|].
  apply Hfmt. reflexivity.
Defined.

Lemma compute_Apple_UUID_exhausts_witness :
  let self := snd (@getAppleUUID toy_hasher UUIDService_init (str "a")) in
  @_compute_Apple_UUID_ toy_hasher self (str "w") 0 = Raise RuntimeError /\
  @_compute_Apple_UUID_attempts toy_hasher self (str "w") 0 = 8%nat /\
  @getAppleUUID toy_hasher self (str "w") = (Raise RuntimeError, self).
Proof.
  intros self.
  destruct (@compute_Apple_UUID_exhausts toy_hasher self (str "w"))
    as (Hraise & Hcount & Hget).
  - refine (bool_decide_unpack _ _). vm_compute. exact I.
  - split; [exact Hraise|]. split; [exact Hcount|].
    apply Hget. vm_compute. reflexivity.
Defined.

(** ** Dictionaries *)

Section Dict_facts.
Context {V : Type}.
Implicit Types (d : list (pystr * V)) (k : pystr) (v : V).

Lemma dict_get_set d k v : Dict.get (Dict.set d k v) k = Some v.
Proof.
  induction d as [|[k' v'] d IH]; simpl.
  - by rewrite decide_True.
  - destruct (decide (k' = k)) as [->|Hne]; simpl.
    + by rewrite decide_True.
    + by rewrite decide_False.
Qed.

Lemma dict_get_set_ne d k k' v :
  k <> k' -> Dict.get (Dict.set d k v) k' = Dict.get d k'.
Proof.
  intros Hne. induction d as [|[k0 v0] d IH]; simpl.
  - by rewrite decide_False.
  - destruct (decide (k0 = k)) as [->|Hne0]; simpl.
    + by rewrite !decide_False.
    + destruct (decide (k0 = k')); auto.
Qed.

Lemma dict_has_set d k v : Dict.has (Dict.set d k v) k = true.
Proof. unfold Dict.has. by rewrite dict_get_set. Qed.

Lemma dict_set_set d k v w : Dict.set (Dict.set d k v) k w = Dict.set d k w.
Proof.
  induction d as [|[k' v'] d IH]; simpl.
  - by rewrite decide_True.
  - destruct (decide (k' = k)) as [->|Hne]; simpl.
    + by rewrite decide_True.
    + rewrite decide_False by done. by rewrite IH.
Qed.

Lemma dict_set_get d k v : Dict.get d k = Some v -> Dict.set d k v = d.
Proof.
  induction d as [|[k' v'] d IH]; simpl; [discriminate|].
  destruct (decide (k' = k)) as [->|Hne].
  - by intros [= ->].
  - intros Hg. by rewrite IH.
Qed.
End Dict_facts.

(** ** FileTree *)

Lemma ensure_directory_set (curr : FileTree) entry node :
  ensure_directory (Dict.set curr entry node) entry = Dict.set curr entry node.
Proof. unfold ensure_directory. by rewrite dict_has_set. Qed.

Lemma insert_path_step (curr : FileTree) entry entry' path target :
  insert_path curr (entry :: entry' :: path) target =
  match Dict.get (ensure_directory curr entry) entry with
  | Some (Directory sub) =>
      do sub' <- insert_path sub (entry' :: path) target;
      Ok (Dict.set (ensure_directory curr entry) entry (Directory sub'))
  | _ => Raise TypeError
  end.
Proof. cbn [insert_path]. by destruct (Dict.get _ entry) as [[|]|]. Qed.

Lemma filetree_lookup_step (tree : FileTree) entry entry' path :
  filetree_lookup tree (entry :: entry' :: path) =
  match Dict.get tree entry with
  | Some (Directory sub) => filetree_lookup sub (entry' :: path)
  | _ => None
  end.
Proof. reflexivity. Qed.

(** Inserting a path a second time, with any tag, gives the tree that
    inserting it once with that tag gives. *)
Lemma insert_path_again (path : list pystr) :
  forall (tree tree1 : FileTree) (tag1 tag2 : pystr),
    insert_path tree path tag1 = Ok tree1 ->
    insert_path tree1 path tag2 = insert_path tree path tag2.
Proof.
  induction path as [|entry path IH]; intros tree tree1 tag1 tag2 Hins.
  - simpl in *. by injection Hins as <-.
  - destruct path as [|entry' path].
    + simpl in *. injection Hins as <-. by rewrite dict_set_set.
    + rewrite insert_path_step in Hins. rewrite !insert_path_step.
      destruct (Dict.get (ensure_directory tree entry) entry)
        as [[tag|sub]|] eqn:Hget; try discriminate.
      destruct (insert_path sub (entry' :: path) tag1) as [sub1|e] eqn:Hsub;
        cbn [bind] in Hins; [|discriminate].
      injection Hins as <-.
      rewrite !ensure_directory_set, dict_get_set.
      rewrite (IH sub sub1 tag1 tag2 Hsub).
      destruct (insert_path sub (entry' :: path) tag2); [|reflexivity].
      cbn [bind]. by rewrite dict_set_set.
Qed.

(** An insertion succeeds or fails whatever the tag is. *)
Lemma insert_path_ok_any_tag (path : list pystr) :
  forall (tree tree1 : FileTree) (tag1 tag2 : pystr),
    insert_path tree path tag1 = Ok tree1 ->
    exists tree2, insert_path tree path tag2 = Ok tree2.
Proof.
  induction path as [|entry path IH]; intros tree tree1 tag1 tag2 Hins.
  - simpl. eauto.
  - destruct path as [|entry' path].
    + simpl. eauto.
    + rewrite insert_path_step in Hins. rewrite insert_path_step.
      destruct (Dict.get (ensure_directory tree entry) entry)
        as [[tag|sub]|] eqn:Hget; try discriminate.
      destruct (insert_path sub (entry' :: path) tag1) as [sub1|e] eqn:Hsub;
        cbn [bind] in Hins; [|discriminate].
      destruct (IH sub sub1 tag1 tag2 Hsub) as [sub2 ->].
      cbn [bind]. eauto.
Qed.

(** After a successful insertion the path leads to a file with the tag. *)
Lemma insert_path_lookup (path : list pystr) :
  forall (tree tree1 : FileTree) (tag : pystr),
    path <> [] ->
    insert_path tree path tag = Ok tree1 ->
    filetree_lookup tree1 path = Some (Leaf tag).
Proof.
  induction path as [|entry path IH]; intros tree tree1 tag Hne Hins; [done|].
  destruct path as [|entry' path].
  - simpl in *. injection Hins as <-. apply dict_get_set.
  - rewrite insert_path_step in Hins. rewrite filetree_lookup_step.
    destruct (Dict.get (ensure_directory tree entry) entry)
      as [[tag'|sub]|] eqn:Hget; try discriminate.
    destruct (insert_path sub (entry' :: path) tag) as [sub1|e] eqn:Hsub;
      cbn [bind] in Hins; [|discriminate].
    injection Hins as <-. rewrite dict_get_set.
    by apply (IH sub sub1 tag).
Qed.

Lemma split_aux_nonempty sep cur s : PyStr.split_aux sep cur s <> [].
Proof.
  revert cur; induction s as [|c s IH]; intros cur; simpl; [done|].
  destruct (Ascii.eqb c sep); [done|apply IH].
Qed.

Lemma insert_filetree_single tree file target :
  insert_filetree tree [file] target =
  insert_path tree (PyStr.split file "/"%char) target.
Proof.
  unfold insert_filetree. simpl. by destruct (insert_path _ _ _).
Qed.

(** C8. When a file has been inserted into a filetree with a tag, inserting
    the same file with the same tag again leaves the tree as it is, and
    inserting it with another tag gives the tree that inserting it with
    that tag in the first place gives: the path then leads to a file with
    the new tag, and nothing of the old tag is kept. *)
Theorem insert_filetree_idempotent_last_wins
    (tree tree1 : FileTree) (file tag : pystr) :
  insert_filetree tree [file] tag = Ok tree1 ->
  insert_filetree tree1 [file] tag = Ok tree1 /\
  forall tag2, exists tree2,
    insert_filetree tree1 [file] tag2 = Ok tree2 /\
    insert_filetree tree [file] tag2 = Ok tree2 /\
    filetree_lookup tree2 (PyStr.split file "/"%char) = Some (Leaf tag2).
Proof.
  rewrite !insert_filetree_single. intros Hins. split.
  - by rewrite (insert_path_again _ _ _ _ _ Hins).
  - intros tag2. setoid_rewrite insert_filetree_single.
    rewrite (insert_path_again _ _ _ tag tag2 Hins).
    destruct (insert_path_ok_any_tag _ _ _ tag tag2 Hins) as [tree2 Hins2].
    exists tree2. repeat split; auto.
    eapply insert_path_lookup; [|exact Hins2]. apply split_aux_nonempty.
Qed.

Lemma insert_filetree_idempotent_last_wins_witness :
  let tree := [(str "src", Directory [(str "a.cpp", Leaf (str "all"))])] in
  let tree1 := [(str "src", Directory [(str "a.cpp", Leaf (str "all"));
                                       (str "b.cpp", Leaf (str "android"))])] in
  insert_filetree tree1 [str "src/b.cpp"] (str "android") = Ok tree1 /\
  forall tag2, exists tree2,
    insert_filetree tree1 [str "src/b.cpp"] tag2 = Ok tree2 /\
    insert_filetree tree [str "src/b.cpp"] tag2 = Ok tree2 /\
    filetree_lookup tree2 (PyStr.split (str "src/b.cpp") "/"%char) = Some (Leaf tag2).
Proof.
  intros tree tree1.
  apply (insert_filetree_idempotent_last_wins tree tree1
           (str "src/b.cpp") (str "android")).
  vm_compute. reflexivity.
Defined.

(** ** Searching in strings *)

Lemma startswith_prefix (s sub : pystr) :
  PyStr.startswith s sub = true <-> sub `prefix_of` s.
Proof.
  revert s; induction sub as [|c sub IH]; intros s; simpl.
  - split; [intros _; apply prefix_nil|done].
  - destruct s as [|d s].
    + split; [done|]. intros [k Hk]. discriminate.
    + rewrite andb_true_iff, IH. split.
      * intros [Hc Hp]. apply Ascii.eqb_eq in Hc as ->. by apply prefix_cons.
      * intros [k Hk]. injection Hk as -> ->. split.
        -- apply Ascii.eqb_refl.
        -- by exists k.
Qed.

Lemma startswith_false (s sub : pystr) :
  PyStr.startswith s sub = false <-> ~ sub `prefix_of` s.
Proof. rewrite <- startswith_prefix. by destruct (PyStr.startswith s sub). Qed.

(** [find_first] returns the first position where [sub] starts. *)
Lemma find_first_spec (s sub : pystr) :
  match PyStr.find_first s sub with
  | Some i => (i <= length s)%nat /\ sub `prefix_of` drop i s /\
              forall j, (j < i)%nat -> ~ sub `prefix_of` drop j s
  | None => forall j, ~ sub `prefix_of` drop j s
  end.
Proof.
  induction s as [|c s IH]; simpl.
  - destruct (PyStr.startswith [] sub) eqn:Hs.
    + apply startswith_prefix in Hs. repeat split; auto. intros; lia.
    + apply startswith_false in Hs. intros j. by rewrite drop_nil.
  - destruct (PyStr.startswith (c :: s) sub) eqn:Hs.
    + apply startswith_prefix in Hs. repeat split; auto; [lia|intros; lia].
    + apply startswith_false in Hs.
      destruct (PyStr.find_first s sub) as [i|]; simpl.
      * destruct IH as (Hi & Hp & Hmin). repeat split; auto; [lia|].
        intros [|j] Hj; [done|]. simpl. apply Hmin. lia.
      * intros [|j]; [done|]. simpl. apply IH.
Qed.

Lemma find_first_occurs (s sub : pystr) (i : nat) :
  PyStr.find_first s sub = Some i -> occurs sub s.
Proof.
  intros Hf. pose proof (find_first_spec s sub) as Hspec. rewrite Hf in Hspec.
  destruct Hspec as (_ & [k Hk] & _).
  exists (take i s), k. by rewrite <- Hk, take_drop.
Qed.

Lemma find_first_None (s sub : pystr) :
  PyStr.find_first s sub = None <-> ~ occurs sub s.
Proof.
  pose proof (find_first_spec s sub) as Hspec.
  destruct (PyStr.find_first s sub) as [i|] eqn:Hf; split; try done.
  - intros Hno. exfalso. apply Hno. by apply find_first_occurs in Hf.
  - intros _ (pre & post & ->).
    apply (Hspec (length pre)). rewrite drop_app_length. by exists post.
Qed.

Lemma find_first_Some (s sub : pystr) (i : nat) :
  PyStr.find_first s sub = Some i <->
  (i <= length s)%nat /\ sub `prefix_of` drop i s /\
  forall j, (j < i)%nat -> ~ sub `prefix_of` drop j s.
Proof.
  pose proof (find_first_spec s sub) as Hspec.
  destruct (PyStr.find_first s sub) as [i'|]; split.
  - by intros [= ->].
  - intros (Hi & Hp & Hmin). destruct Hspec as (Hi' & Hp' & Hmin').
    f_equal. destruct (Nat.lt_trichotomy i i') as [Hlt|[->|Hlt]]; [|done|].
    + by apply Hmin' in Hlt.
    + by apply Hmin in Hlt.
  - done.
  - intros (_ & Hp & _). by apply Hspec in Hp.
Qed.

Lemma find_from_0 (s sub : pystr) :
  PyStr.find s sub 0 =
  match PyStr.find_first s sub with Some i => Z.of_nat i | None => -1 end.
Proof.
  unfold PyStr.find, PyStr.len.
  change (0 <? 0) with false. cbv iota.
  destruct (Z.ltb_spec (Z.of_nat (length s)) 0) as [Hlt|_]; [lia|].
  change (Z.to_nat 0) with 0%nat. rewrite drop_0.
  by destruct (PyStr.find_first s sub).
Qed.

Lemma find_absent (s sub : pystr) : ~ occurs sub s -> PyStr.find s sub 0 = -1.
Proof. intros Hno. rewrite find_from_0. by apply find_first_None in Hno as ->. Qed.

Lemma contains_occurs (s sub : pystr) :
  PyStr.contains s sub = true <-> occurs sub s.
Proof.
  unfold PyStr.contains. destruct (PyStr.find_first s sub) eqn:Hf.
  - split; [|done]. intros _. by apply find_first_occurs in Hf.
  - apply find_first_None in Hf. split; [done|]. intros. by exfalso.
Qed.

Lemma prefix_of_drop_app (a x sub : pystr) (j : nat) :
  (j + length sub <= length a)%nat ->
  sub `prefix_of` drop j (a ++ x) <-> sub `prefix_of` drop j a.
Proof.
  intros Hlen. rewrite drop_app_le by lia. split.
  - intros [k Hk].
    assert (Htake : take (length sub) (drop j a) = sub).
    { apply (f_equal (take (length sub))) in Hk.
      rewrite take_app_le in Hk by (rewrite length_drop; lia).
      by rewrite take_app_length in Hk. }
    exists (drop (length sub) (drop j a)).
    by rewrite <- Htake at 1; rewrite take_drop.
  - intros Hp. by apply prefix_app_r.
Qed.

Lemma prefix_of_drop_length (s sub : pystr) (i : nat) :
  sub `prefix_of` drop i s -> (i <= length s)%nat ->
  (i + length sub <= length s)%nat.
Proof.
  intros Hp Hi. apply prefix_length in Hp. rewrite length_drop in Hp. lia.
Qed.

(** An occurrence found in a text is still the first one when the text is
    extended. *)
Lemma find_first_app_l (head x sub : pystr) (i : nat) :
  PyStr.find_first head sub = Some i ->
  PyStr.find_first (head ++ x) sub = Some i.
Proof.
  rewrite !find_first_Some. intros (Hi & Hp & Hmin).
  pose proof (prefix_of_drop_length _ _ _ Hp Hi) as Hlen.
  split; [rewrite length_app; lia|]. split.
  - apply prefix_of_drop_app; [lia|done].
  - intros j Hj Hpj. apply (Hmin j Hj).
    apply prefix_of_drop_app in Hpj; [done|lia].
Qed.

Lemma find_first_char (a b : pystr) (c : ascii) :
  c ∉ a -> PyStr.find_first (a ++ c :: b) [c] = Some (length a).
Proof.
  induction a as [|d a IH]; intros Hc; simpl.
  - by rewrite Ascii.eqb_refl.
  - apply not_elem_of_cons in Hc as [Hne Hc].
    replace (Ascii.eqb c d) with false
      by (symmetry; apply Ascii.eqb_neq; congruence).
    simpl. by rewrite IH.
Qed.

(** The next line break at or after a position. *)
Lemma find_char_from (s t : pystr) (c : ascii) (i : nat) :
  (i <= length s)%nat -> c ∉ drop i s ->
  PyStr.find (s ++ c :: t) [c] (Z.of_nat i) = Z.of_nat (length s).
Proof.
  intros Hi Hc. unfold PyStr.find, PyStr.len.
  destruct (Z.ltb_spec (Z.of_nat i) 0) as [Hlt|_]; [lia|].
  destruct (Z.ltb_spec (Z.of_nat (length (s ++ c :: t))) (Z.of_nat i)) as [Hlt|_].
  { rewrite length_app in Hlt. lia. }
  rewrite Nat2Z.id, drop_app_le by lia.
  rewrite find_first_char by done. rewrite length_drop. lia.
Qed.

Lemma slice_to_app (s t : pystr) : PyStr.slice_to (s ++ t) (PyStr.len s) = s.
Proof. apply slice_to_len_app. Qed.

Lemma slice_from_app (s t : pystr) : PyStr.slice_from (s ++ t) (PyStr.len s) = t.
Proof.
  unfold PyStr.slice_from. rewrite clamp_nonneg by (unfold PyStr.len; lia).
  unfold PyStr.len. rewrite Nat2Z.id, length_app.
  replace (Nat.min (length s) (length s + length t)) with (length s) by lia.
  by rewrite drop_app_length.
Qed.

(** ** place_entries *)

Lemma place_in_groups_from (marker : pystr) (entries : list pystr)
    (prefix : pystr) (rest : list pystr) :
  forall done : list (option pystr),
    for_each (seq (length done) (length rest))
             (place_in_group_step marker entries prefix)
             (done ++ map Some rest)
    = Ok (done ++ map (place_or_keep marker entries prefix) rest).
Proof.
  induction rest as [|obj rest IH]; intros done; [reflexivity|].
  cbn [length seq for_each map].
  unfold place_in_group_step at 1.
  rewrite list_lookup_middle by done.
  assert (Hnext : forall b : option pystr,
             for_each (seq (S (length done)) (length rest))
                      (place_in_group_step marker entries prefix)
                      (done ++ b :: map Some rest)
             = Ok (done ++ b :: map (place_or_keep marker entries prefix) rest)).
  { intros b. specialize (IH (done ++ [b])).
    rewrite length_app, Nat.add_1_r, <- !app_assoc in IH. exact IH. }
  unfold place_or_keep at 1.
  destruct (PyStr.contains obj marker); cbn [bind].
  - rewrite insert_app_r_alt by lia. rewrite Nat.sub_diag. apply Hnext.
  - apply Hnext.
Qed.

(** The loop over a section of strings stores at every place what
    [place_entries] returns for a block that holds the marker, and keeps
    the other blocks. *)
Lemma place_in_groups_map (marker : pystr) (entries : list pystr)
    (prefix : pystr) (objs : list pystr) :
  place_in_groups marker entries prefix (map Some objs)
  = Ok (map (place_or_keep marker entries prefix) objs).
Proof.
  unfold place_in_groups. rewrite length_map.
  apply (place_in_groups_from marker entries prefix objs []).
Qed.

(** C9. When the anchor [prefix + ' = ('] does not occur in a block,
    [place_entries] returns [None], not the block; a loop that assigns the
    result back, such as the loop of [populate_assets] over [PBXGroup],
    then leaves [None] in the place of a block that holds the marker of
    the loop but not the anchor. *)
Theorem place_entries_without_anchor (obj : pystr) (entries : list pystr)
    (prefix : pystr) :
  ~ occurs (prefix ++ str " = (") obj ->
  place_entries obj entries prefix = None /\
  forall (marker : pystr) (before after : list pystr),
    occurs marker obj ->
    exists groups,
      place_in_groups marker entries prefix (map Some (before ++ obj :: after))
      = Ok groups /\
      groups !! length before = Some None.
Proof.
  intros Hno.
  assert (Hnone : place_entries obj entries prefix = None).
  { unfold place_entries. by rewrite find_absent. }
  split; [exact Hnone|].
  intros marker before after Hmark.
  eexists. split; [apply place_in_groups_map|].
  rewrite map_app. cbn [map].
  rewrite list_lookup_middle by (by rewrite length_map).
  unfold place_or_keep.
  apply contains_occurs in Hmark. by rewrite Hmark, Hnone.
Qed.

Lemma place_entries_without_anchor_witness :
  let obj := str "AA00 /* Assets */ = { isa = PBXGroup; name = Assets; };" in
  let entries := [str "AA01 /* a.png */,"] in
  place_entries obj entries (str "children") = None /\
  exists groups,
    populate_assets_group entries (map Some ([str "{ other }"] ++ obj :: []))
    = Ok groups /\
    groups !! 1%nat = Some None.
Proof.
  intros obj entries.
  destruct (place_entries_without_anchor obj entries (str "children"))
    as [Hnone Hloop].
  - apply find_first_None. vm_compute. reflexivity.
  - split; [exact Hnone|].
    apply (Hloop (str "/* Assets */ =") [str "{ other }"] []).
    apply contains_occurs. vm_compute. reflexivity.
Defined.

(** ** Lines of a block *)

Lemma split_aux_app (sep : ascii) (a b cur : pystr) :
  PyStr.split_aux sep cur (a ++ sep :: b) =
  PyStr.split_aux sep cur a ++ PyStr.split_aux sep [] b.
Proof.
  revert cur; induction a as [|c a IH]; intros cur; simpl.
  - by rewrite Ascii.eqb_refl.
  - destruct (Ascii.eqb c sep); simpl; by rewrite IH.
Qed.

Lemma split_aux_absent (sep : ascii) (s cur : pystr) :
  sep ∉ s -> PyStr.split_aux sep cur s = [rev cur ++ s].
Proof.
  revert cur; induction s as [|c s IH]; intros cur Hs; simpl.
  - by rewrite app_nil_r.
  - apply not_elem_of_cons in Hs as [Hne Hs].
    replace (Ascii.eqb c sep) with false
      by (symmetry; apply Ascii.eqb_neq; congruence).
    rewrite IH by done. simpl. by rewrite <- app_assoc.
Qed.

Lemma content_lines_app_nl (a b : pystr) :
  content_lines (a ++ nl ++ b) = content_lines a ++ content_lines b.
Proof.
  unfold content_lines, PyStr.split, nl. simpl.
  by rewrite split_aux_app, map_app, filter_app.
Qed.

Lemma content_lines_nil : content_lines [] = [].
Proof. reflexivity. Qed.

Lemma content_lines_entry (e : pystr) :
  entry_ok e -> content_lines ([tab; tab; tab; tab] ++ e) = [e].
Proof.
  intros (Hnl & Hstrip & Hne). unfold content_lines, PyStr.split.
  rewrite split_aux_absent.
  - simpl. change (is_white tab) with true. cbv iota. rewrite Hstrip.
    rewrite filter_cons_True by done. reflexivity.
  - intros Hin. apply elem_of_app in Hin as [Hin|Hin]; [|done].
    rewrite !elem_of_cons, elem_of_nil in Hin. unfold tab in Hin.
    intuition discriminate.
Qed.

(** The text that [place_entries] inserts holds the new entries, one on a
    line, in the order given. *)
Lemma content_lines_children (entries : list pystr) :
  Forall entry_ok entries ->
  content_lines (indent ++ PyStr.join indent entries) = entries.
Proof.
  intros Hok. destruct entries as [|e entries]; [reflexivity|].
  revert e Hok. induction entries as [|e' entries IH]; intros e Hok.
  - apply Forall_cons in Hok as [He _]. simpl PyStr.join.
    change (indent ++ e) with ([] ++ nl ++ [tab; tab; tab; tab] ++ e).
    by rewrite content_lines_app_nl, content_lines_nil, content_lines_entry.
  - apply Forall_cons in Hok as [He Hok].
    change (PyStr.join indent (e :: e' :: entries))
      with (e ++ indent ++ PyStr.join indent (e' :: entries)).
    specialize (IH e' Hok).
    change (indent ++ e ++ indent ++ PyStr.join indent (e' :: entries))
      with (nl ++ ([tab; tab; tab; tab] ++ e) ++
            indent ++ PyStr.join indent (e' :: entries)).
    change (nl ++ ([tab; tab; tab; tab] ++ e) ++
            indent ++ PyStr.join indent (e' :: entries))
      with ([] ++ nl ++ (([tab; tab; tab; tab] ++ e) ++
            indent ++ PyStr.join indent (e' :: entries))).
    rewrite content_lines_app_nl, content_lines_nil.
    change (([tab; tab; tab; tab] ++ e) ++ indent ++
            PyStr.join indent (e' :: entries))
      with (([tab; tab; tab; tab] ++ e) ++ nl ++
            ([tab; tab; tab; tab] ++ PyStr.join indent (e' :: entries))).
    rewrite content_lines_app_nl, content_lines_entry by done.
    change (indent ++ PyStr.join indent (e' :: entries))
      with ([] ++ nl ++ [tab; tab; tab; tab] ++
            PyStr.join indent (e' :: entries)) in IH.
    rewrite content_lines_app_nl, content_lines_nil in IH.
    simpl in IH |- *. by rewrite IH.
Qed.

(** Where [place_entries] cuts a block whose anchor line ends [head]. *)
Lemma place_entries_anchored (head tail : pystr) (entries : list pystr)
    (prefix : pystr) :
  anchored prefix head ->
  place_entries (head ++ nl ++ tail) entries prefix =
  Some (head ++ (indent ++ PyStr.join indent entries) ++ nl ++ tail).
Proof.
  intros (i & Hfind & Hnl). unfold place_entries.
  rewrite find_from_0, (find_first_app_l _ _ _ _ Hfind).
  destruct (Z.eqb_spec (Z.of_nat i) (-1)) as [Hbad|_]; [lia|].
  assert (Hi : (i <= length head)%nat).
  { apply find_first_Some in Hfind. tauto. }
  unfold nl.
  change (head ++ ["010"%char] ++ tail) with (head ++ "010"%char :: tail).
  rewrite find_char_from by done.
  change (Z.of_nat (length head)) with (PyStr.len head).
  by rewrite slice_to_app, slice_from_app.
Qed.

(** C4. Let a block consist of [head], which ends in the line that holds
    the anchor [prefix + ' = ('], a line break, and [tail], which begins
    with the existing list content.  For every list of new entries, each
    one line, not empty and not indented, [place_entries] returns the
    block with a text inserted between [head] and the line break before
    [tail]: the entries of that text are exactly the new entries in the
    order given, so the entries of the block are those of [head], then
    the [k] new ones, then those of [tail], in their old order, and there
    are [k] more than before. *)
Theorem place_entries_splices (head tail : pystr) (entries : list pystr)
    (prefix : pystr) :
  anchored prefix head ->
  Forall entry_ok entries ->
  exists inserted,
    place_entries (head ++ nl ++ tail) entries prefix
    = Some (head ++ inserted ++ nl ++ tail) /\
    content_lines inserted = entries /\
    content_lines (head ++ inserted ++ nl ++ tail)
    = content_lines head ++ entries ++ content_lines tail /\
    content_lines (head ++ nl ++ tail) = content_lines head ++ content_lines tail /\
    length (content_lines (head ++ inserted ++ nl ++ tail))
    = (length (content_lines (head ++ nl ++ tail)) + length entries)%nat.
Proof.
  intros Hanchor Hok.
  exists (indent ++ PyStr.join indent entries).
  pose proof (content_lines_children entries Hok) as Hins.
  assert (Hall : content_lines
                   (head ++ (indent ++ PyStr.join indent entries) ++ nl ++ tail)
                 = content_lines head ++ entries ++ content_lines tail).
  { change (head ++ (indent ++ PyStr.join indent entries) ++ nl ++ tail)
      with (head ++ nl ++
            (([tab; tab; tab; tab] ++ PyStr.join indent entries) ++ nl ++ tail)).
    rewrite !content_lines_app_nl.
    change (indent ++ PyStr.join indent entries)
      with ([] ++ nl ++ [tab; tab; tab; tab] ++ PyStr.join indent entries)
      in Hins.
    rewrite content_lines_app_nl, content_lines_nil in Hins.
    cbn [app] in Hins |- *. by rewrite Hins. }
  split; [by apply place_entries_anchored|].
  split; [exact Hins|]. split; [exact Hall|].
  split; [apply content_lines_app_nl|].
  rewrite Hall, content_lines_app_nl, !length_app. lia.
Qed.

Lemma place_entries_splices_witness :
  let head := tabs 3 ++ str "files = (" in
  let tail := tabs 4 ++ str "AB01 /* old.png in Resources */," ++ nl ++
              tabs 3 ++ str ");" in
  let entries := [str "AB02 /* a.png in Resources */,";
                  str "AB03 /* b.png in Resources */,"] in
  exists inserted,
    place_entries (head ++ nl ++ tail) entries (str "files")
    = Some (head ++ inserted ++ nl ++ tail) /\
    content_lines inserted = entries /\
    content_lines (head ++ inserted ++ nl ++ tail)
    = content_lines head ++ entries ++ content_lines tail /\
    content_lines (head ++ nl ++ tail) = content_lines head ++ content_lines tail /\
    length (content_lines (head ++ inserted ++ nl ++ tail))
    = (length (content_lines (head ++ nl ++ tail)) + length entries)%nat.
Proof.
  intros head tail entries.
  apply (place_entries_splices head tail entries (str "files")).
  - exists 3%nat. split; [vm_compute; reflexivity|].
    refine (bool_decide_unpack _ _). vm_compute. exact I.
  - repeat constructor; try (vm_compute; reflexivity);
      try (refine (bool_decide_unpack _ _); vm_compute; exact I);
      discriminate.
Defined.

(** ** file_replace *)

(** C10. When the file exists and its content after all substitutions is
    the empty string, [file_replace] raises [FileNotFoundError] and leaves
    the file system as it is: nothing is written back. *)
Theorem file_replace_empty_raises (fs : filesystem) (path : pystr)
    (data : list (pystr * pystr)) (contents0 : pystr) :
  fs !! path = Some contents0 ->
  replace_keys data contents0 = [] ->
  file_replace fs path data = (Raise FileNotFoundError, fs).
Proof.
  intros Hfile Hempty. unfold file_replace. by rewrite Hfile, Hempty.
Qed.

Lemma replace_empty_text (old new : pystr) :
  old <> [] -> PyReplace.replace [] old new = [].
Proof. by destruct old. Qed.

(** An empty file stays empty under keys that are not empty. *)
Lemma replace_keys_empty_text (data : list (pystr * pystr)) :
  Forall (fun kv => fst kv <> []) data -> replace_keys data [] = [].
Proof.
  unfold replace_keys. induction 1 as [|[k v] data Hk _ IH]; [reflexivity|].
  simpl. by rewrite replace_empty_text.
Qed.

Lemma file_replace_empty_file (fs : filesystem) (path : pystr)
    (data : list (pystr * pystr)) :
  fs !! path = Some [] ->
  Forall (fun kv => fst kv <> []) data ->
  file_replace fs path data = (Raise FileNotFoundError, fs).
Proof.
  intros Hfile Hkeys. unfold file_replace.
  by rewrite Hfile, replace_keys_empty_text.
Qed.

Lemma file_replace_empty_raises_witness :
  let fs : filesystem := {[ str "proj/settings.gradle" := str "__NAME__" ]} in
  file_replace fs (str "proj/settings.gradle") [(str "__NAME__", [])]
  = (Raise FileNotFoundError, fs).
Proof.
  intros fs.
  apply (file_replace_empty_raises fs (str "proj/settings.gradle")
           [(str "__NAME__", [])] (str "__NAME__")).
  - vm_compute. reflexivity.
  - vm_compute. reflexivity.
Defined.

(** The scenario of the substitution of one token. *)
Example replace_scenario :
  replace_keys [(str "__NAME__", str "Demo")] (str "id=__NAME__;")
  = str "id=Demo;".
Proof. vm_compute. reflexivity. Qed.

(** ** file_replace_after *)

(** More iterations than a loop needs do not change what it returns. *)
Lemma replace_after_loop_more (fuel : nat) :
  forall contents key value pos0 pos1 r,
    replace_after_loop fuel contents key value pos0 pos1 = Some r ->
    replace_after_loop (S fuel) contents key value pos0 pos1 = Some r.
Proof.
  induction fuel as [|fuel IH]; intros contents key value pos0 pos1 r.
  - simpl. by destruct (pos0 =? -1).
  - intros Hrun. cbn [replace_after_loop] in Hrun |- *.
    destruct (pos0 =? -1); [done|].
    destruct (replace_after_body contents key value pos1) as [[c p0] p1].
    by apply IH.
Qed.

(** A key that does not occur: the loop runs its body once, with
    [pos0 = -1], and so cuts the content at [contents[:-1]]. *)
Lemma replace_after_absent (fuel : nat) (contents key value : pystr) :
  ~ occurs key contents ->
  replace_after_loop (S fuel) contents key value 0 0 =
  Some (PyStr.slice_to contents (-1) ++ value ++
        PyStr.slice_from contents
          (if PyStr.find contents nl (-1) =? -1 then PyStr.len contents
           else PyStr.find contents nl (-1))).
Proof.
  intros Hno. cbn [replace_after_loop]. change (0 =? -1) with false. cbv iota.
  unfold replace_after_body. rewrite find_absent by done.
  change (negb (-1 =? -1)) with false. cbv iota.
  destruct fuel; reflexivity.
Qed.

(** A key that does not occur still changes the content when the value
    has two characters or more: the content grows. *)
Lemma replace_after_absent_grows (fuel : nat) (contents key value r : pystr) :
  ~ occurs key contents ->
  (2 <= length value)%nat ->
  replace_after_loop (S fuel) contents key value 0 0 = Some r ->
  (length contents < length r)%nat.
Proof.
  intros Hno Hval. rewrite replace_after_absent by done. intros [= <-].
  set (stop := if PyStr.find contents nl (-1) =? -1 then PyStr.len contents
               else PyStr.find contents nl (-1)).
  rewrite !length_app. unfold PyStr.slice_to, PyStr.slice_from.
  rewrite length_take, length_drop.
  assert (Hcut : PyStr.clamp contents (-1) = (length contents - 1)%nat).
  { unfold PyStr.clamp, PyStr.len. change (-1 <? 0) with true. cbv iota. lia. }
  rewrite Hcut.
  assert (Hle : (PyStr.clamp contents stop <= length contents)%nat).
  { unfold PyStr.clamp, PyStr.len. lia. }
  assert (Hend : (length contents - 1 <= PyStr.clamp contents stop)%nat).
  { subst stop.
    destruct (Z.eqb_spec (PyStr.find contents nl (-1)) (-1)) as [_|Hne].
    - rewrite clamp_len. lia.
    - revert Hne. unfold PyStr.find, PyStr.len. change (-1 <? 0) with true.
      cbv iota.
      destruct (Z.ltb_spec (Z.of_nat (length contents))
                  (Z.max (-1 + Z.of_nat (length contents)) 0)) as [_|_]; [done|].
      destruct (PyStr.find_first _ nl) as [i|]; [|done]. intros _.
      rewrite clamp_nonneg by lia. lia. }
  lia.
Qed.

Lemma find_last_line_break (body : pystr) :
  PyStr.find (body ++ nl) nl (-1) = PyStr.len body.
Proof.
  unfold PyStr.find, PyStr.len. change (-1 <? 0) with true. cbv iota.
  rewrite length_app. simpl length.
  replace (Z.max (-1 + Z.of_nat (length body + 1)) 0)
    with (Z.of_nat (length body)) by lia.
  destruct (Z.ltb_spec (Z.of_nat (length body + 1)) (Z.of_nat (length body)));
    [lia|].
  rewrite Nat2Z.id, drop_app_length. simpl. lia.
Qed.

Lemma slice_to_minus_1 (body : pystr) (c : ascii) :
  PyStr.slice_to (body ++ [c]) (-1) = body.
Proof.
  unfold PyStr.slice_to, PyStr.clamp, PyStr.len. change (-1 <? 0) with true.
  cbv iota. rewrite length_app. simpl length.
  replace (Z.to_nat _) with (length body) by lia.
  by rewrite take_app_length.
Qed.

Lemma replace_after_keys_absent (fuel : nat) (body key value : pystr) :
  ~ occurs key (body ++ nl) ->
  (1 <= fuel)%nat ->
  replace_after_keys fuel [(key, value)] (body ++ nl)
  = Some (body ++ value ++ nl).
Proof.
  intros Hno Hfuel. destruct fuel as [|fuel]; [lia|].
  cbn [replace_after_keys]. rewrite replace_after_absent by done.
  rewrite find_last_line_break.
  destruct (Z.eqb_spec (PyStr.len body) (-1)) as [Hbad|_];
    [unfold PyStr.len in Hbad; lia|].
  unfold nl at 1 2. by rewrite slice_to_minus_1, slice_from_app.
Qed.

(** C3. [file_replace_after] on a file whose content ends in a line
    break, for a key that does not occur in it: the content is not left
    as it is; the loop runs its body once, at [pos0 = -1], and the file is
    written back with the value put before its last line break. *)
Theorem file_replace_after_absent_key (fuel : nat) (fs : filesystem)
    (path body key value : pystr) :
  fs !! path = Some (body ++ nl) ->
  ~ occurs key (body ++ nl) ->
  (1 <= fuel)%nat ->
  file_replace_after fuel fs path [(key, value)]
  = Some (Ok tt, <[path := body ++ value ++ nl]> fs).
Proof.
  intros Hfile Hno Hfuel. unfold file_replace_after.
  rewrite Hfile, replace_after_keys_absent by done.
  by destruct body, value.
Qed.

Lemma file_replace_after_absent_key_witness :
  let fs : filesystem := {[ str "config.yml" := str "abc" ++ nl ]} in
  file_replace_after 1 fs (str "config.yml") [(str "k", str "v")]
  = Some (Ok tt, <[str "config.yml" := str "abc" ++ str "v" ++ nl]> fs).
Proof.
  intros fs.
  apply (file_replace_after_absent_key 1 fs (str "config.yml")
           (str "abc") (str "k") (str "v")).
  - vm_compute. reflexivity.
  - apply find_first_None. vm_compute. reflexivity.
  - lia.
Defined.

(** The key ['suffix:'] of a [config.yml]: the line of the key is patched,
    and the value is also put at the end of the last line of the file,
    which holds no key. *)
Example file_replace_after_config (fuel : nat) :
  (2 <= fuel)%nat ->
  file_replace_after fuel {[ str "config.yml" := config_yml ]} (str "config.yml")
                     [(str "suffix:", str " G1234567")]
  = Some (Ok tt,
          {[ str "config.yml" :=
               str "name: Demo" ++ nl ++ str "suffix: G1234567" ++ nl ++
               str "build: out G1234567" ++ nl ]}).
Proof.
  intros Hfuel.
  assert (Hkeys :
            replace_after_keys fuel [(str "suffix:", str " G1234567")] config_yml
            = Some (str "name: Demo" ++ nl ++ str "suffix: G1234567" ++ nl ++
                    str "build: out G1234567" ++ nl)).
  { destruct fuel as [|[|[|fuel]]]; [lia|lia| |]; vm_compute; reflexivity. }
  unfold file_replace_after. rewrite lookup_singleton_eq, Hkeys.
  cbn [PyStr.truthy str list_ascii_of_string app]. by rewrite insert_singleton_eq.
Qed.

(** An occurrence that the search passes over: the first line becomes
    shorter, and the search goes on from where its line break was. *)
Example file_replace_after_skips :
  replace_after_keys 3 [(str "k:", str " x")]
    (str "k: aaaaaaaaaa" ++ nl ++ str "k: b" ++ nl)
  = Some (str "k: x" ++ nl ++ str "k: b x" ++ nl).
Proof. vm_compute. reflexivity. Qed.

(** ** parse_pbxproj *)

Lemma scan_app (st : scan_state) (lines1 lines2 : list pystr) :
  scan st (lines1 ++ lines2) =
  match scan st lines1 with
  | Some st' => scan st' lines2
  | None => None
  end.
Proof.
  revert st; induction lines1 as [|line lines1 IH]; intros st; simpl; [done|].
  destruct (scan_line st line); [apply IH|done].
Qed.

(** The only way for a line to stop the scan. *)
Lemma scan_line_None (st : scan_state) (line : pystr) :
  scan_line st line = None <->
  branch_of st line = Object /\
  brace st + group_parity line "{"%char "}"%char < 0.
Proof.
  unfold scan_line. destruct (branch_of st line); try (split; [done|by intros [? _]]).
  - destruct (_ && _); split; try done; by intros [? _].
  - destruct (Z.ltb_spec (brace st + group_parity line "{"%char "}"%char) 0).
    + split; auto.
    + destruct (_ =? 0); (split; [done|intros [_ ?]; lia]).
Qed.

(** C2. When, at some line of the scan, the braces are counted and the
    running depth falls below zero, [parse_pbxproj] returns [None]: the
    scan stops there and no model, not even a partial one, is returned. *)
Theorem parse_negative_depth_fails (text : pystr) (before after : list pystr)
    (line : pystr) (st : scan_state) :
  PyStr.lines text = before ++ line :: after ->
  scan scan_init before = Some st ->
  branch_of st line = Object ->
  brace st + group_parity line "{"%char "}"%char < 0 ->
  parse_pbxproj text = None.
Proof.
  intros Hlines Hscan Hbranch Hneg. unfold parse_pbxproj.
  rewrite Hlines, scan_app, Hscan. cbn [scan].
  assert (Hstop : scan_line st line = None) by (by apply scan_line_None).
  by rewrite Hstop.
Qed.

(** Nothing else makes the parse fail. *)
Lemma scan_None (lines : list pystr) :
  forall st, scan st lines = None ->
    exists before line after st',
      lines = before ++ line :: after /\
      scan st before = Some st' /\
      branch_of st' line = Object /\
      brace st' + group_parity line "{"%char "}"%char < 0.
Proof.
  induction lines as [|line lines IH]; intros st Hscan; [done|].
  simpl in Hscan. destruct (scan_line st line) as [st1|] eqn:Hline.
  - destruct (IH st1 Hscan) as (before & l & after & st' & -> & Hb & Hbr & Hneg).
    exists (line :: before), l, after, st'. simpl. rewrite Hline. auto.
  - apply scan_line_None in Hline as [Hbr Hneg].
    exists [], line, lines, st. auto.
Qed.

Lemma parse_fails_only_on_negative_depth (text : pystr) :
  parse_pbxproj text = None ->
  exists before line after st,
    PyStr.lines text = before ++ line :: after /\
    scan scan_init before = Some st /\
    branch_of st line = Object /\
    brace st + group_parity line "{"%char "}"%char < 0.
Proof.
  unfold parse_pbxproj. destruct (scan scan_init (PyStr.lines text)) eqn:Hscan;
    [done|]. intros _. by apply scan_None.
Qed.

Lemma parse_negative_depth_fails_witness :
  parse_pbxproj unbalanced_project = None.
Proof.
  eapply (parse_negative_depth_fails unbalanced_project
            (map (fun l => str l ++ nl)
               ["// !$*UTF8*$!"; "{"; "/* Begin PBXBuildFile section */"]%string)
            [str "/* End PBXBuildFile section */" ++ nl]
            (str "    AB01 /* main.cpp in Sources */ = isa = PBXBuildFile; };"
             ++ nl)).
  - vm_compute. reflexivity.
  - vm_compute. reflexivity.
  - vm_compute. reflexivity.
  - vm_compute. reflexivity.
Defined.

(** ** The round trip through write_pbxproj *)

(** The sample project is parsed, written and parsed again.  The text
    that is written is not the text that was read, and the second model is
    not the first: all sections before the footer are the same, but the
    footer has gained a line break at its start. *)
Example roundtrip_sample_footer_grows :
  exists (m m' sections : pbxproj) (text' : pystr),
    parse_pbxproj sample_project = Some m /\
    write_pbxproj m = Ok text' /\
    parse_pbxproj text' = Some m' /\
    m = sections ++ [(str "PBXFooter", [Some (concat (footer sample))])] /\
    m' = sections ++ [(str "PBXFooter", [Some (nl ++ concat (footer sample))])] /\
    m' <> m /\
    text' <> sample_project.
Proof.
  eexists _, _, _, _.
  split; [vm_compute; reflexivity|].
  split; [vm_compute; reflexivity|].
  split; [vm_compute; reflexivity|].
  split; [rewrite <- (firstn_skipn 13) at 1; cbn [take drop]; reflexivity|].
  split; [vm_compute; reflexivity|].
  split.
  - intros Heq. apply (f_equal (fun m => last m)) in Heq.
    vm_compute in Heq. discriminate.
  - intros Heq. apply (f_equal (@length ascii)) in Heq.
    vm_compute in Heq. discriminate.
Qed.

(** *** Lines of a text *)

Lemma lines_aux_concat (s cur : pystr) :
  concat (PyStr.lines_aux cur s) = rev cur ++ s.
Proof.
  revert cur; induction s as [|c s IH]; intros cur; simpl.
  - destruct cur; simpl; by rewrite ?app_nil_r.
  - destruct (Ascii.eqb c "010"%char); simpl; rewrite IH; simpl;
      by rewrite <- ?app_assoc.
Qed.

Lemma lines_concat (text : pystr) : concat (PyStr.lines text) = text.
Proof. apply (lines_aux_concat text []). Qed.

Lemma not_elem_of_rev (c : ascii) (l : pystr) : c ∉ l -> c ∉ rev l.
Proof.
  intros Hc Hin. apply Hc. apply list_elem_of_In, in_rev.
  by apply list_elem_of_In.
Qed.

(** A line that is not the last one ends in its only line break. *)
Lemma lines_aux_complete (s : pystr) :
  forall (cur : pystr) (pre post : list pystr) (line : pystr),
    "010"%char ∉ cur ->
    PyStr.lines_aux cur s = pre ++ line :: post ->
    post <> [] ->
    exists t, line = t ++ nl /\ "010"%char ∉ t.
Proof.
  induction s as [|c s IH]; intros cur pre post line Hcur Hsplit Hpost.
  - simpl in Hsplit. exfalso.
    apply (f_equal (@length pystr)) in Hsplit.
    rewrite length_app in Hsplit. simpl in Hsplit.
    destruct post; [done|]. destruct cur; simpl in Hsplit; lia.
  - simpl in Hsplit. destruct (Ascii.eqb c "010"%char) eqn:Hc.
    + apply Ascii.eqb_eq in Hc as ->. destruct pre as [|l0 pre].
      * simpl in Hsplit. injection Hsplit as <- _.
        exists (rev cur). simpl. split; [done|].
        by apply not_elem_of_rev.
      * simpl in Hsplit. injection Hsplit as _ Hsplit.
        by apply (IH [] pre post line); [apply not_elem_of_nil| |].
    + apply Ascii.eqb_neq in Hc.
      apply (IH (c :: cur) pre post line); [|done|done].
      apply not_elem_of_cons. split; [congruence|done].
Qed.

Lemma lines_complete (text : pystr) (pre post : list pystr) (line : pystr) :
  PyStr.lines text = pre ++ line :: post -> post <> [] ->
  exists t, line = t ++ nl /\ "010"%char ∉ t.
Proof. apply lines_aux_complete, not_elem_of_nil. Qed.

(** *** The scan in the footer *)

Lemma state_of_footer (st : scan_state) :
  state_of st = str "PBXFooter" <-> index st = 13%nat.
Proof.
  unfold state_of. split; [|by intros ->].
  destruct (index st) as [|i]; [discriminate|].
  do 12 (destruct i as [|i]; [discriminate|]).
  destruct i as [|i]; [done|].
  intros Hnth. exfalso. revert Hnth. simpl. by destruct i.
Qed.

Lemma branch_of_footer (st : scan_state) (line : pystr) :
  index st = 13%nat -> branch_of st line = Verbatim.
Proof.
  intros Hi. unfold branch_of, state_of. rewrite Hi.
  change (nth 13 PBX_SEQUENCE []) with (str "PBXFooter").
  change (PyStr.eqb (str "PBXFooter") (str "PBXFooter")) with true.
  change (13 =? length PBX_SEQUENCE - 2)%nat with false.
  change (is_edge (str "PBXFooter")) with true.
  cbn [negb orb]. by rewrite andb_false_r.
Qed.

Lemma branch_of_advance_12 (st : scan_state) (line : pystr) :
  index st = 12%nat -> branch_of st line = Advance ->
  enters_footer line = true.
Proof.
  intros Hi. unfold branch_of, state_of, enters_footer. rewrite Hi.
  change (nth (12 + 1) PBX_SEQUENCE []) with (str "PBXFooter").
  change (nth 12 PBX_SEQUENCE []) with (str "XCConfigurationList").
  change (PyStr.eqb (str "XCConfigurationList") (str "PBXFooter")) with false.
  change (12 =? length PBX_SEQUENCE - 2)%nat with true.
  change (is_edge (str "XCConfigurationList")) with false.
  cbn [negb]. rewrite andb_true_r.
  destruct (_ || _); [done|]. cbv iota.
  by destruct (PyStr.contains line _); [|destruct (negb _)].
Qed.

(** A line either moves the scan to the next section or leaves the
    section as it is. *)
Lemma scan_line_index (st st' : scan_state) (line : pystr) :
  scan_line st line = Some st' ->
  (branch_of st line = Advance /\ index st' = (index st + 1)%nat /\
   block st' = [] /\ accum st' = None /\
   contents st' = contents st ++
     [(state_of st,
       if PyStr.truthy_opt (accum st) then block st ++ [accum st]
       else block st)]) \/
  (branch_of st line <> Advance /\ index st' = index st /\
   contents st' = contents st).
Proof.
  unfold scan_line. destruct (branch_of st line) eqn:Hb.
  - intros [= <-]. left. by repeat split.
  - intros [= <-]. right. by repeat split.
  - destruct (_ && _); intros [= <-]; right; by repeat split.
  - destruct (_ <? 0); [done|].
    destruct (_ =? 0); intros [= <-]; right; by repeat split.
  - intros [= <-]. right. by repeat split.
Qed.

Lemma accum_of_snoc (post : list pystr) (line : pystr) :
  accumulate (accum_of post) line = accum_of (post ++ [line]).
Proof.
  destruct post as [|l post]; simpl.
  - by rewrite app_nil_r.
  - destruct (post ++ [line]) eqn:Hp; [by destruct post|].
    rewrite <- Hp. by rewrite concat_app, app_assoc; simpl; rewrite app_nil_r.
Qed.

(** In the footer, [accum] is the text of all lines behind the line that
    opened it, and the list of objects is empty. *)
Lemma scan_footer (lines : list pystr) :
  forall st, scan scan_init lines = Some st -> index st = 13%nat ->
    exists pre trigger post,
      lines = pre ++ trigger :: post /\
      enters_footer trigger = true /\
      block st = [] /\
      accum st = accum_of post.
Proof.
  induction lines as [|line lines IH] using rev_ind; intros st Hscan Hi.
  - simpl in Hscan. injection Hscan as <-. discriminate.
  - rewrite scan_app in Hscan.
    destruct (scan scan_init lines) as [st0|] eqn:Hscan0; [|done].
    simpl in Hscan. destruct (scan_line st0 line) as [st1|] eqn:Hline; [|done].
    injection Hscan as ->.
    destruct (scan_line_index _ _ _ Hline)
      as [(Hb & Hidx & Hblock & Haccum & _)|(Hb & Hidx & _)].
    + exists lines, line, []. repeat split; auto.
      apply (branch_of_advance_12 st0); [lia|done].
    + rewrite Hi in Hidx. symmetry in Hidx.
      destruct (IH st0 eq_refl Hidx) as (pre & trigger & post & -> & Ht & Hbl & Hac).
      exists pre, trigger, (post ++ [line]).
      rewrite <- app_assoc. split; [done|]. split; [done|].
      unfold scan_line in Hline. rewrite (branch_of_footer _ _ Hidx) in Hline.
      injection Hline as <-. simpl. split; [done|].
      rewrite Hac. apply accum_of_snoc.
Qed.

(** The sections that are complete are the first ones of the sequence. *)
Lemma scan_contents (lines : list pystr) :
  forall st, scan scan_init lines = Some st ->
    (index st <= 13)%nat /\
    map fst (contents st) = take (index st) PBX_SEQUENCE.
Proof.
  induction lines as [|line lines IH] using rev_ind; intros st Hscan.
  - simpl in Hscan. injection Hscan as <-. simpl. split; [lia|done].
  - rewrite scan_app in Hscan.
    destruct (scan scan_init lines) as [st0|] eqn:Hscan0; [|done].
    simpl in Hscan. destruct (scan_line st0 line) as [st1|] eqn:Hline; [|done].
    injection Hscan as ->.
    destruct (IH st0 eq_refl) as [Hle Hnames].
    destruct (scan_line_index _ _ _ Hline)
      as [(Hb & Hidx & _ & _ & Hcont)|(Hb & Hidx & Hcont)].
    + assert (Hlt : (index st0 < 13)%nat).
      { destruct (decide (index st0 = 13%nat)) as [H13|]; [|lia].
        rewrite (branch_of_footer _ _ H13) in Hb. discriminate. }
      split; [lia|]. rewrite Hcont, Hidx, map_app, Hnames. simpl.
      rewrite Nat.add_1_r.
      assert (Hlen : (index st0 < length PBX_SEQUENCE)%nat) by (simpl; lia).
      rewrite (take_S_r PBX_SEQUENCE (index st0) (state_of st0)); [done|].
      unfold state_of. apply lookup_lt_is_Some in Hlen as [x Hx].
      by rewrite nth_lookup, Hx.
    + rewrite Hcont, Hidx. by split.
Qed.

(** *** What write_pbxproj writes *)

Lemma write_pbxproj_app (a b : pbxproj) :
  write_pbxproj (a ++ b) =
  do x <- write_pbxproj a; do y <- write_pbxproj b; Ok (x ++ y).
Proof.
  induction a as [|section a IH]; simpl.
  - by destruct (write_pbxproj b).
  - destruct (write_section section) as [text|]; [|done]. simpl.
    rewrite IH. destruct (write_pbxproj a) as [x|]; [|done]. simpl.
    destruct (write_pbxproj b) as [y|]; [|done]. simpl.
    by rewrite app_assoc.
Qed.

(** The text of a model that ends in the last section and the footer:
    the footer comes behind the blank line that follows the end banner. *)
Lemma write_pbxproj_footer (sections : pbxproj) (items : list (option pystr))
    (last : option pystr) (text : pystr) :
  write_pbxproj (sections ++ [(str "XCConfigurationList", items)] ++
                 [(str "PBXFooter", [last])]) = Ok text ->
  exists before footer,
    last = Some footer /\ text = before ++ nl ++ nl ++ footer.
Proof.
  rewrite !write_pbxproj_app.
  destruct (write_pbxproj sections) as [x|]; [|done]. cbn [bind].
  cbn [write_pbxproj write_section].
  destruct (write_items items) as [body|]; [|done]. cbn [bind].
  change (is_edge (str "XCConfigurationList")) with false.
  change (is_edge (str "PBXFooter")) with true. cbn [negb bind].
  destruct last as [footer|]; [|done]. cbn [write_items bind].
  intros [= <-].
  exists (x ++ begin_banner (str "XCConfigurationList") ++ nl ++ body ++
          end_banner (str "XCConfigurationList")), footer.
  split; [done|]. rewrite !app_nil_r. by rewrite <- !app_assoc.
Qed.

(** The blank line is not a line that opens the footer. *)
Lemma blank_line_keeps_section : enters_footer nl = false.
Proof. vm_compute. reflexivity. Qed.

Lemma scan_result_footer (st : scan_state) (sections : pbxproj)
    (items : list (option pystr)) :
  scan_result st = sections ++ [(str "PBXFooter", items)] ->
  index st = 13%nat /\ contents st = sections /\
  items = block st ++ [accum st].
Proof.
  unfold scan_result. intros Heq. apply app_inj_tail in Heq as [Hc Hlast].
  injection Hlast as Hstate <-. by apply state_of_footer in Hstate.
Qed.

(** C1. Whatever text is parsed: when the parse has come to the footer
    and the model is written, parsing the written text does not give the
    model back.  The footer of the written text stands behind the blank
    line that [write_pbxproj] puts after the end banner of the last
    section, and [parse_pbxproj] takes that blank line into the footer. *)
Theorem roundtrip_changes_footer (text text' : pystr) (m : pbxproj) :
  parse_pbxproj text = Some m ->
  has_footer m ->
  write_pbxproj m = Ok text' ->
  parse_pbxproj text' <> Some m.
Proof.
  unfold parse_pbxproj. intros Hparse (sections & items & Hm) Hwrite Hparse'.
  destruct (scan scan_init (PyStr.lines text)) as [st|] eqn:Hscan; [|done].
  injection Hparse as Hres.
  destruct (scan scan_init (PyStr.lines text')) as [st'|] eqn:Hscan'; [|done].
  injection Hparse' as Hres'.
  (* the first model: the last section and the footer *)
  rewrite Hm in Hres. apply scan_result_footer in Hres as (Hi & Hc & Hitems).
  destruct (scan_footer _ _ Hscan Hi) as (_ & _ & _ & _ & _ & Hblock & _).
  destruct (scan_contents _ _ Hscan) as [_ Hnames].
  rewrite Hi, Hc in Hnames.
  destruct sections as [|s0 sections _] using rev_ind; [done|].
  rewrite map_app in Hnames.
  change (take 13 PBX_SEQUENCE)
    with (take 12 PBX_SEQUENCE ++ [str "XCConfigurationList"]) in Hnames.
  apply app_inj_tail in Hnames as [_ Hname]. destruct s0 as [name items12].
  simpl in Hname. subst name.
  rewrite Hblock in Hitems. simpl in Hitems.
  rewrite Hm, Hitems, <- app_assoc in Hwrite.
  apply write_pbxproj_footer in Hwrite as (before & footer & Hfooter & Htext).
  (* the second scan ends in the same footer *)
  rewrite Hm, Hitems, Hfooter in Hres'.
  apply scan_result_footer in Hres' as (Hi' & _ & Hitems').
  destruct (scan_footer _ _ Hscan' Hi')
    as (pre & trigger & post & Hlines & Htrigger & Hblock' & Haccum').
  rewrite Hblock' in Hitems'. injection Hitems' as Hacc. rewrite Haccum' in Hacc.
  destruct post as [|p post]; [done|].
  injection Hacc as Hpost.
  destruct (lines_complete _ _ _ _ Hlines) as (t & -> & Ht); [done|].
  pose proof (lines_concat text') as Hcat.
  rewrite Hlines, concat_app in Hcat. cbn [concat] in Hcat.
  rewrite <- Hpost, Htext in Hcat.
  (* the line before the footer is the blank line *)
  rewrite !app_assoc in Hcat. apply app_inv_tail in Hcat.
  unfold nl in Hcat. apply app_inj_tail in Hcat as [Hcat _].
  destruct t as [|c t _] using rev_ind.
  - cbn [app] in Htrigger. by rewrite blank_line_keeps_section in Htrigger.
  - rewrite !app_assoc in Hcat. apply app_inj_tail in Hcat as [_ ->].
    apply Ht. apply elem_of_app. right. by apply list_elem_of_singleton.
Qed.

Lemma roundtrip_changes_footer_witness :
  exists (m : pbxproj) (text' : pystr),
    parse_pbxproj sample_project = Some m /\
    write_pbxproj m = Ok text' /\
    parse_pbxproj text' <> Some m.
Proof.
  eexists _, _.
  split; [vm_compute; reflexivity|].
  split; [vm_compute; reflexivity|].
  eapply (roundtrip_changes_footer sample_project).
  - vm_compute. reflexivity.
  - eexists _, _. rewrite <- (firstn_skipn 13) at 1. cbn [take drop]. reflexivity.
  - vm_compute. reflexivity.
Defined.

(** ** Well-formed project files *)

Lemma lines_aux_line (t rest cur : pystr) :
  "010"%char ∉ t ->
  PyStr.lines_aux cur (t ++ nl ++ rest) =
  (rev cur ++ t ++ nl) :: PyStr.lines_aux [] rest.
Proof.
  revert cur; induction t as [|c t IH]; intros cur Ht.
  - reflexivity.
  - apply not_elem_of_cons in Ht as [Hc Ht].
    change ((c :: t) ++ nl ++ rest) with (c :: (t ++ nl ++ rest)).
    cbn [PyStr.lines_aux].
    replace (Ascii.eqb c "010"%char) with false
      by (symmetry; apply Ascii.eqb_neq; congruence).
    rewrite IH by done. simpl. by rewrite <- app_assoc.
Qed.

(** A text made of lines is read back as these lines. *)
Lemma lines_of_concat (lines : list pystr) :
  Forall is_line lines -> PyStr.lines (concat lines) = lines.
Proof.
  induction 1 as [|line lines (t & -> & Ht) _ IH]; [reflexivity|].
  unfold PyStr.lines in *. cbn [concat]. rewrite <- app_assoc.
  rewrite lines_aux_line by done. by rewrite IH.
Qed.

Lemma is_line_nonempty (line : pystr) : is_line line -> line <> [].
Proof. intros (t & -> & _). by destruct t. Qed.

Lemma fold_accumulate_some (lines : list pystr) (a : pystr) :
  fold_left accumulate lines (Some a) = Some (a ++ concat lines).
Proof.
  revert a; induction lines as [|line lines IH]; intros a; simpl.
  - by rewrite app_nil_r.
  - by rewrite IH, app_assoc.
Qed.

Lemma fold_accumulate_none (lines : list pystr) :
  fold_left accumulate lines None = accum_of lines.
Proof.
  destruct lines as [|line lines]; [reflexivity|].
  simpl. by rewrite fold_accumulate_some.
Qed.

(** *** The names of the sections *)

Lemma content_section (i : nat) :
  (1 <= i <= 12)%nat ->
  is_edge (nth i PBX_SEQUENCE []) = false /\
  PyStr.eqb (nth i PBX_SEQUENCE []) (str "PBXFooter") = false /\
  PyStr.contains (end_banner (nth i PBX_SEQUENCE []) ++ nl)
                 (begin_banner (nth (i + 1) PBX_SEQUENCE [])) = false.
Proof.
  intros Hi. destruct i as [|i]; [lia|].
  do 12 (destruct i as [|i]; [by vm_compute|]). lia.
Qed.

Lemma header_section :
  is_edge (nth 0 PBX_SEQUENCE []) = true /\
  PyStr.eqb (nth 0 PBX_SEQUENCE []) (str "PBXFooter") = false.
Proof. by vm_compute. Qed.

Lemma section_name_line (i : nat) : "010"%char ∉ nth i PBX_SEQUENCE [].
Proof.
  do 14 (destruct i as [|i];
         [refine (bool_decide_unpack _ _); vm_compute; exact I|]).
  simpl. destruct i; apply not_elem_of_nil.
Qed.

Lemma contains_self (s t : pystr) : PyStr.contains (s ++ t) s = true.
Proof. apply contains_occurs. exists [], t. reflexivity. Qed.

Lemma blank_plain (i : nat) : plain_line i nl.
Proof. split; reflexivity. Qed.

Lemma banner_lines (i : nat) :
  is_line (begin_banner (nth i PBX_SEQUENCE []) ++ nl) /\
  is_line (end_banner (nth i PBX_SEQUENCE []) ++ nl).
Proof.
  pose proof (section_name_line i) as Hname.
  split; eexists; (split; [reflexivity|]);
    unfold begin_banner, end_banner; rewrite !not_elem_of_app;
    (split; [|split; [done|]]);
    refine (bool_decide_unpack _ _); vm_compute; exact I.
Qed.

(** *** The scan of a well-formed file *)

Lemma branch_of_plain (st : scan_state) (line : pystr) (i : nat) :
  index st = i -> (1 <= i <= 12)%nat -> between st = false ->
  plain_line i line ->
  branch_of st line = Object.
Proof.
  intros Hi Hrange Hbetween [Hbegin Hend].
  destruct (content_section i Hrange) as (Hedge & Hfooter & _).
  unfold branch_of, state_of. rewrite Hi, Hbegin, Hend, Hedge, Hbetween.
  by destruct (negb _).
Qed.

Lemma branch_of_header (st : scan_state) (line : pystr) :
  index st = 0%nat -> plain_line 0 line -> branch_of st line = Verbatim.
Proof.
  intros Hi [Hbegin Hend].
  destruct header_section as [Hedge Hfooter].
  unfold branch_of, state_of. rewrite Hi, Hbegin, Hend, Hedge.
  by destruct (negb _).
Qed.

Lemma branch_of_begin (st : scan_state) (i : nat) :
  index st = i -> (i <= 11)%nat ->
  branch_of st (begin_banner (nth (i + 1) PBX_SEQUENCE []) ++ nl) = Advance.
Proof.
  intros Hi Hrange.
  assert (Hfooter : PyStr.eqb (nth i PBX_SEQUENCE []) (str "PBXFooter") = false).
  { destruct i as [|i]; [apply header_section|].
    apply content_section. lia. }
  unfold branch_of, state_of. by rewrite Hi, Hfooter, contains_self.
Qed.

(** The lines of an object are gathered in [accum] and, with the last
    one, put into the list of the section. *)
Lemma scan_object_from (i : nat) (C : pbxproj) (lines : list pystr) (d : Z) :
  (1 <= i <= 12)%nat ->
  object_lines d lines ->
  forall (B : list (option pystr)) (a : option pystr),
    Forall (plain_line i) lines ->
    fold_left accumulate lines a <> Some nl ->
    scan (mkScan i B a d C false) lines
    = Some (mkScan i (B ++ [fold_left accumulate lines a]) None 0 C false).
Proof.
  intros Hrange. induction 1 as [d line Hzero|d line lines Hpos _ IH];
    intros B a Hplain Hacc.
  - apply Forall_cons in Hplain as [Hline _]. cbn [scan fold_left] in *.
    unfold scan_line.
    rewrite (branch_of_plain (mkScan i B a d C false) line i
               eq_refl Hrange eq_refl Hline).
    cbn [brace accum block index contents between]. rewrite Hzero.
    change (0 <? 0) with false. change (0 =? 0) with true. cbv iota.
    by rewrite bool_decide_eq_false_2.
  - apply Forall_cons in Hplain as [Hline Hplain]. cbn [scan fold_left] in *.
    unfold scan_line.
    rewrite (branch_of_plain (mkScan i B a d C false) line i
               eq_refl Hrange eq_refl Hline).
    cbn [brace accum block index contents between].
    destruct (Z.ltb_spec (d + group_parity line "{"%char "}"%char) 0); [lia|].
    destruct (Z.eqb_spec (d + group_parity line "{"%char "}"%char) 0); [lia|].
    by apply IH.
Qed.

Lemma object_lines_nonempty (d : Z) (lines : list pystr) :
  object_lines d lines -> lines <> [].
Proof. by destruct 1. Qed.

Lemma scan_objects (i : nat) (C : pbxproj) (objs : list (list pystr)) :
  (1 <= i <= 12)%nat ->
  Forall (is_object i) objs ->
  forall B : list (option pystr),
    scan (mkScan i B None 0 C false) (concat objs)
    = Some (mkScan i (B ++ map (fun lines => Some (concat lines)) objs)
                   None 0 C false).
Proof.
  intros Hrange. induction 1 as [|obj objs (Hobj & Hplain & Hne) _ IH]; intros B.
  - simpl. by rewrite app_nil_r.
  - cbn [concat map]. rewrite scan_app.
    assert (Hacc : fold_left accumulate obj None = Some (concat obj)).
    { rewrite fold_accumulate_none. apply object_lines_nonempty in Hobj.
      by destruct obj. }
    rewrite (scan_object_from i C obj 0 Hrange Hobj B None Hplain)
      by (rewrite Hacc; congruence).
    rewrite Hacc, IH. by rewrite <- app_assoc.
Qed.

Lemma scan_blank (i : nat) (B : list (option pystr)) (C : pbxproj) :
  (1 <= i <= 12)%nat ->
  scan_line (mkScan i B None 0 C false) nl = Some (mkScan i B None 0 C false).
Proof.
  intros Hrange. unfold scan_line.
  by rewrite (branch_of_plain (mkScan i B None 0 C false) nl i
                eq_refl Hrange eq_refl (blank_plain i)).
Qed.

Lemma scan_begin (i : nat) (B : list (option pystr)) (a : option pystr)
    (d : Z) (C : pbxproj) (b : bool) :
  (i <= 11)%nat ->
  scan_line (mkScan i B a d C b)
            (begin_banner (nth (i + 1) PBX_SEQUENCE []) ++ nl)
  = Some (mkScan (i + 1) [] None 0
            (C ++ [(nth i PBX_SEQUENCE [],
                    if PyStr.truthy_opt a then B ++ [a] else B)])
            false).
Proof.
  intros Hrange. unfold scan_line.
  by rewrite (branch_of_begin (mkScan i B a d C b) i eq_refl Hrange).
Qed.

Lemma scan_end (i : nat) (B : list (option pystr)) (C : pbxproj) :
  (1 <= i <= 11)%nat ->
  scan_line (mkScan i B None 0 C false)
            (end_banner (nth i PBX_SEQUENCE []) ++ nl)
  = Some (mkScan i B None 0 C false).
Proof.
  intros Hrange.
  destruct (content_section i) as (Hedge & Hfooter & Hnext); [lia|].
  unfold scan_line, branch_of, state_of. cbn [index between accum].
  rewrite Hfooter, Hnext, Hedge, contains_self. cbn [negb orb].
  replace (i =? length PBX_SEQUENCE - 2)%nat with false
    by (symmetry; apply Nat.eqb_neq; simpl; lia).
  reflexivity.
Qed.

Lemma scan_end_last (B : list (option pystr)) (C : pbxproj) :
  scan_line (mkScan 12 B None 0 C false)
            (end_banner (nth 12 PBX_SEQUENCE []) ++ nl)
  = Some (mkScan 13 [] None 0 (C ++ [(nth 12 PBX_SEQUENCE [], B)]) false).
Proof.
  destruct (content_section 12) as (Hedge & Hfooter & Hnext); [lia|].
  unfold scan_line, branch_of, state_of. cbn [index between accum].
  by rewrite Hfooter, Hnext, contains_self.
Qed.

Lemma scan_header (lines : list pystr) :
  Forall (plain_line 0) lines ->
  forall a : option pystr,
    scan (mkScan 0 [] a 0 [] false) lines
    = Some (mkScan 0 [] (fold_left accumulate lines a) 0 [] false).
Proof.
  induction 1 as [|line lines Hline _ IH]; intros a; [reflexivity|].
  cbn [scan fold_left]. unfold scan_line.
  rewrite (branch_of_header (mkScan 0 [] a 0 [] false) line eq_refl Hline).
  apply IH.
Qed.

Lemma scan_footer_lines (lines : list pystr) :
  forall (B : list (option pystr)) (a : option pystr) (d : Z) (C : pbxproj)
         (b : bool),
    scan (mkScan 13 B a d C b) lines
    = Some (mkScan 13 B (fold_left accumulate lines a) d C b).
Proof.
  induction lines as [|line lines IH]; intros B a d C b; [reflexivity|].
  cbn [scan fold_left]. unfold scan_line.
  rewrite (branch_of_footer (mkScan 13 B a d C b) line eq_refl). apply IH.
Qed.

(** From the state in which section [i - 1] ends, the lines of the
    sections from [i] to the last one bring the scan to the footer, with
    every section in [contents]. *)
Lemma scan_sections (objss : list (list (list pystr))) :
  forall (i : nat) (B : list (option pystr)) (a : option pystr) (d : Z)
         (C : pbxproj) (b : bool),
    (1 <= i)%nat -> (i + length objss = 13)%nat -> objss <> [] ->
    sections_ok i objss ->
    scan (mkScan (i - 1) B a d C b) (sections_lines i objss)
    = Some (mkScan 13 [] None 0
              (C ++ [(nth (i - 1) PBX_SEQUENCE [],
                      if PyStr.truthy_opt a then B ++ [a] else B)]
                 ++ sections_model i objss)
              false).
Proof.
  induction objss as [|objs objss IH]; intros i B a d C b Hi Hlen Hne Hok.
  - done.
  - destruct Hok as [Hobjs Hok]. simpl in Hlen.
    assert (Hbegin :
              scan_line (mkScan (i - 1) B a d C b)
                        (begin_banner (nth i PBX_SEQUENCE []) ++ nl)
              = Some (mkScan i [] None 0
                        (C ++ [(nth (i - 1) PBX_SEQUENCE [],
                                if PyStr.truthy_opt a then B ++ [a] else B)])
                        false)).
    { pose proof (scan_begin (i - 1) B a d C b) as Hb.
      replace (i - 1 + 1)%nat with i in Hb by lia. apply Hb. lia. }
    destruct objss as [|objs' objss].
    + (* the last section *)
      assert (i = 12%nat) as -> by (simpl in Hlen; lia).
      cbn [sections_lines sections_model]. unfold section_lines.
      cbn [app scan]. rewrite Hbegin, scan_app.
      rewrite scan_objects by (done || lia).
      cbn [scan app]. rewrite scan_end_last. by rewrite <- app_assoc.
    + change (sections_lines i (objs :: objs' :: objss))
        with (section_lines i objs ++ [nl] ++
              sections_lines (S i) (objs' :: objss)).
      unfold section_lines. cbn [app scan]. rewrite Hbegin.
      rewrite !scan_app, scan_objects by (done || simpl in Hlen; lia).
      cbn [scan app].
      rewrite scan_end by (simpl in Hlen; lia).
      rewrite scan_blank by (simpl in Hlen; lia).
      pose proof (IH (S i) (map (fun lines => Some (concat lines)) objs)
                     None 0
                     (C ++ [(nth (i - 1) PBX_SEQUENCE [],
                             if PyStr.truthy_opt a then B ++ [a] else B)])
                     false) as Hrest.
      replace (S i - 1)%nat with i in Hrest by lia.
      rewrite Hrest by (done || simpl in Hlen |- *; lia).
      cbn [PyStr.truthy_opt sections_model app].
      by rewrite <- !app_assoc.
Qed.

Lemma sections_lines_are_lines (objss : list (list (list pystr))) :
  forall i, Forall (Forall (Forall is_line)) objss ->
            Forall is_line (sections_lines i objss).
Proof.
  induction objss as [|objs objss IH]; intros i Hall; [constructor|].
  apply Forall_cons in Hall as [Hobjs Hall].
  assert (Hsection : Forall is_line (section_lines i objs)).
  { unfold section_lines. rewrite !Forall_app. split; [|split].
    - repeat constructor. apply banner_lines.
    - by apply Forall_concat.
    - repeat constructor. apply banner_lines. }
  destruct objss as [|objs' objss]; [exact Hsection|].
  change (sections_lines i (objs :: objs' :: objss))
    with (section_lines i objs ++ [nl] ++
          sections_lines (S i) (objs' :: objss)).
  rewrite !Forall_app. split; [done|]. split; [|by apply IH].
  repeat constructor. exists []. split; [done|apply not_elem_of_nil].
Qed.

(** [parse_pbxproj] on the lines of a well-formed project. *)
Lemma scan_project (p : project) :
  well_formed p ->
  scan scan_init (project_lines p)
  = Some (mkScan 13 [] (Some (concat (footer p))) 0
            ([(str "PBXHeader", [Some (concat (header p))])] ++
             sections_model 1 (objects p))
            false).
Proof.
  intros (Hh & Hf & Hhl & Hfl & Hol & Hhp & Hlen & Hok).
  unfold project_lines. rewrite scan_app.
  change scan_init with (mkScan 0 [] None 0 [] false).
  rewrite scan_header by done. cbv beta iota.
  rewrite scan_app, fold_accumulate_none.
  pose proof (scan_sections (objects p) 1 [] (accum_of (header p)) 0 [] false)
    as Hsec.
  change (1 - 1)%nat with 0%nat in Hsec.
  rewrite Hsec by (done || lia || by destruct (objects p)).
  cbv beta iota. rewrite scan_footer_lines, fold_accumulate_none.
  destruct (header p) as [|h hs] eqn:Hheader; [done|].
  destruct (footer p) as [|f fs] eqn:Hfooter; [done|].
  cbn [accum_of PyStr.truthy_opt].
  apply Forall_cons in Hhl as [Hh1 _]. apply is_line_nonempty in Hh1.
  replace (PyStr.truthy (concat (h :: hs))) with true; [reflexivity|].
  simpl. by destruct h.
Qed.

Lemma project_lines_are_lines (p : project) :
  well_formed p -> Forall is_line (project_lines p).
Proof.
  intros (Hh & Hf & Hhl & Hfl & Hol & Hhp & Hlen & Hok).
  unfold project_lines. rewrite !Forall_app.
  split; [done|]. split; [|done]. by apply sections_lines_are_lines.
Qed.

Lemma parse_project (p : project) :
  well_formed p -> parse_pbxproj (project_text p) = Some (project_model p).
Proof.
  intros Hwf. unfold parse_pbxproj, project_text.
  rewrite lines_of_concat by (by apply project_lines_are_lines).
  rewrite scan_project by done. unfold scan_result, project_model.
  cbn [contents state_of index block accum].
  by rewrite <- !app_assoc.
Qed.

(** *** Writing the model of a well-formed file *)

Lemma write_items_objects (objs : list (list pystr)) :
  write_items (map (fun lines => Some (concat lines)) objs)
  = Ok (concat (concat objs)).
Proof.
  induction objs as [|obj objs IH]; [reflexivity|].
  cbn [map write_items concat]. rewrite IH. cbn [bind].
  by rewrite concat_app.
Qed.

Lemma write_section_objects (i : nat) (objs : list (list pystr)) :
  (1 <= i <= 12)%nat ->
  write_section (nth i PBX_SEQUENCE [],
                 map (fun lines => Some (concat lines)) objs)
  = Ok (concat (section_lines i objs) ++ nl).
Proof.
  intros Hrange. destruct (content_section i Hrange) as (Hedge & _ & _).
  unfold write_section. rewrite write_items_objects, Hedge. cbn [bind negb].
  unfold section_lines. rewrite !concat_app. cbn [concat].
  by rewrite !app_nil_r, <- !app_assoc.
Qed.

Lemma write_sections (objss : list (list (list pystr))) :
  forall i, (1 <= i)%nat -> (i + length objss <= 13)%nat -> objss <> [] ->
    write_pbxproj (sections_model i objss)
    = Ok (concat (sections_lines i objss) ++ nl).
Proof.
  induction objss as [|objs objss IH]; intros i Hi Hlen Hne; [done|].
  simpl in Hlen. cbn [sections_model write_pbxproj].
  rewrite write_section_objects by lia. cbn [bind].
  destruct objss as [|objs' objss].
  - cbn [sections_model write_pbxproj sections_lines bind].
    by rewrite app_nil_r.
  - rewrite IH by (done || simpl in Hlen |- *; lia). cbn [bind].
    change (sections_lines i (objs :: objs' :: objss))
      with (section_lines i objs ++ [nl] ++
            sections_lines (S i) (objs' :: objss)).
    rewrite !concat_app. cbn [concat].
    by rewrite !app_nil_r, <- !app_assoc.
Qed.

(** [write_pbxproj] writes the model of a well-formed project as the
    text of the project with one more blank line, before the footer. *)
Lemma write_project (p : project) :
  well_formed p ->
  write_pbxproj (project_model p) = Ok (project_text (with_blank_line p)).
Proof.
  intros (Hh & Hf & Hhl & Hfl & Hol & Hhp & Hlen & Hok).
  unfold project_model. rewrite !write_pbxproj_app.
  rewrite write_sections by (done || lia || by destruct (objects p)).
  cbn [write_pbxproj write_section write_items bind].
  change (is_edge (str "PBXHeader")) with true.
  change (is_edge (str "PBXFooter")) with true. cbn [negb bind].
  unfold project_text, project_lines, with_blank_line.
  cbn [header objects footer]. rewrite !concat_app. cbn [concat].
  by rewrite !app_nil_r, <- !app_assoc.
Qed.

Lemma with_blank_line_well_formed (p : project) :
  well_formed p -> well_formed (with_blank_line p).
Proof.
  intros (Hh & Hf & Hhl & Hfl & Hol & Hhp & Hlen & Hok).
  unfold well_formed, with_blank_line. cbn [header objects footer].
  repeat split; try done.
  constructor; [|done]. exists []. split; [done|apply not_elem_of_nil].
Qed.

(** The round trip of a well-formed project file: it is parsed into its
    model; writing the model gives the text with one more blank line,
    before the footer; and parsing that text gives the model again but
    for the footer, which begins with the blank line. *)
Theorem roundtrip_up_to_footer (p : project) :
  well_formed p ->
  parse_pbxproj (project_text p) = Some (project_model p) /\
  write_pbxproj (project_model p) = Ok (project_text (with_blank_line p)) /\
  parse_pbxproj (project_text (with_blank_line p))
  = Some ([(str "PBXHeader", [Some (concat (header p))])] ++
          sections_model 1 (objects p) ++
          [(str "PBXFooter", [Some (nl ++ concat (footer p))])]).
Proof.
  intros Hwf. split; [by apply parse_project|]. split; [by apply write_project|].
  by rewrite (parse_project _ (with_blank_line_well_formed _ Hwf)).
Qed.

(** The text that is written is one character longer than the text that
    was read. *)
Lemma write_project_longer (p : project) :
  length (project_text (with_blank_line p)) = S (length (project_text p)).
Proof.
  unfold project_text, project_lines, with_blank_line.
  cbn [header objects footer]. rewrite !concat_app. cbn [concat].
  rewrite !length_app. simpl. lia.
Qed.

(** *** The tests of well-formedness *)

Lemma is_line_b_sound (l : pystr) : is_line_b l = true -> is_line l.
Proof.
  unfold is_line_b. destruct (rev l) as [|c t] eqn:Hrev; [done|].
  intros [Hc Ht]%andb_true_iff. apply Ascii.eqb_eq in Hc as ->.
  exists (rev t). split.
  - rewrite <- (rev_involutive l), Hrev. reflexivity.
  - apply not_elem_of_rev. intros Hin. apply negb_true_iff in Ht.
    apply not_true_iff_false in Ht. apply Ht. apply existsb_exists.
    exists "010"%char. split; [by apply list_elem_of_In|apply Ascii.eqb_refl].
Qed.

Lemma plain_line_b_sound (i : nat) (l : pystr) :
  plain_line_b i l = true -> plain_line i l.
Proof.
  unfold plain_line_b, plain_line.
  intros [Hb He]%andb_true_iff. by apply negb_true_iff in Hb, He.
Qed.

Lemma object_lines_b_sound (lines : list pystr) :
  forall d, object_lines_b d lines = true -> object_lines d lines.
Proof.
  induction lines as [|l lines IH]; intros d Hb; [done|].
  destruct lines as [|l' lines].
  - apply object_last. simpl in Hb. lia.
  - cbn [object_lines_b] in Hb. apply andb_true_iff in Hb as [Hpos Hrest].
    apply object_more; [lia|by apply IH].
Qed.

Lemma Forall_forallb {A : Type} (P : A -> Prop) (f : A -> bool) (l : list A) :
  (forall x, f x = true -> P x) -> forallb f l = true -> Forall P l.
Proof.
  intros Hsound Hall. apply Forall_forall. intros x Hx.
  apply Hsound. rewrite forallb_forall in Hall. apply Hall.
  by apply list_elem_of_In.
Qed.

Lemma is_object_b_sound (i : nat) (lines : list pystr) :
  is_object_b i lines = true -> is_object i lines.
Proof.
  unfold is_object_b.
  intros [[Hobj Hplain]%andb_true_iff Hne]%andb_true_iff.
  split; [by apply object_lines_b_sound|]. split.
  - by apply (Forall_forallb _ _ _ (plain_line_b_sound i)).
  - apply negb_true_iff in Hne. by apply bool_decide_eq_false in Hne.
Qed.

Lemma sections_ok_b_sound (objss : list (list (list pystr))) :
  forall i, sections_ok_b i objss = true -> sections_ok i objss.
Proof.
  induction objss as [|objs objss IH]; intros i Hb; [done|].
  simpl in Hb. apply andb_true_iff in Hb as [Hobjs Hrest]. split.
  - by apply (Forall_forallb _ _ _ (is_object_b_sound i)).
  - by apply IH.
Qed.

Lemma well_formed_b_sound (p : project) :
  well_formed_b p = true -> well_formed p.
Proof.
  unfold well_formed_b. rewrite !andb_true_iff.
  intros [[[[[[[Hh Hf] Hhl] Hfl] Hol] Hhp] Hlen] Hok].
  apply negb_true_iff, bool_decide_eq_false in Hh, Hf.
  repeat split; try done.
  - by apply (Forall_forallb _ _ _ is_line_b_sound).
  - by apply (Forall_forallb _ _ _ is_line_b_sound).
  - apply (Forall_forallb _ (forallb (forallb is_line_b))); [|done].
    intros objs Hobjs.
    apply (Forall_forallb _ (forallb is_line_b)); [|done].
    intros lines Hlines. by apply (Forall_forallb _ _ _ is_line_b_sound).
  - by apply (Forall_forallb _ _ _ (plain_line_b_sound 0)).
  - by apply Nat.eqb_eq.
  - by apply sections_ok_b_sound.
Qed.

Lemma sample_well_formed : well_formed sample.
Proof. apply well_formed_b_sound. vm_compute. reflexivity. Qed.

Lemma roundtrip_up_to_footer_witness :
  parse_pbxproj (project_text sample) = Some (project_model sample) /\
  write_pbxproj (project_model sample) = Ok (project_text (with_blank_line sample)) /\
  parse_pbxproj (project_text (with_blank_line sample))
  = Some ([(str "PBXHeader", [Some (concat (header sample))])] ++
          sections_model 1 (objects sample) ++
          [(str "PBXFooter", [Some (nl ++ concat (footer sample))])]).
Proof. apply (roundtrip_up_to_footer sample). apply sample_well_formed. Defined.


(** * Properties of more of the scripts *)

(** ** UUIDService: uniqueness *)

Section UUIDService_unique.
Context `{Hasher}.

Lemma _compute_Windows_UUID__unique self url tries r :
  _compute_Windows_UUID_ self url tries = Ok r ->
  r = windows_candidate url /\ r ∉ _uniques self.
Proof.
  unfold _compute_Windows_UUID_.
  destruct (decide (windows_candidate url ∈ _uniques self)) as [Hin|Hnin].
  - rewrite compute_Windows_left_collide by done. discriminate.
  - destruct (MAX_TRIES - tries)%nat as [|left]; [discriminate|].
    simpl. rewrite decide_False by done. simpl. by intros [= <-].
Qed.

Lemma getAppleUUID_keeps_caches self url :
  caches_recorded self -> caches_distinct self ->
  caches_recorded (snd (getAppleUUID self url)) /\
  caches_distinct (snd (getAppleUUID self url)).
Proof.
  intros [Ha Hw] (Haa & Hww & Haw). unfold getAppleUUID.
  destruct (_apples self !! url) as [r|] eqn:Hc; [by repeat split|].
  destruct (_compute_Apple_UUID_ self url 0) as [r|e] eqn:Hr; [|by repeat split].
  destruct (PyStr.truthy r); [|by repeat split].
  apply _compute_Apple_UUID__unique in Hr as [_ Hfresh].
  cbn [snd]. split; [split|split; [|split]]; cbn [_apples _windows _uniques].
  - intros url' r'. rewrite lookup_insert. case_decide.
    + intros [= <-]. set_solver.
    + intros Hl. apply Ha in Hl. set_solver.
  - intros url' r' Hl. apply Hw in Hl. set_solver.
  - intros url1 url2 r'. rewrite !lookup_insert.
    repeat case_decide; subst; try done.
    + intros [= <-] Hl. by apply Ha in Hl.
    + intros Hl [= <-]. by apply Ha in Hl.
    + apply Haa.
  - apply Hww.
  - intros url1 url2 r'. rewrite lookup_insert. case_decide.
    + intros [= <-] Hl. by apply Hw in Hl.
    + apply Haw.
Qed.

Lemma getWindowsUUID_keeps_caches self url :
  caches_recorded self -> caches_distinct self ->
  caches_recorded (snd (getWindowsUUID self url)) /\
  caches_distinct (snd (getWindowsUUID self url)).
Proof.
  intros [Ha Hw] (Haa & Hww & Haw). unfold getWindowsUUID.
  destruct (_windows self !! url) as [r|] eqn:Hc; [by repeat split|].
  destruct (_compute_Windows_UUID_ self url 0) as [r|e] eqn:Hr;
    [|by repeat split].
  destruct (PyStr.truthy r); [|by repeat split].
  apply _compute_Windows_UUID__unique in Hr as [_ Hfresh].
  cbn [snd]. split; [split|split; [|split]]; cbn [_apples _windows _uniques].
  - intros url' r' Hl. apply Ha in Hl. set_solver.
  - intros url' r'. rewrite lookup_insert. case_decide.
    + intros [= <-]. set_solver.
    + intros Hl. apply Hw in Hl. set_solver.
  - apply Haa.
  - intros url1 url2 r'. rewrite !lookup_insert.
    repeat case_decide; subst; try done.
    + intros [= <-] Hl. by apply Hw in Hl.
    + intros Hl [= <-]. by apply Hw in Hl.
    + apply Hww.
  - intros url1 url2 r'. rewrite lookup_insert. case_decide.
    + intros Hl [= <-]. by apply Ha in Hl.
    + apply Haw.
Qed.

Lemma reachable_caches self :
  reachable self -> caches_recorded self /\ caches_distinct self.
Proof.
  induction 1 as [|self url _ [IH1 IH2]|self url _ [IH1 IH2]].
  - split; [split|split; [|split]]; intros *; simpl;
      by rewrite lookup_empty.
  - by apply getAppleUUID_keeps_caches.
  - by apply getWindowsUUID_keeps_caches.
Qed.

(** X1. On a service that calls of [getAppleUUID] and [getWindowsUUID]
    have brought about, no identifier is cached for two different seeds,
    neither within one namespace nor across the two. *)
Theorem service_identifiers_distinct self :
  reachable self -> caches_distinct self.
Proof. intros Hreach. by apply reachable_caches. Qed.





Section with_spec.
Context `{!HasherSpec H}.



End with_spec.

(** X3. A second call of [getWindowsUUID] with the same seed has the
    outcome of the first and leaves the service as the first left it: the
    cache answers before the identifier, now recorded as used, can collide
    with itself. *)
Theorem getWindowsUUID_repeat self url :
  getWindowsUUID (snd (getWindowsUUID self url)) url = getWindowsUUID self url.
Proof.
  unfold getWindowsUUID at 2 3.
  destruct (_windows self !! url) as [r|] eqn:Hc.
  - simpl. unfold getWindowsUUID. by rewrite Hc.
  - destruct (_compute_Windows_UUID_ self url 0) as [r|e] eqn:Hr.
    + destruct (PyStr.truthy r) eqn:Ht; simpl.
      * unfold getWindowsUUID. simpl. by rewrite lookup_insert_eq.
      * unfold getWindowsUUID. by rewrite Hc, Hr, Ht.
    + simpl. unfold getWindowsUUID. by rewrite Hc, Hr.
Qed.

End UUIDService_unique.

Lemma service_identifiers_distinct_witness :
  @caches_distinct
    (snd (@getWindowsUUID toy_hasher
            (snd (@getAppleUUID toy_hasher UUIDService_init (str "GROUP://src")))
            (str "GROUP://src"))).
Proof.
  apply (@service_identifiers_distinct toy_hasher).
  apply reachable_windows, reachable_apple, reachable_init.
Defined.


(** ** applyPrefix *)

(** Two strings of the same length with the same characters are equal. *)
Lemma pystr_eq_lookup (r s : pystr) :
  length r = length s ->
  (forall i, (i < length s)%nat -> r !! i = s !! i) ->
  r = s.
Proof.
  intros Hlen Hat. apply list_eq. intros i.
  destruct (decide (i < length s)%nat) as [Hi|Hi]; [by apply Hat|].
  rewrite !lookup_ge_None_2; [done|lia|lia].
Qed.

(** X4. On an identifier without ['-'], [applyPrefix] puts the prefix in
    the place of the first characters of the identifier and keeps the
    rest; a prefix that is longer than the identifier is cut to its
    length. *)
Theorem applyPrefix_replaces_beginning (prefix uuid : pystr) :
  hyphen ∉ uuid ->
  applyPrefix prefix uuid
  = Ok (take (length uuid) prefix ++ drop (length prefix) uuid).
Proof.
  intros Hfree. destruct (applyPrefix_spec prefix uuid) as (r & -> & Hlen & Hat).
  f_equal. apply pystr_eq_lookup.
  - rewrite Hlen, length_app, length_take, length_drop. lia.
  - intros i Hi. rewrite length_app, length_take, length_drop in Hi.
    rewrite Hat by lia. unfold overlay_at.
    destruct (uuid !! i) as [c|] eqn:Hu; [|apply lookup_ge_None in Hu; lia].
    rewrite bool_decide_eq_false_2
      by (intros ->; apply Hfree; by apply list_elem_of_lookup_2 in Hu).
    destruct (prefix !! i) as [d|] eqn:Hp.
    + apply lookup_lt_Some in Hp as Hlt. apply lookup_lt_Some in Hu as Hlt'.
      rewrite lookup_app_l by (rewrite length_take; lia).
      by rewrite lookup_take_lt.
    + apply lookup_ge_None in Hp.
      rewrite lookup_app_r by (rewrite length_take; lia).
      rewrite length_take, lookup_drop, <- Hu. f_equal. lia.
Qed.

Lemma applyPrefix_replaces_beginning_witness :
  applyPrefix (str "CD") (str "0123456789ABCDEF01234567")
  = Ok (str "CD23456789ABCDEF01234567").
Proof.
  apply (applyPrefix_replaces_beginning (str "CD")
           (str "0123456789ABCDEF01234567")).
  refine (bool_decide_unpack _ _). vm_compute. exact I.
Defined.

(** X5. Applying the same prefix again changes nothing: what
    [applyPrefix] returns is left as it is by [applyPrefix] with that
    prefix. *)
Theorem applyPrefix_twice (prefix uuid r : pystr) :
  applyPrefix prefix uuid = Ok r -> applyPrefix prefix r = Ok r.
Proof.
  intros Hfirst.
  destruct (applyPrefix_spec prefix uuid) as (r1 & Hr1 & Hlen1 & Hat1).
  rewrite Hfirst in Hr1. injection Hr1 as <-.
  destruct (applyPrefix_spec prefix r) as (r2 & -> & Hlen2 & Hat2).
  f_equal. apply pystr_eq_lookup; [done|].
  intros i Hi. rewrite Hat2 by done. rewrite Hat1 by lia.
  unfold overlay_at. rewrite Hat1 by lia. unfold overlay_at.
  destruct (uuid !! i) as [c|] eqn:Hu; [|apply lookup_ge_None in Hu; lia].
  destruct (bool_decide_reflect (c = hyphen)) as [->|Hc].
  - by rewrite bool_decide_eq_true_2.
  - destruct (prefix !! i) as [d|] eqn:Hp.
    + by destruct (bool_decide_reflect (d = hyphen)) as [->|].
    + by rewrite bool_decide_eq_false_2.
Qed.

Lemma applyPrefix_twice_witness :
  applyPrefix (str "AB-") (str "AB-3-4567") = Ok (str "AB-3-4567").
Proof.
  apply (applyPrefix_twice (str "AB-") (str "0123-4567")).
  vm_compute. reflexivity.
Defined.

(** ** Splitting and joining *)

Lemma join_cons (sep x : pystr) (l : list pystr) :
  l <> [] -> PyStr.join sep (x :: l) = x ++ sep ++ PyStr.join sep l.
Proof. by destruct l. Qed.

Lemma split_aux_head (sep : ascii) (s cur : pystr) :
  exists first rest, PyStr.split_aux sep cur s = first :: rest.
Proof.
  destruct (PyStr.split_aux sep cur s) eqn:Hs; [|eauto].
  by apply split_aux_nonempty in Hs.
Qed.

(** Joining the parts of a split with the separator gives the string
    back. *)
Lemma join_split_aux (sep : ascii) (s cur : pystr) :
  PyStr.join [sep] (PyStr.split_aux sep cur s) = rev cur ++ s.
Proof.
  revert cur; induction s as [|c s IH]; intros cur; simpl.
  - by rewrite app_nil_r.
  - destruct (Ascii.eqb c sep) eqn:Hc.
    + apply Ascii.eqb_eq in Hc as ->.
      rewrite join_cons by apply split_aux_nonempty. by rewrite IH.
    + rewrite IH. simpl. by rewrite <- app_assoc.
Qed.

(** Joining the parts with another separator replaces the separator. *)
Lemma join_split_aux_other (sep new : ascii) (s cur : pystr) :
  PyStr.join [new] (PyStr.split_aux sep cur s)
  = rev cur ++ map (fun c => if Ascii.eqb c sep then new else c) s.
Proof.
  revert cur; induction s as [|c s IH]; intros cur; simpl.
  - by rewrite app_nil_r.
  - destruct (Ascii.eqb c sep) eqn:Hc.
    + rewrite join_cons by apply split_aux_nonempty. by rewrite IH.
    + rewrite IH. simpl. by rewrite <- app_assoc.
Qed.

(** The first part of a split is empty when the string is empty or begins
    with the separator. *)
Lemma split_first_empty (s : pystr) :
  match PyStr.split s slash with
  | first :: _ => PyStr.eqb first [] = first_component_empty s
  | [] => False
  end.
Proof.
  unfold PyStr.split. destruct s as [|c s]; [reflexivity|]. simpl.
  destruct (Ascii.eqb c slash) eqn:Hc; [reflexivity|].
  destruct (split_aux_head slash s [c]) as (first & rest & Hsplit).
  rewrite Hsplit.
  assert (Hjoin := join_split_aux slash s [c]). rewrite Hsplit in Hjoin.
  unfold PyStr.eqb. apply bool_decide_eq_false_2. intros ->.
  destruct rest as [|r rest]; simpl in Hjoin; [done|].
  injection Hjoin as Hc' _. rewrite <- Hc' in Hc. by rewrite Ascii.eqb_refl in Hc.
Qed.

(** ** Paths *)

(** X6. The components that [posix_split] returns, joined with ['/'],
    give the path back; only for a path that is empty or begins with
    ['/'] a ['.'] stands before it.  The list is never empty. *)
Theorem posix_split_join (path : pystr) :
  posix_split path <> [] /\
  PyStr.join [slash] (posix_split path)
  = if first_component_empty path then str "." ++ path else path.
Proof.
  unfold posix_split. pose proof (split_first_empty path) as Hfirst.
  pose proof (join_split_aux slash path []) as Hjoin.
  fold (PyStr.split path slash) in Hjoin.
  destruct (PyStr.split path slash) as [|first rest]; [done|].
  rewrite Hfirst. destruct (first_component_empty path) eqn:He.
  - split; [done|]. apply bool_decide_eq_true in Hfirst. subst first.
    destruct rest as [|r rest]; simpl in Hjoin |- *; by rewrite <- Hjoin.
  - by split.
Qed.

(** X7. [posix_to_windows] turns every ['/'] of the path into a
    backslash and changes nothing else; before a path that is empty or
    begins with ['/'] it puts the mount point and a colon. *)
Theorem posix_to_windows_backslashes (posix mount : pystr) :
  posix_to_windows posix mount
  = (if first_component_empty posix then mount ++ [colon] else [])
    ++ to_backslashes posix.
Proof.
  unfold posix_to_windows. pose proof (split_first_empty posix) as Hfirst.
  pose proof (join_split_aux_other slash backslash posix []) as Hjoin.
  fold (PyStr.split posix slash) in Hjoin.
  destruct (PyStr.split posix slash) as [|first rest]; [done|].
  rewrite Hfirst, Hjoin. unfold to_backslashes.
  destruct (first_component_empty posix); simpl; by rewrite <- ?app_assoc.
Qed.

Lemma elem_of_join (sep p : pystr) (l : list pystr) (c : ascii) :
  p ∈ l -> c ∈ p -> c ∈ PyStr.join sep l.
Proof.
  induction l as [|x l IH]; intros Hp Hc; [by apply elem_of_nil in Hp|].
  destruct l as [|y l].
  - apply list_elem_of_singleton in Hp as <-. done.
  - change (PyStr.join sep (x :: y :: l)) with (x ++ sep ++ PyStr.join sep (y :: l)).
    apply elem_of_cons in Hp as [Heq|Hp]; [subst p|].
    + apply elem_of_app; by left.
    + apply elem_of_app; right. apply elem_of_app; right. by apply IH.
Qed.

(** Every character of a part of a split is a character of the string. *)
Lemma split_parts_chars (sep : ascii) (s p : pystr) (c : ascii) :
  p ∈ PyStr.split s sep -> c ∈ p -> c ∈ s.
Proof.
  intros Hp Hc. pose proof (join_split_aux sep s []) as Hjoin.
  simpl in Hjoin. rewrite <- Hjoin. by eapply elem_of_join.
Qed.

(** Splitting what was joined gives the parts back, when no part holds
    the separator. *)
Lemma split_aux_join (sep : ascii) (x cur : pystr) (l : list pystr) :
  sep ∉ x -> Forall (fun p => sep ∉ p) l ->
  PyStr.split_aux sep cur (PyStr.join [sep] (x :: l)) = (rev cur ++ x) :: l.
Proof.
  revert x cur; induction l as [|y l IH]; intros x cur Hx Hl.
  - simpl. by apply split_aux_absent.
  - change (PyStr.join [sep] (x :: y :: l))
      with (x ++ sep :: PyStr.join [sep] (y :: l)).
    apply Forall_cons in Hl as [Hy Hl].
    rewrite split_aux_app, split_aux_absent by done.
    by rewrite IH.
Qed.

Lemma contains_char (s : pystr) (c : ascii) :
  PyStr.contains s [c] = bool_decide (c ∈ s).
Proof.
  destruct (PyStr.contains s [c]) eqn:Hc; symmetry.
  - apply bool_decide_eq_true. apply contains_occurs in Hc as (pre & post & ->).
    apply elem_of_app; right. apply elem_of_app; left.
    by apply list_elem_of_singleton.
  - apply bool_decide_eq_false. intros Hin.
    apply not_true_iff_false in Hc. apply Hc, contains_occurs.
    apply list_elem_of_split in Hin as (pre & post & ->). by exists pre, post.
Qed.

(** X8. The Windows path that [posix_to_windows] makes of a POSIX path
    has, under [windows_split], the components that [posix_split] gives
    for the POSIX path, whatever the mount point: the two views of a path
    agree.  The path holds no backslash and no colon, the mount point no
    backslash. *)
Theorem windows_split_posix_to_windows (posix mount : pystr) :
  backslash ∉ posix -> colon ∉ posix -> backslash ∉ mount ->
  windows_split (posix_to_windows posix mount) = posix_split posix.
Proof.
  intros Hback Hcolon Hmount.
  unfold windows_split, posix_to_windows, posix_split.
  assert (Hparts : Forall (fun p => (backslash ∉ p) /\ (colon ∉ p))
                     (PyStr.split posix slash)).
  { apply Forall_forall. intros p Hp.
    split; intros Hc; [apply Hback|apply Hcolon];
      (eapply split_parts_chars; [exact Hp|exact Hc]). }
  destruct (split_aux_head slash posix []) as (first & rest & Hsplit).
  fold (PyStr.split posix slash) in Hsplit. rewrite Hsplit in Hparts |- *.
  apply Forall_cons in Hparts as [[Hfb Hfc] Hrest].
  assert (Hrest' : Forall (fun p => backslash ∉ p) rest)
    by (eapply Forall_impl; [exact Hrest|]; intros p Hp; apply Hp).
  unfold PyStr.eqb. case_bool_decide as Hfirst.
  - subst first. unfold PyStr.split.
    assert (Hwin : PyStr.split_aux backslash []
                       (mount ++ [colon] ++ PyStr.join [backslash] ([] :: rest))
                     = (mount ++ [colon]) :: rest).
    { destruct rest as [|r rest].
      - simpl. rewrite split_aux_absent; [done|].
        intros Hin.
        apply elem_of_app in Hin as [Hin|Hin]; [done|].
        by apply list_elem_of_singleton in Hin.
      - rewrite (join_cons [backslash] [] (r :: rest)) by done.
        set (tail := PyStr.join [backslash] (r :: rest)).
        replace (mount ++ [colon] ++ [] ++ [backslash] ++ tail)
          with ((mount ++ [colon]) ++ backslash :: tail)
          by (by rewrite <- app_assoc).
        rewrite split_aux_app, split_aux_absent.
        + apply Forall_cons in Hrest' as [Hr Hrest']. subst tail.
          by rewrite split_aux_join.
        + intros Hin. apply elem_of_app in Hin as [Hin|Hin]; [done|].
          by apply list_elem_of_singleton in Hin. }
    rewrite Hwin, contains_char.
    rewrite bool_decide_eq_true_2; [done|].
    apply elem_of_app; right. by apply list_elem_of_singleton.
  - unfold PyStr.split. rewrite split_aux_join by done. simpl.
    rewrite contains_char, bool_decide_eq_false_2 by done. done.
Qed.

Lemma windows_split_posix_to_windows_witness :
  windows_split (posix_to_windows (str "/usr/lib") (str "C"))
  = posix_split (str "/usr/lib").
Proof.
  apply windows_split_posix_to_windows;
    refine (bool_decide_unpack _ _); vm_compute; exact I.
Defined.

(** ** [group_parity] *)

Lemma group_parity_from (text : pystr) (opening closing : ascii) (start : Z) :
  fold_left (fun result c =>
               if Ascii.eqb c opening then result + 1
               else if Ascii.eqb c closing then result - 1
               else result)
            text start
  = start + group_parity text opening closing.
Proof.
  unfold group_parity. revert start.
  induction text as [|c text IH]; intros start; simpl; [lia|].
  rewrite IH, (IH (if Ascii.eqb c opening then _ else _)).
  destruct (Ascii.eqb c opening), (Ascii.eqb c closing); lia.
Qed.

Lemma group_parity_cons (c : ascii) (text : pystr) (opening closing : ascii) :
  group_parity (c :: text) opening closing
  = (if Ascii.eqb c opening then 1
     else if Ascii.eqb c closing then -1 else 0)
    + group_parity text opening closing.
Proof.
  unfold group_parity at 1. simpl. rewrite group_parity_from.
  destruct (Ascii.eqb c opening), (Ascii.eqb c closing); lia.
Qed.

(** The parity of a text in two pieces is the sum of their parities: the
    count that [parse_pbxproj] keeps line by line is the parity of the
    lines together. *)
Lemma group_parity_app (a b : pystr) (opening closing : ascii) :
  group_parity (a ++ b) opening closing
  = group_parity a opening closing + group_parity b opening closing.
Proof.
  induction a as [|c a IH]; [reflexivity|].
  rewrite <- app_comm_cons, !group_parity_cons, IH. lia.
Qed.

(** X9. [group_parity] is the number of opening characters less the
    number of closing ones; when the two characters of the pair are the
    same one, it is the number of its occurrences. *)
Theorem group_parity_counts (text : pystr) (opening closing : ascii) :
  group_parity text opening closing
  = Z.of_nat (count_occ ascii_dec text opening)
    - (if Ascii.eqb opening closing then 0
       else Z.of_nat (count_occ ascii_dec text closing)).
Proof.
  induction text as [|c text IH]; simpl count_occ.
  - by destruct (Ascii.eqb opening closing).
  - rewrite group_parity_cons, IH.
    destruct (Ascii.eqb c opening) eqn:Ho.
    + apply Ascii.eqb_eq in Ho as ->.
      destruct (ascii_dec opening opening); [|done].
      destruct (Ascii.eqb opening closing) eqn:Hoc; [lia|].
      destruct (ascii_dec opening closing) as [->|_]; [|lia].
      by rewrite Ascii.eqb_refl in Hoc.
    + apply Ascii.eqb_neq in Ho.
      destruct (ascii_dec c opening); [done|].
      destruct (Ascii.eqb c closing) eqn:Hc.
      * apply Ascii.eqb_eq in Hc as ->.
        destruct (ascii_dec closing closing); [|done].
        replace (Ascii.eqb opening closing) with false
          by (symmetry; apply Ascii.eqb_neq; congruence).
        lia.
      * apply Ascii.eqb_neq in Hc.
        destruct (ascii_dec c closing); [done|]. lia.
Qed.

(** X10. The order of the characters plays no part in the parity: a text
    and any rearrangement of it have the same one.  A parity of zero
    therefore does not say that the pairs are nested. *)
Theorem group_parity_ignores_order (text text' : pystr) (opening closing : ascii) :
  text ≡ₚ text' ->
  group_parity text opening closing = group_parity text' opening closing.
Proof.
  induction 1 as [|c a b _ IH|c d a|a b c _ IH1 _ IH2].
  - reflexivity.
  - by rewrite !group_parity_cons, IH.
  - rewrite !group_parity_cons. lia.
  - by rewrite IH1.
Qed.

Lemma group_parity_ignores_order_witness :
  group_parity (str "}{") "{"%char "}"%char
  = group_parity (str "{}") "{"%char "}"%char.
Proof.
  apply group_parity_ignores_order.
  change (str "}{") with ["}"%char; "{"%char].
  change (str "{}") with ["{"%char; "}"%char].
  apply Permutation_swap.
Defined.

(** ** [parse_pbxproj]: the sections of the model *)

(** X11. The keys of a parsed model are the first names of
    [PBX_SEQUENCE], in that order and without a gap, whatever the order
    of the sections in the file: a section is only ever entered from the
    one before it in the sequence. *)
Theorem parse_keys_in_sequence (text : pystr) (m : pbxproj) :
  parse_pbxproj text = Some m ->
  exists n, (n < 14)%nat /\ map fst m = take (S n) PBX_SEQUENCE.
Proof.
  unfold parse_pbxproj. intros Hparse.
  destruct (scan scan_init (PyStr.lines text)) as [st|] eqn:Hscan; [|done].
  injection Hparse as <-.
  destruct (scan_contents _ _ Hscan) as [Hidx Hnames].
  exists (index st). split; [lia|].
  unfold scan_result. rewrite map_app, Hnames. cbn [map fst].
  assert (Hlook : PBX_SEQUENCE !! index st = Some (state_of st)).
  { unfold state_of.
    destruct (lookup_lt_is_Some_2 PBX_SEQUENCE (index st)) as [name Hname].
    - change (length PBX_SEQUENCE) with 14%nat. lia.
    - rewrite Hname. f_equal. symmetry. by apply nth_lookup_Some. }
  symmetry. by apply take_S_r.
Qed.

Lemma parse_keys_in_sequence_witness :
  exists n, (n < 14)%nat /\
    map fst [(str "PBXHeader", [Some (str "// !$*UTF8*$!" ++ nl)])]
    = take (S n) PBX_SEQUENCE.
Proof.
  apply (parse_keys_in_sequence (str "// !$*UTF8*$!" ++ nl)).
  vm_compute. reflexivity.
Defined.

(** ** [write_pbxproj] on a parsed model *)

Lemma truthy_opt_is_Some (o : option pystr) :
  PyStr.truthy_opt o = true -> is_Some o.
Proof. by destruct o. Qed.

Lemma scan_line_items (st st' : scan_state) (line : pystr) :
  items_present st -> scan_line st line = Some st' -> items_present st'.
Proof.
  intros [Hcontents Hblock]. unfold scan_line, items_present.
  destruct (branch_of st line).
  - intros [= <-]. cbn [contents block]. split; [|done].
    apply Forall_app; split; [done|]. constructor; [|done]. cbn [snd].
    destruct (PyStr.truthy_opt (accum st)) eqn:Htruthy; [|done].
    apply Forall_app; split; [done|].
    constructor; [by apply truthy_opt_is_Some|done].
  - by intros [= <-].
  - destruct (PyStr.truthy_opt (accum st)) eqn:Htruthy; cbn [andb].
    + destruct (negb _); intros [= <-]; [|done]. cbn [contents block].
      split; [done|]. apply Forall_app; split; [done|].
      constructor; [by apply truthy_opt_is_Some|done].
    + by intros [= <-].
  - destruct (_ <? 0); [done|]. destruct (_ =? 0); intros [= <-].
    + cbn [contents block]. split; [done|].
      destruct (negb _); [|done]. apply Forall_app; split; [done|].
      constructor; [|done]. by destruct (accum st).
    + done.
  - by intros [= <-].
Qed.

Lemma scan_items (lines : list pystr) :
  forall st st', items_present st -> scan st lines = Some st' ->
                 items_present st'.
Proof.
  induction lines as [|line lines IH]; intros st st' Hitems Hscan.
  - by injection Hscan as <-.
  - simpl in Hscan. destruct (scan_line st line) as [st1|] eqn:Hline; [|done].
    eapply IH; [|exact Hscan]. by eapply scan_line_items.
Qed.

Lemma write_items_present (items : list (option pystr)) :
  Forall is_Some items -> exists text, write_items items = Ok text.
Proof.
  induction 1 as [|item items [x ->] _ [text IH]]; [by exists []|].
  simpl. rewrite IH. by eexists.
Qed.

Lemma write_items_last_None (items : list (option pystr)) :
  Forall is_Some items -> write_items (items ++ [None]) = Raise TypeError.
Proof.
  induction 1 as [|item items [x ->] _ IH]; [reflexivity|].
  simpl. by rewrite IH.
Qed.

Lemma write_section_present (name : pystr) (items : list (option pystr)) :
  Forall is_Some items -> exists text, write_section (name, items) = Ok text.
Proof.
  intros Hitems. destruct (write_items_present _ Hitems) as [body Hbody].
  unfold write_section. rewrite Hbody. simpl.
  destruct (negb (is_edge name)); by eexists.
Qed.

Lemma write_sections_present (sections : pbxproj) :
  Forall (fun section : pystr * list (option pystr) =>
            Forall is_Some (snd section)) sections ->
  exists text, write_pbxproj sections = Ok text.
Proof.
  induction 1 as [|[name items] sections Hitems _ [rest IH]]; [by exists []|].
  destruct (write_section_present name items Hitems) as [text Htext].
  cbn [write_pbxproj]. rewrite Htext, IH. by eexists.
Qed.

(** X12. In a parsed model only the last item of the last section can
    be [None], and [write_pbxproj] on the model raises [TypeError] when
    it is; otherwise the model is written.  So the model of a file that
    ends right after a banner or after a complete object of a section, or
    of an empty file, cannot be written back. *)
Theorem write_parsed_model (text : pystr) (m : pbxproj) :
  parse_pbxproj text = Some m ->
  exists sections name items final,
    m = sections ++ [(name, items ++ [final])] /\
    Forall (fun section : pystr * list (option pystr) =>
              Forall is_Some (snd section)) sections /\
    Forall is_Some items /\
    match final with
    | None => write_pbxproj m = Raise TypeError
    | Some _ => exists out, write_pbxproj m = Ok out
    end.
Proof.
  unfold parse_pbxproj. intros Hparse.
  destruct (scan scan_init (PyStr.lines text)) as [st|] eqn:Hscan; [|done].
  injection Hparse as <-.
  assert (Hitems : items_present st).
  { eapply scan_items; [|exact Hscan]. by split. }
  destruct Hitems as [Hcontents Hblock].
  exists (contents st), (state_of st), (block st), (accum st).
  repeat split; try done.
  destruct (write_sections_present _ Hcontents) as [before Hbefore].
  unfold scan_result. rewrite write_pbxproj_app, Hbefore.
  destruct (accum st) as [a|] eqn:Haccum.
  - assert (Hall : Forall is_Some (block st ++ [Some a]))
      by (apply Forall_app; split; [done|]; by constructor).
    destruct (write_section_present (state_of st) _ Hall) as [last Hlast].
    cbn [bind write_pbxproj]. rewrite Hlast. by eexists.
  - cbn [bind write_pbxproj]. unfold write_section.
    by rewrite write_items_last_None.
Qed.

Lemma write_parsed_model_witness :
  exists sections name items final,
    [(str "PBXHeader", [None])] = sections ++ [(name, items ++ [final])] /\
    Forall (fun section : pystr * list (option pystr) =>
              Forall is_Some (snd section)) sections /\
    Forall is_Some items /\
    match final with
    | None => write_pbxproj [(str "PBXHeader", [None])] = Raise TypeError
    | Some _ => exists out, write_pbxproj [(str "PBXHeader", [None])] = Ok out
    end.
Proof. apply (write_parsed_model []). reflexivity. Defined.

(** ** [parse_pbxproj]: an object that is still open at the end banner *)

Lemma branch_of_cases (st : scan_state) (line : pystr) :
  match branch_of st line with
  | Advance => True
  | Verbatim => is_edge (state_of st) = true
  | Closing => is_edge (state_of st) = false
  | Object => is_edge (state_of st) = false /\ between st = false
  | Skipped => is_edge (state_of st) = false /\ between st = true
  end.
Proof.
  unfold branch_of. destruct (_ || _); [done|].
  destruct (is_edge (state_of st)); [done|].
  destruct (PyStr.contains line _); [done|].
  by destruct (between st).
Qed.

Lemma scan_line_brace (st st' : scan_state) (line : pystr) :
  brace_counts st -> scan_line st line = Some st' -> brace_counts st'.
Proof.
  intros Hinv. unfold scan_line.
  pose proof (branch_of_cases st line) as Hcase.
  destruct (branch_of st line).
  - intros [= <-] _. cbn [brace accum]. by split.
  - intros [= <-] Hedge. unfold state_of in *. cbn [index] in Hedge. congruence.
  - destruct (_ && _); intros [= <-]; [|done].
    intros Hedge. by apply Hinv.
  - destruct Hcase as [Hedge _]. destruct (Hinv Hedge) as [Hbrace Hopen].
    destruct (_ <? 0) eqn:Hneg; [done|]. apply Z.ltb_ge in Hneg.
    destruct (_ =? 0) eqn:Hzero; intros [= <-] _; cbn [brace accum].
    + apply Z.eqb_eq in Hzero. by split.
    + apply Z.eqb_neq in Hzero. split; [|lia].
      rewrite Hbrace. destruct (accum st) as [a|]; simpl.
      * by rewrite group_parity_app.
      * reflexivity.
  - by intros [= <-].
Qed.

Lemma scan_brace (lines : list pystr) :
  forall st st', brace_counts st -> scan st lines = Some st' ->
                 brace_counts st'.
Proof.
  induction lines as [|line lines IH]; intros st st' Hinv Hscan.
  - by injection Hscan as <-.
  - simpl in Hscan. destruct (scan_line st line) as [st1|] eqn:Hline; [|done].
    eapply IH; [|exact Hscan]. by eapply scan_line_brace.
Qed.

Lemma scan_contents_grow (lines : list pystr) :
  forall st st', scan st lines = Some st' ->
                 exists more, contents st' = contents st ++ more.
Proof.
  induction lines as [|line lines IH]; intros st st' Hscan.
  - injection Hscan as <-. exists []. by rewrite app_nil_r.
  - simpl in Hscan. destruct (scan_line st line) as [st1|] eqn:Hline; [|done].
    destruct (IH _ _ Hscan) as [more ->].
    apply scan_line_index in Hline as [(_ & _ & _ & _ & ->)|(_ & _ & ->)].
    + rewrite <- app_assoc. by eexists.
    + by eexists.
Qed.

(** After the end banner has stored the open object: every further end
    banner of the section stores it again, and so does the begin banner
    of the next section or the end of the file. *)
Lemma scan_after_closing (a : pystr) (lines : list pystr) :
  a <> [] -> a <> nl ->
  forall st st',
    is_edge (state_of st) = false -> between st = true -> accum st = Some a ->
    scan st lines = Some st' ->
    exists k sections,
      scan_result st'
      = contents st ++
        [(state_of st, block st ++ replicate (S k) (Some a))] ++ sections.
Proof.
  intros Ha Hnl.
  assert (Htruthy : PyStr.truthy_opt (Some a) = true) by by destruct a.
  induction lines as [|line lines IH];
    intros st st' Hedge Hbetween Haccum Hscan.
  - injection Hscan as <-. exists 0%nat, []. unfold scan_result.
    by rewrite Haccum.
  - simpl in Hscan. unfold scan_line in Hscan.
    pose proof (branch_of_cases st line) as Hcase.
    destruct (branch_of st line).
    + apply scan_contents_grow in Hscan as [more Hmore].
      cbn [contents] in Hmore. rewrite Haccum, Htruthy in Hmore.
      exists 0%nat, (more ++ [(state_of st', block st' ++ [accum st'])]).
      unfold scan_result. rewrite Hmore. cbn [replicate].
      by rewrite <- !app_assoc.
    + congruence.
    + rewrite Haccum, Htruthy in Hscan. cbn [andb] in Hscan.
      rewrite bool_decide_eq_false_2 in Hscan by congruence.
      cbn [negb] in Hscan.
      apply IH in Hscan as (k & sections & ->); [|done..].
      exists (S k), sections. cbn [contents block state_of index].
      unfold state_of. cbn [replicate]. by rewrite <- app_assoc.
    + destruct Hcase as [_ Hcase]. congruence.
    + by apply IH.
Qed.

(** X13. An object whose braces are still open when the end banner of
    its section arrives is stored at the banner and again when the next
    section begins or the file ends: the model holds it at least twice in
    a row, so that [write_pbxproj] writes it twice. *)
Theorem unterminated_object_stored_twice (text : pystr)
    (before after : list pystr) (line a : pystr) (st : scan_state)
    (m : pbxproj) :
  PyStr.lines text = before ++ line :: after ->
  scan scan_init before = Some st ->
  branch_of st line = Closing ->
  accum st = Some a ->
  parse_pbxproj text = Some m ->
  0 < group_parity a "{"%char "}"%char /\
  exists k sections,
    m = contents st ++
        [(state_of st, block st ++ replicate (2 + k) (Some a))] ++ sections.
Proof.
  intros Hlines Hbefore Hbranch Haccum Hparse.
  pose proof (branch_of_cases st line) as Hedge. rewrite Hbranch in Hedge.
  assert (Hinv : brace_counts st).
  { eapply scan_brace; [|exact Hbefore]. intros Hedge0. by vm_compute in Hedge0. }
  destruct (Hinv Hedge) as [Hbrace Hopen].
  rewrite Haccum in Hbrace, Hopen. simpl in Hbrace.
  assert (Hpos : 0 < group_parity a "{"%char "}"%char)
    by (rewrite <- Hbrace; by apply Hopen).
  split; [done|].
  assert (Ha : a <> []) by (intros ->; by vm_compute in Hpos).
  assert (Hnl : a <> nl) by (intros ->; by vm_compute in Hpos).
  unfold parse_pbxproj in Hparse. rewrite Hlines, scan_app, Hbefore in Hparse.
  cbn [scan] in Hparse. unfold scan_line in Hparse.
  rewrite Hbranch, Haccum in Hparse.
  replace (PyStr.truthy_opt (Some a)) with true in Hparse by by destruct a.
  rewrite bool_decide_eq_false_2 in Hparse by congruence.
  cbn [andb negb] in Hparse.
  destruct (scan _ after) as [st'|] eqn:Hafter; [|done].
  injection Hparse as <-.
  apply (scan_after_closing a after Ha Hnl) in Hafter
    as (k & sections & ->); [|done..].
  exists k, sections. cbn [contents block state_of index].
  unfold state_of. replace (2 + k)%nat with (S (S k)) by lia.
  cbn [replicate]. by rewrite <- app_assoc.
Qed.

Lemma unterminated_object_stored_twice_witness :
  0 < group_parity open_object "{"%char "}"%char /\
  exists k sections,
    [(str "PBXHeader", [Some (str "// !$*UTF8*$!" ++ nl ++ str "{" ++ nl)]);
     (str "PBXBuildFile", [Some open_object; Some open_object])]
    = contents at_end_banner ++
      [(state_of at_end_banner,
        block at_end_banner ++ replicate (2 + k) (Some open_object))] ++
      sections.
Proof.
  apply (unterminated_object_stored_twice unterminated_project
           (take 4 (PyStr.lines unterminated_project)) []
           (end_banner (str "PBXBuildFile") ++ nl) open_object at_end_banner);
    vm_compute; reflexivity.
Defined.

(** ** [place_entries]: where the entries go *)

(** What [find] returns when it finds something. *)
Lemma find_found (s sub : pystr) (start : Z) :
  PyStr.find s sub start <> -1 ->
  exists p : nat,
    PyStr.find s sub start = Z.of_nat p /\ (p <= length s)%nat /\
    sub `prefix_of` drop p s.
Proof.
  unfold PyStr.find, PyStr.len.
  set (st := if start <? 0 then _ else start).
  destruct (Z.ltb_spec (Z.of_nat (length s)) st) as [?|Hst]; [done|].
  destruct (PyStr.find_first (drop (Z.to_nat st) s) sub) as [j|] eqn:Hfind;
    [|done].
  intros _. apply find_first_Some in Hfind as (Hj & Hpre & _).
  rewrite length_drop in Hj. rewrite drop_drop in Hpre.
  assert (Hnonneg : 0 <= st).
  { subst st. destruct (Z.ltb_spec start 0); lia. }
  exists (Z.to_nat st + j)%nat. repeat split; [lia|lia|done].
Qed.

Lemma find_none_from (s sub : pystr) (i : nat) :
  (i <= length s)%nat -> ~ occurs sub (drop i s) ->
  PyStr.find s sub (Z.of_nat i) = -1.
Proof.
  intros Hi Hno. unfold PyStr.find, PyStr.len.
  destruct (Z.ltb_spec (Z.of_nat i) 0) as [?|_]; [lia|].
  destruct (Z.ltb_spec (Z.of_nat (length s)) (Z.of_nat i)) as [?|_]; [lia|].
  rewrite Nat2Z.id. by apply find_first_None in Hno as ->.
Qed.

Lemma slice_from_minus_1 (body : pystr) (c : ascii) :
  PyStr.slice_from (body ++ [c]) (-1) = [c].
Proof.
  unfold PyStr.slice_from, PyStr.clamp, PyStr.len. change (-1 <? 0) with true.
  cbv iota. rewrite length_app. simpl length.
  replace (Z.to_nat _) with (length body) by lia.
  by rewrite drop_app_length.
Qed.

(** X14. [place_entries] only inserts: the result is the object with
    the indented entries put in at one place, nothing of the object is
    lost or changed.  The place is at a line break of the object or, when
    there is none after the anchor, before its last character; it is
    never the end of the object. *)
Theorem place_entries_only_inserts (obj r : pystr) (entries : list pystr)
    (prefix : pystr) :
  place_entries obj entries prefix = Some r ->
  exists a b,
    obj = a ++ b /\
    r = a ++ (indent ++ PyStr.join indent entries) ++ b /\
    (nl `prefix_of` b \/ length b = 1%nat).
Proof.
  unfold place_entries.
  destruct (Z.eqb_spec (PyStr.find obj (prefix ++ str " = (") 0) (-1))
    as [|Hline]; [done|].
  intros [= <-].
  set (pos := PyStr.find obj nl _).
  exists (PyStr.slice_to obj pos), (PyStr.slice_from obj pos).
  unfold PyStr.slice_to, PyStr.slice_from.
  split; [by rewrite take_drop|]. split; [done|].
  destruct (Z.eq_dec pos (-1)) as [Hpos|Hpos].
  - right. rewrite Hpos.
    apply find_found in Hline as (i & _ & Hi & [rest Hanchor]).
    assert (Hlen : (0 < length obj)%nat).
    { apply (f_equal length) in Hanchor.
      rewrite length_drop, !length_app in Hanchor. simpl in Hanchor. lia. }
    rewrite length_drop. unfold PyStr.clamp, PyStr.len.
    change (-1 <? 0) with true. cbv iota. lia.
  - left. apply find_found in Hpos as (p & Hp & Hle & Hpre).
    unfold pos. rewrite Hp, clamp_nonneg by lia. rewrite Nat2Z.id.
    by replace (Nat.min p (length obj)) with p by lia.
Qed.

(** X15. When no line break follows the anchor, the entries are put in
    before the last character of the object: for an object that ends in
    the anchor they land inside the anchor, before its parenthesis. *)
Theorem place_entries_without_line_break (body : pystr) (c : ascii)
    (entries : list pystr) (prefix : pystr) :
  anchored prefix (body ++ [c]) ->
  place_entries (body ++ [c]) entries prefix
  = Some (body ++ (indent ++ PyStr.join indent entries) ++ [c]).
Proof.
  intros (i & Hfind & Hnl). unfold place_entries.
  rewrite find_from_0, Hfind.
  destruct (Z.eqb_spec (Z.of_nat i) (-1)) as [?|_]; [lia|].
  assert (Hi : (i <= length (body ++ [c]))%nat).
  { apply find_first_Some in Hfind. tauto. }
  rewrite find_none_from; [|done|].
  - by rewrite slice_to_minus_1, slice_from_minus_1.
  - intros (pre & post & Hsplit). apply Hnl. rewrite Hsplit.
    apply elem_of_app; right. apply elem_of_app; left.
    by apply list_elem_of_singleton.
Qed.

Lemma place_entries_only_inserts_witness :
  exists a b,
    str "children = (" ++ nl ++ str ");" = a ++ b /\
    str "children = (" ++ indent ++ str "AB01," ++ nl ++ str ");"
    = a ++ (indent ++ PyStr.join indent [str "AB01,"]) ++ b /\
    (nl `prefix_of` b \/ length b = 1%nat).
Proof.
  apply (place_entries_only_inserts _ _ [str "AB01,"] (str "children")).
  vm_compute. reflexivity.
Defined.

Lemma place_entries_without_line_break_witness :
  place_entries (str "files = (") [str "AB01,"] (str "files")
  = Some (str "files = " ++ indent ++ str "AB01,(").
Proof.
  apply (place_entries_without_line_break (str "files = ") "("%char).
  exists 0%nat. split; [reflexivity|].
  refine (bool_decide_unpack _ _). vm_compute. exact I.
Defined.

(** ** [filter_targets] *)

Lemma collect_rems_spec (targets : list pystr) (section : list pystr) :
  forall pos n,
    n ∈ collect_rems targets section pos <->
    exists i obj, n = (pos + i)%nat /\ section !! i = Some obj /\
                  removes_macos targets obj || removes_ios targets obj = true.
Proof.
  induction section as [|obj section IH]; intros pos n; simpl.
  - split; [by intros ?%elem_of_nil|]. by intros (i & o & _ & ? & _).
  - rewrite !elem_of_app, IH. split.
    + intros [Hn|[Hn|(i & o & -> & Hi & Ho)]].
      * destruct (removes_macos targets obj) eqn:Hm;
          [|by apply elem_of_nil in Hn].
        apply list_elem_of_singleton in Hn as ->.
        exists 0%nat, obj. rewrite Hm. split; [lia|done].
      * destruct (removes_ios targets obj) eqn:Hm;
          [|by apply elem_of_nil in Hn].
        apply list_elem_of_singleton in Hn as ->.
        exists 0%nat, obj. rewrite Hm, orb_true_r. split; [lia|done].
      * exists (S i), o. split; [lia|done].
    + intros (i & o & -> & Hi & Ho). destruct i as [|i].
      * injection Hi as ->. rewrite Nat.add_0_r.
        apply orb_true_iff in Ho as [->| ->];
          [left|right; left]; by apply list_elem_of_singleton.
      * right; right. exists i, o. split; [lia|done].
Qed.

Lemma delete_loop_filter (rems : list nat) (keep : pystr -> bool) :
  forall (rest kept : list pystr) (fuel off : nat),
    (length rest <= fuel)%nat ->
    (forall i obj, rest !! i = Some obj ->
                   ((length kept + off + i)%nat ∈ rems <-> keep obj = false)) ->
    delete_loop fuel rems (kept ++ rest) (length kept) off
    = Some (kept ++ List.filter keep rest).
Proof.
  induction rest as [|obj rest IH]; intros kept fuel off Hfuel Hrems.
  - destruct fuel; simpl; rewrite app_nil_r;
      by replace (length kept <? length kept)%nat with false
        by (symmetry; apply Nat.ltb_ge; lia).
  - destruct fuel as [|fuel]; [simpl in Hfuel; lia|].
    cbn [delete_loop List.filter].
    replace (length kept <? length (kept ++ obj :: rest))%nat with true
      by (symmetry; apply Nat.ltb_lt; rewrite length_app; simpl; lia).
    pose proof (Hrems 0%nat obj eq_refl) as Hhere.
    rewrite Nat.add_0_r in Hhere.
    case_bool_decide as Hin.
    + apply Hhere in Hin. rewrite Hin.
      rewrite delete_middle. apply IH; [simpl in Hfuel; lia|].
      intros i o Hi. rewrite <- (Hrems (S i) o Hi).
      by replace (length kept + (off + 1) + i)%nat
        with (length kept + off + S i)%nat by lia.
    + destruct (keep obj) eqn:Hkeep; [|by destruct Hin; apply Hhere].
      replace (kept ++ obj :: rest) with ((kept ++ [obj]) ++ rest)
        by (by rewrite <- app_assoc).
      replace (kept ++ obj :: List.filter keep rest)
        with ((kept ++ [obj]) ++ List.filter keep rest)
        by (by rewrite <- app_assoc).
      replace (length kept + 1)%nat with (length (kept ++ [obj]))
        by (rewrite length_app; simpl; lia).
      apply IH; [simpl in Hfuel; lia|].
      intros i o Hi. rewrite <- (Hrems (S i) o Hi).
      rewrite length_app. simpl.
      by replace (length kept + 1 + off + i)%nat
        with (length kept + off + S i)%nat by lia.
Qed.

(** X16. Without the target ['apple'], [filter_targets] returns, and
    what it leaves of the section are the objects that no test of its
    first loop marks, in their order: the loop over positions and offsets
    removes the marked objects and no others.  With both ['ios'] and
    ['macos'] among the targets every object that names one of the two is
    removed. *)
Theorem filter_targets_removes_marked (fuel : nat) (targets : list pystr)
    (section : list pystr) :
  str "apple" ∉ targets -> (length section <= fuel)%nat ->
  filter_targets fuel targets section
  = Some (List.filter
            (fun obj => negb (removes_macos targets obj || removes_ios targets obj))
            section).
Proof.
  intros Happle Hfuel. unfold filter_targets.
  rewrite bool_decide_eq_false_2 by done.
  apply (delete_loop_filter _ _ section [] fuel 0%nat Hfuel).
  intros i obj Hi. simpl. rewrite collect_rems_spec.
  rewrite negb_false_iff. split.
  - intros (j & o & Hj & Ho & Hmarked). simpl in Hj. subst j. congruence.
  - intros Hmarked. by exists i, obj.
Qed.

Lemma filter_targets_removes_marked_witness :
  filter_targets 2 [str "ios"] [str "app-mac: macosx"; str "app-ios: iphoneos"]
  = Some (List.filter
            (fun obj => negb (removes_macos [str "ios"] obj
                              || removes_ios [str "ios"] obj))
            [str "app-mac: macosx"; str "app-ios: iphoneos"]).
Proof.
  apply filter_targets_removes_marked.
  - refine (bool_decide_unpack _ _). vm_compute. exact I.
  - simpl. lia.
Defined.

(** X17. [applyPrefix] does not keep identifiers apart: two identifiers
    of one length that have their hyphens at the same places and agree
    behind the prefix get the same result.  The service tells apart what
    it returns, not what [applyPrefix] makes of it. *)
Theorem applyPrefix_collides (prefix uuid1 uuid2 : pystr) :
  length uuid1 = length uuid2 ->
  (forall i, uuid1 !! i = Some hyphen <-> uuid2 !! i = Some hyphen) ->
  (forall i, (length prefix <= i)%nat -> uuid1 !! i = uuid2 !! i) ->
  applyPrefix prefix uuid1 = applyPrefix prefix uuid2.
Proof.
  intros Hlen Hhyphen Hrest.
  destruct (applyPrefix_spec prefix uuid1) as (r1 & -> & Hlen1 & Hat1).
  destruct (applyPrefix_spec prefix uuid2) as (r2 & -> & Hlen2 & Hat2).
  f_equal. apply pystr_eq_lookup; [lia|].
  intros i Hi. rewrite Hat1, Hat2 by lia. unfold overlay_at.
  destruct (uuid1 !! i) as [c1|] eqn:Hu1; [|apply lookup_ge_None in Hu1; lia].
  destruct (uuid2 !! i) as [c2|] eqn:Hu2; [|apply lookup_ge_None in Hu2; lia].
  destruct (bool_decide_reflect (c1 = hyphen)) as [->|Hc1].
  - apply Hhyphen in Hu1. rewrite Hu1 in Hu2. injection Hu2 as <-.
    by rewrite bool_decide_eq_true_2.
  - rewrite bool_decide_eq_false_2.
    + destruct (prefix !! i) as [d|] eqn:Hp; [done|].
      apply lookup_ge_None in Hp. rewrite <- Hu1, <- Hu2. by apply Hrest.
    + intros ->. apply Hhyphen in Hu2. congruence.
Qed.

Lemma applyPrefix_collides_witness :
  applyPrefix (str "CD") (str "0123456789ABCDEF01234567")
  = applyPrefix (str "CD") (str "FF23456789ABCDEF01234567").
Proof.
  apply applyPrefix_collides.
  - reflexivity.
  - intros i. do 24 (destruct i as [|i]; [by split|]). by split.
  - intros i Hi. simpl in Hi. destruct i as [|[|i]]; [lia|lia|reflexivity].
Defined.

(** ** [assign_orientation] *)

Lemma occurs_app_l (a b s : pystr) : occurs (a ++ b) s -> occurs a s.
Proof.
  intros (pre & post & ->). exists pre, (b ++ post). by rewrite <- app_assoc.
Qed.

Lemma contains_app_l (a b s : pystr) :
  PyStr.contains s (a ++ b) = true -> PyStr.contains s a = true.
Proof. rewrite !contains_occurs. apply occurs_app_l. Qed.

(** The line that sets the orientations holds no key of a device. *)
Lemma orientations_line_no_device (o : pystr) :
  PyStr.contains (setting_line orientations_key (determine_orientation o))
                 ipad_key = false /\
  PyStr.contains (setting_line orientations_key (determine_orientation o))
                 iphone_key = false.
Proof.
  unfold determine_orientation.
  repeat (destruct (PyStr.eqb o _); [by vm_compute|]). by vm_compute.
Qed.

(** X18. A line of a build configuration that holds the key of the
    orientations of the iPad or of the iPhone (and no storyboard key) is
    replaced by the line that sets the orientations without a device:
    the test for the plain key, a part of both device keys, comes first
    and rewrites the line, so that the two tests for the device keys
    never hold.  The setting of the device is lost. *)
Theorem assign_orientation_loses_device (o line : pystr) :
  PyStr.contains line launch_key = false ->
  PyStr.contains line main_key = false ->
  PyStr.contains line ipad_key = true \/ PyStr.contains line iphone_key = true ->
  assign_line (PyStr.contains (determine_orientation o) (str "Portrait"))
              (determine_orientation o) line
  = (setting_line orientations_key (determine_orientation o), true).
Proof.
  intros Hlaunch Hmain Hdevice.
  assert (Hplain : PyStr.contains line orientations_key = true).
  { destruct Hdevice as [Hd|Hd]; by apply contains_app_l in Hd. }
  destruct (orientations_line_no_device o) as [Hipad Hiphone].
  unfold assign_line, assign_if. cbn [fst].
  rewrite Hlaunch, andb_false_r. cbn [fst].
  rewrite Hmain, andb_false_r. cbn [fst].
  rewrite Hplain. cbn [andb fst].
  rewrite Hipad. cbn [andb fst]. by rewrite Hiphone.
Qed.

Lemma assign_orientation_loses_device_witness :
  assign_line (PyStr.contains (determine_orientation (str "portrait"))
                              (str "Portrait"))
              (determine_orientation (str "portrait"))
              (tabs 4 ++ ipad_key ++ str " = UIInterfaceOrientationLandscapeLeft;")
  = (setting_line orientations_key (determine_orientation (str "portrait")),
     true).
Proof.
  apply assign_orientation_loses_device; [by vm_compute|by vm_compute|].
  left. by vm_compute.
Defined.

(** What the five tests make of a line: it is left alone, or it is one of
    the three lines that the function writes. *)
Lemma assign_line_outcomes (o line : pystr) :
  let orientation := determine_orientation o in
  let portrait := PyStr.contains orientation (str "Portrait") in
  assign_line portrait orientation line = (line, false) \/
  (portrait = true /\
   assign_line portrait orientation line
   = (setting_line launch_key (str "Portrait"), true)) \/
  (portrait = true /\
   assign_line portrait orientation line
   = (setting_line main_key (str "Portrait"), true)) \/
  assign_line portrait orientation line
  = (setting_line orientations_key orientation, true).
Proof.
  intros orientation portrait.
  destruct (orientations_line_no_device o) as [Hipad Hiphone].
  fold orientation in Hipad, Hiphone.
  unfold assign_line, assign_if. cbn [fst].
  destruct (portrait && PyStr.contains line launch_key) eqn:Hlaunch; cbn [fst].
  { right; left. apply andb_true_iff in Hlaunch as [-> _]. by vm_compute. }
  destruct (portrait && PyStr.contains line main_key) eqn:Hmain; cbn [fst].
  { right; right; left. apply andb_true_iff in Hmain as [-> _]. by vm_compute. }
  cbn [andb].
  destruct (PyStr.contains line orientations_key) eqn:Hplain; cbn [fst].
  { right; right; right. rewrite Hipad. cbn [andb fst]. by rewrite Hiphone. }
  left.
  assert (Hi : PyStr.contains line ipad_key = false).
  { destruct (PyStr.contains line ipad_key) eqn:Hi; [|done].
    apply contains_app_l in Hi. congruence. }
  assert (Hp : PyStr.contains line iphone_key = false).
  { destruct (PyStr.contains line iphone_key) eqn:Hp; [|done].
    apply contains_app_l in Hp. congruence. }
  rewrite Hi. cbn [andb fst]. by rewrite Hp.
Qed.

(** The lines that the function writes are left as they are by the
    function, and they hold no line break. *)
Lemma written_lines_fixed (o : pystr) :
  let orientation := determine_orientation o in
  let portrait := PyStr.contains orientation (str "Portrait") in
  (portrait = true ->
   assign_line portrait orientation (setting_line launch_key (str "Portrait"))
   = (setting_line launch_key (str "Portrait"), true) /\
   assign_line portrait orientation (setting_line main_key (str "Portrait"))
   = (setting_line main_key (str "Portrait"), true)) /\
  assign_line portrait orientation (setting_line orientations_key orientation)
  = (setting_line orientations_key orientation, true) /\
  ("010"%char ∉ setting_line launch_key (str "Portrait")) /\
  ("010"%char ∉ setting_line main_key (str "Portrait")) /\
  ("010"%char ∉ setting_line orientations_key orientation).
Proof.
  cbv zeta. unfold determine_orientation.
  repeat (destruct (PyStr.eqb o _);
          [repeat split; try (intros _; split); try (by vm_compute);
           refine (bool_decide_unpack _ _); by vm_compute|]).
  repeat split; try (intros _; split); try (by vm_compute);
    refine (bool_decide_unpack _ _); by vm_compute.
Qed.

Lemma assign_line_again (o line : pystr) :
  let orientation := determine_orientation o in
  let portrait := PyStr.contains orientation (str "Portrait") in
  assign_line portrait orientation
              (fst (assign_line portrait orientation line))
  = assign_line portrait orientation line.
Proof.
  intros orientation portrait.
  destruct (written_lines_fixed o) as (Hportrait & Hplain & _).
  fold orientation in Hportrait, Hplain. fold portrait in Hportrait, Hplain.
  destruct (assign_line_outcomes o line)
    as [Hsame|[[Hp Hl]|[[Hp Hm]|Ho]]];
    fold orientation in Hsame || fold orientation in Hl
    || fold orientation in Hm || fold orientation in Ho.
  - fold portrait in Hsame. by rewrite Hsame.
  - fold portrait in Hl, Hp. rewrite Hl. cbn [fst]. by apply Hportrait.
  - fold portrait in Hm, Hp. rewrite Hm. cbn [fst]. by apply Hportrait.
  - fold portrait in Ho. rewrite Ho. cbn [fst]. exact Hplain.
Qed.

Lemma assign_line_no_break (o line : pystr) :
  "010"%char ∉ line ->
  "010"%char ∉ fst (assign_line
                      (PyStr.contains (determine_orientation o) (str "Portrait"))
                      (determine_orientation o) line).
Proof.
  intros Hline.
  destruct (written_lines_fixed o) as (_ & _ & Hl & Hm & Ho).
  destruct (assign_line_outcomes o line)
    as [Hsame|[[_ Hr]|[[_ Hr]|Hr]]]; cbv zeta in *.
  - by rewrite Hsame.
  - by rewrite Hr.
  - by rewrite Hr.
  - by rewrite Hr.
Qed.

(** No part of a split holds the separator. *)
Lemma split_aux_no_sep (sep : ascii) (s cur : pystr) :
  sep ∉ cur -> Forall (fun p => sep ∉ p) (PyStr.split_aux sep cur s).
Proof.
  revert cur; induction s as [|c s IH]; intros cur Hcur; simpl.
  - constructor; [|done]. by apply not_elem_of_rev.
  - destruct (Ascii.eqb c sep) eqn:Hc.
    + constructor; [by apply not_elem_of_rev|]. apply IH, not_elem_of_nil.
    + apply IH. apply not_elem_of_cons. split; [|done].
      apply Ascii.eqb_neq in Hc. congruence.
Qed.

(** X19. [assign_orientation] is idempotent: on a section that it has
    rewritten it changes nothing more, for every orientation of the
    configuration and every section. *)
Theorem assign_orientation_idempotent (o : pystr) (section : list pystr) :
  assign_orientation o (assign_orientation o section)
  = assign_orientation o section.
Proof.
  unfold assign_orientation. rewrite map_map. apply map_ext. intros obj.
  set (orientation := determine_orientation o).
  set (portrait := PyStr.contains orientation (str "Portrait")).
  unfold assign_object at 2 3.
  set (data := map (assign_line portrait orientation)
                   (PyStr.split obj "010"%char)).
  destruct (existsb snd data) eqn:Hchange;
    [|unfold assign_object; fold data; by rewrite Hchange].
  assert (Hsplit : PyStr.split (PyStr.join nl (map fst data)) "010"%char
                   = map fst data).
  { assert (Hfree : Forall (fun p => "010"%char ∉ p) (map fst data)).
    { subst data. rewrite map_map. apply Forall_map.
      eapply Forall_impl; [apply (split_aux_no_sep _ obj []), not_elem_of_nil|].
      intros line Hline. by apply assign_line_no_break. }
    destruct (map fst data) as [|first rest] eqn:Hdata.
    - subst data. destruct (split_aux_head "010"%char obj []) as (f & r & Hs).
      unfold PyStr.split in Hdata. by rewrite Hs in Hdata.
    - apply Forall_cons in Hfree as [Hfirst Hrest].
      unfold PyStr.split, nl. by rewrite split_aux_join. }
  unfold assign_object. rewrite Hsplit.
  assert (Hagain : map (assign_line portrait orientation) (map fst data) = data).
  { subst data. rewrite !map_map. apply map_ext. intros line.
    apply assign_line_again. }
  by rewrite Hagain, Hchange.
Qed.

(** ** [reassign_pbxproj] *)

Lemma join_app (sep : pystr) (l1 l2 : list pystr) :
  l1 <> [] -> l2 <> [] ->
  PyStr.join sep (l1 ++ l2) = PyStr.join sep l1 ++ sep ++ PyStr.join sep l2.
Proof.
  intros Hl1 Hl2. induction l1 as [|x l1 IH]; [done|].
  destruct l1 as [|y l1].
  - simpl app. by rewrite join_cons.
  - rewrite <- app_comm_cons, join_cons by done.
    rewrite IH by done. rewrite (join_cons sep x (y :: l1)) by done.
    by rewrite <- !app_assoc.
Qed.

(** X20. The application id of a platform is the application id with
    the tag of the platform put before its last component:
    [domain.name] becomes [domain.tag.name], and an id without a period
    becomes [tag.name]. *)
Theorem platform_id_before_last (tag domain name : pystr) :
  "."%char ∉ name ->
  platform_id tag (domain ++ str "." ++ name)
  = domain ++ str "." ++ tag ++ str "." ++ name /\
  platform_id tag name = tag ++ str "." ++ name.
Proof.
  intros Hname. unfold platform_id, PyStr.split. split.
  - change (domain ++ str "." ++ name) with (domain ++ "."%char :: name).
    rewrite split_aux_app, (split_aux_absent "."%char name []) by done.
    change (rev [] ++ name) with name.
    set (parts := PyStr.split_aux "." [] domain).
    assert (Hparts : parts <> []) by apply split_aux_nonempty.
    unfold but_last, last_only. rewrite length_app. simpl length.
    replace (length parts + 1 - 1)%nat with (length parts) by lia.
    rewrite take_app_length, drop_app_length.
    rewrite join_app by done.
    change (PyStr.join (str ".") ([tag] ++ [name])) with (tag ++ str "." ++ name).
    unfold parts. change (str ".") with ["."%char] at 1.
    by rewrite join_split_aux.
  - by rewrite split_aux_absent.
Qed.

Lemma platform_id_before_last_witness :
  platform_id (str "mac") (str "edu.cornell.gdiac" ++ str "." ++ str "demo")
  = str "edu.cornell.gdiac" ++ str "." ++ str "mac" ++ str "." ++ str "demo" /\
  platform_id (str "mac") (str "demo") = str "mac" ++ str "." ++ str "demo".
Proof.
  apply platform_id_before_last.
  refine (bool_decide_unpack _ _). vm_compute. exact I.
Defined.

(** X21. When the configuration has include directories for Apple, the
    list that [reassign_pbxproj] writes for [__APPLE_INCLUDE__] does not
    hold them.  Without the key ['all'] the function raises [KeyError];
    with include directories for all platforms the list is those twice,
    and, as [allincludes] is the list of the configuration itself, the
    configuration holds them twice from then on. *)
Theorem apple_includes_are_not_used (h : store) (entries : list (pystr * nat)) :
  has_entries h entries (str "apple") = true ->
  match Dict.get entries (str "all") with
  | None => apple_includes h entries = KeyError_all
  | Some place_all =>
      has_entries h entries (str "all") = true ->
      let all := default [] (h !! place_all) in
      apple_includes h entries
      = Includes (all ++ all) (<[place_all := all ++ all]> h)
  end.
Proof.
  intros Happle. unfold apple_includes. rewrite Happle.
  destruct (Dict.get entries (str "all")) as [place_all|] eqn:Hall.
  - intros Hhas. rewrite Hhas. cbn [default].
    by rewrite lookup_insert_eq.
  - unfold has_entries. rewrite Hall. done.
Qed.

Lemma apple_includes_are_not_used_witness :
  apple_includes sample_store sample_include_dict
  = Includes ([str "include"] ++ [str "include"])
             (<[0%nat := [str "include"] ++ [str "include"]]> sample_store).
Proof.
  exact (apple_includes_are_not_used sample_store sample_include_dict
           eq_refl eq_refl).
Defined.

(** ** [insert_filetree]: the other files, and files in the way *)

Lemma filetree_lookup_get (tree1 tree2 : FileTree) (entry : pystr)
    (path : list pystr) :
  Dict.get tree1 entry = Dict.get tree2 entry ->
  filetree_lookup tree1 (entry :: path) = filetree_lookup tree2 (entry :: path).
Proof. intros Hget. destruct path; simpl; by rewrite Hget. Qed.

Lemma ensure_directory_get_ne (tree : FileTree) (entry other : pystr) :
  entry <> other ->
  Dict.get (ensure_directory tree entry) other = Dict.get tree other.
Proof.
  intros Hne. unfold ensure_directory.
  destruct (negb (Dict.has tree entry)); [by apply dict_get_set_ne|done].
Qed.

Lemma insert_path_frame (path : list pystr) :
  forall (tree tree1 : FileTree) (tag : pystr) (other : list pystr),
    insert_path tree path tag = Ok tree1 ->
    ~ path `prefix_of` other -> ~ other `prefix_of` path ->
    filetree_lookup tree1 other = filetree_lookup tree other.
Proof.
  induction path as [|entry path IH]; intros tree tree1 tag other Hins Hp Ho.
  { destruct Hp. apply prefix_nil. }
  destruct other as [|e other]; [destruct Ho; apply prefix_nil|].
  destruct path as [|entry' path].
  - simpl in Hins. injection Hins as <-.
    destruct (decide (entry = e)) as [->|Hne].
    + destruct Hp. by apply prefix_cons, prefix_nil.
    + by apply filetree_lookup_get, dict_get_set_ne.
  - rewrite insert_path_step in Hins.
    destruct (Dict.get (ensure_directory tree entry) entry)
      as [[leaf|sub]|] eqn:Hget; try discriminate.
    destruct (insert_path sub (entry' :: path) tag) as [sub1|err] eqn:Hsub;
      [|discriminate].
    simpl in Hins. injection Hins as <-.
    destruct (decide (entry = e)) as [->|Hne].
    + destruct other as [|e' other];
        [destruct Ho; by apply prefix_cons, prefix_nil|].
      rewrite !filetree_lookup_step, dict_get_set.
      rewrite (IH sub sub1 tag (e' :: other) Hsub).
      * unfold ensure_directory in Hget. unfold Dict.has in Hget.
        destruct (Dict.get tree e) as [node|] eqn:Htree; simpl in Hget.
        -- rewrite Htree in Hget. by injection Hget as ->.
        -- rewrite dict_get_set in Hget. injection Hget as <-.
           by destruct other.
      * intros Hpre. apply Hp. by apply prefix_cons.
      * intros Hpre. apply Ho. by apply prefix_cons.
    + apply filetree_lookup_get.
      rewrite dict_get_set_ne by done. by apply ensure_directory_get_ne.
Qed.

(** X22. Inserting a file leaves every other path of the filetree as
    it is: what the tree holds at a path that neither begins with the
    path of the file nor is a beginning of it is the same before and
    after. *)
Theorem insert_filetree_keeps_others (tree tree1 : FileTree)
    (file tag : pystr) (other : list pystr) :
  insert_filetree tree [file] tag = Ok tree1 ->
  ~ PyStr.split file "/"%char `prefix_of` other ->
  ~ other `prefix_of` PyStr.split file "/"%char ->
  filetree_lookup tree1 other = filetree_lookup tree other.
Proof.
  rewrite insert_filetree_single. apply insert_path_frame.
Qed.

Lemma insert_path_through_leaf (before : list pystr) :
  forall (tree : FileTree) (leaf tag : pystr) (after : list pystr),
    before <> [] -> after <> [] ->
    filetree_lookup tree before = Some (Leaf leaf) ->
    insert_path tree (before ++ after) tag = Raise TypeError.
Proof.
  induction before as [|entry before IH];
    intros tree leaf tag after Hb Ha Hlook; [done|].
  destruct before as [|entry' before].
  - destruct after as [|a after]; [done|].
    change ([entry] ++ a :: after) with (entry :: a :: after).
    rewrite insert_path_step. simpl in Hlook.
    assert (Hensure : ensure_directory tree entry = tree)
      by (unfold ensure_directory, Dict.has; by rewrite Hlook).
    by rewrite Hensure, Hlook.
  - rewrite filetree_lookup_step in Hlook.
    change ((entry :: entry' :: before) ++ after)
      with (entry :: entry' :: (before ++ after)).
    rewrite insert_path_step.
    destruct (Dict.get tree entry) as [[l|sub]|] eqn:Hget; try discriminate.
    assert (Hensure : ensure_directory tree entry = tree)
      by (unfold ensure_directory, Dict.has; by rewrite Hget).
    rewrite Hensure, Hget.
    change (entry' :: before ++ after) with ((entry' :: before) ++ after).
    by rewrite (IH sub leaf tag after).
Qed.

(** X23. A file cannot be inserted below a file: when a proper
    beginning of the path of the new file is a file of the tree,
    [insert_filetree] raises [TypeError]. *)
Theorem insert_filetree_below_file (tree : FileTree)
    (file leaf tag : pystr) (before after : list pystr) :
  PyStr.split file "/"%char = before ++ after ->
  before <> [] -> after <> [] ->
  filetree_lookup tree before = Some (Leaf leaf) ->
  insert_filetree tree [file] tag = Raise TypeError.
Proof.
  intros Hsplit Hb Ha Hlook. rewrite insert_filetree_single, Hsplit.
  by eapply insert_path_through_leaf.
Qed.

Lemma insert_filetree_keeps_others_witness :
  filetree_lookup
    [(str "src", Directory [(str "a.cpp", Leaf (str "all"));
                            (str "b.cpp", Leaf (str "android"))])]
    [str "src"; str "a.cpp"]
  = filetree_lookup
      [(str "src", Directory [(str "a.cpp", Leaf (str "all"))])]
      [str "src"; str "a.cpp"].
Proof.
  apply (insert_filetree_keeps_others _ _ (str "src/b.cpp") (str "android")).
  - reflexivity.
  - intros [k Hk]. vm_compute in Hk. discriminate.
  - intros [k Hk]. vm_compute in Hk. discriminate.
Defined.

Lemma insert_filetree_below_file_witness :
  insert_filetree [(str "src", Leaf (str "all"))] [str "src/a.cpp"]
                  (str "all")
  = Raise TypeError.
Proof.
  apply (insert_filetree_below_file _ _ (str "all") _ [str "src"] [str "a.cpp"]);
    [reflexivity|done|done|reflexivity].
Defined.

(** ** [file_replace]: a file without the keys *)






(** ** [normalize]: one Apple target *)

Lemma remove_first_subset (x y : pystr) (l : list pystr) :
  y ∈ remove_first x l -> y ∈ l.
Proof.
  induction l as [|z l IH]; simpl; [done|].
  destruct (decide (z = x)); rewrite !elem_of_cons; [by right|].
  intros [->|Hin]; [by left|right; by apply IH].
Qed.

Lemma remove_first_NoDup (x : pystr) (l : list pystr) :
  NoDup l -> NoDup (remove_first x l) /\ (x ∉ remove_first x l).
Proof.
  induction 1 as [|z l Hz Hl [IHnd IHx]]; simpl.
  - split; [constructor|apply not_elem_of_nil].
  - destruct (decide (z = x)) as [->|Hne]; [done|]. split.
    + constructor; [|done]. intros Hin. by apply Hz, (remove_first_subset x).
    + apply not_elem_of_cons. split; [congruence|done].
Qed.

(** X25. After the lines of [normalize] that allow one Apple target
    only, a list of targets without repetitions does not hold both
    ['ios'] and ['macos'], and with ['apple'] it holds neither. *)
Theorem normalize_one_apple_target (targets : list pystr) :
  NoDup targets ->
  ~ (str "ios" ∈ one_apple_target targets /\
     str "macos" ∈ one_apple_target targets) /\
  (str "apple" ∈ one_apple_target targets ->
   (str "ios" ∉ one_apple_target targets) /\
   (str "macos" ∉ one_apple_target targets)).
Proof.
  intros Hnd. unfold one_apple_target.
  case_bool_decide as Happle.
  - set (t1 := if bool_decide (str "ios" ∈ targets)
               then remove_first (str "ios") targets else targets).
    assert (Ht1 : NoDup t1 /\ (str "ios" ∉ t1)).
    { subst t1. case_bool_decide; [by apply remove_first_NoDup|done]. }
    destruct Ht1 as [Hnd1 Hios].
    set (t2 := if bool_decide (str "macos" ∈ t1)
               then remove_first (str "macos") t1 else t1).
    assert (Ht2 : (str "macos" ∉ t2) /\ (str "ios" ∉ t2)).
    { subst t2. case_bool_decide; [|done]. split.
      - by apply remove_first_NoDup.
      - intros Hin. by apply Hios, (remove_first_subset (str "macos")). }
    destruct Ht2 as [Hm Hi]. split; [by intros [? ?]|done].
  - destruct (bool_decide (str "macos" ∈ targets)
              && bool_decide (str "ios" ∈ targets)) eqn:Hboth.
    + destruct (remove_first_NoDup (str "ios") targets Hnd) as [Hnd1 Hios].
      destruct (remove_first_NoDup (str "macos") _ Hnd1) as [_ Hmacos].
      assert (Hi : str "ios" ∉ remove_first (str "macos")
                                   (remove_first (str "ios") targets) ++ [str "apple"]).
      { intros [Hin|Hin]%elem_of_app.
        - by apply Hios, (remove_first_subset (str "macos")).
        - by apply list_elem_of_singleton in Hin. }
      assert (Hm : str "macos" ∉ remove_first (str "macos")
                                     (remove_first (str "ios") targets) ++ [str "apple"]).
      { intros [Hin|Hin]%elem_of_app; [done|].
        by apply list_elem_of_singleton in Hin. }
      split; [by intros [? ?]|done].
    + split; [|done]. intros [Hi Hm].
      by rewrite !bool_decide_eq_true_2 in Hboth.
Qed.

Lemma normalize_one_apple_target_witness :
  ~ (str "ios" ∈ one_apple_target [str "macos"; str "android"; str "ios"] /\
     str "macos" ∈ one_apple_target [str "macos"; str "android"; str "ios"]) /\
  (str "apple" ∈ one_apple_target [str "macos"; str "android"; str "ios"] ->
   (str "ios" ∉ one_apple_target [str "macos"; str "android"; str "ios"]) /\
   (str "macos" ∉ one_apple_target [str "macos"; str "android"; str "ios"])).
Proof.
  apply normalize_one_apple_target.
  refine (bool_decide_unpack _ _). vm_compute. exact I.
Defined.

(** ** [snake2Camel] *)








(** ** From the filetree to the Android makefile *)

Section android_sources_proofs.

Variable has_source_ext : pystr -> bool.

(** On a directory the loop calls [expand_sources] on it. *)
Lemma expand_key_directory (path key : pystr) (children : FileTree) :
  expand_key has_source_ext path key (Directory children)
  = expand_sources has_source_ext (path ++ str "/" ++ key) children.
Proof.
  simpl. induction children as [|[k n] children IH]; [reflexivity|].
  simpl. by rewrite IH.
Qed.

Lemma occurs_trans (a b c : pystr) : occurs a b -> occurs b c -> occurs a c.
Proof.
  intros (pre & post & ->) (pre' & post' & ->).
  exists (pre' ++ pre), (post ++ post'). by rewrite <- !app_assoc.
Qed.

Lemma expand_sources_get (path key : pystr) (node : filenode) (tree : FileTree) :
  Dict.get tree key = Some node ->
  occurs (expand_key has_source_ext path key node)
         (expand_sources has_source_ext path tree).
Proof.
  induction tree as [|[k n] tree IH]; [done|]. simpl.
  destruct (decide (k = key)) as [->|Hne].
  - intros [= ->]. exists [], (expand_sources has_source_ext path tree).
    reflexivity.
  - intros Hget. destruct (IH Hget) as (pre & post & Heq).
    exists (expand_key has_source_ext path k n ++ pre), post.
    rewrite Heq. by rewrite <- !app_assoc.
Qed.

Lemma insert_path_listed (path : list pystr) :
  forall (tree tree1 : FileTree) (root tag : pystr),
    path <> [] ->
    tag ∈ [str "all"; str "android"] ->
    has_source_ext (List.last path []) = true ->
    insert_path tree path tag = Ok tree1 ->
    occurs (source_line root (PyStr.join (str "/") path))
           (expand_sources has_source_ext root tree1).
Proof.
  induction path as [|entry path IH];
    intros tree tree1 root tag Hne Htag Hext Hins; [done|].
  destruct path as [|entry' path].
  - simpl in Hins, Hext. injection Hins as <-.
    pose proof (expand_sources_get root entry (Leaf tag) _
                  (dict_get_set tree entry (Leaf tag))) as Hocc.
    simpl in Hocc. rewrite bool_decide_eq_true_2, Hext in Hocc by done.
    exact Hocc.
  - rewrite insert_path_step in Hins.
    destruct (Dict.get (ensure_directory tree entry) entry)
      as [[leaf|sub]|] eqn:Hget; try discriminate.
    destruct (insert_path sub (entry' :: path) tag) as [sub1|err] eqn:Hsub;
      [|discriminate].
    simpl in Hins. injection Hins as <-.
    pose proof (expand_sources_get root entry (Directory sub1) _
                  (dict_get_set (ensure_directory tree entry) entry
                     (Directory sub1))) as Hocc.
    rewrite expand_key_directory in Hocc.
    eapply occurs_trans; [|exact Hocc].
    specialize (IH sub sub1 (root ++ str "/" ++ entry) tag).
    rewrite join_cons by done.
    replace (source_line root (entry ++ str "/" ++ PyStr.join (str "/") (entry' :: path)))
      with (source_line (root ++ str "/" ++ entry)
                        (PyStr.join (str "/") (entry' :: path)))
      by (unfold source_line; by rewrite <- !app_assoc).
    by apply IH.
Qed.

(** X27. A source file of the configuration reaches the makefile of the
    Android build: when a file has been inserted into the filetree with
    the tag ['all'] or ['android'] and its name has the extension of a
    source file, the text that [expand_sources] makes of the tree holds
    the line of the file, with its path below the root. *)
Theorem inserted_source_is_listed (tree tree1 : FileTree)
    (root file tag : pystr) :
  insert_filetree tree [file] tag = Ok tree1 ->
  tag ∈ [str "all"; str "android"] ->
  has_source_ext (List.last (PyStr.split file "/"%char) []) = true ->
  occurs (source_line root file) (expand_sources has_source_ext root tree1).
Proof.
  intros Hins Htag Hext. rewrite insert_filetree_single in Hins.
  rewrite <- (join_split_aux "/"%char file []) at 1. simpl rev. simpl app.
  eapply insert_path_listed; [apply split_aux_nonempty|exact Htag|exact Hext|].
  exact Hins.
Qed.

End android_sources_proofs.

Lemma inserted_source_is_listed_witness :
  occurs (source_line (str "../..") (str "src/b.cpp"))
         (expand_sources (fun key => PyStr.contains key (str ".cpp"))
            (str "../..")
            [(str "src", Directory [(str "a.h", Leaf (str "all"));
                                    (str "b.cpp", Leaf (str "android"))])]).
Proof.
  apply (inserted_source_is_listed _
           [(str "src", Directory [(str "a.h", Leaf (str "all"))])]
           _ _ _ (str "android")).
  - reflexivity.
  - refine (bool_decide_unpack _ _). vm_compute. exact I.
  - reflexivity.
Defined.

(** ** [parse_pbxproj]: a file without sections *)






(** ** The prefixes of the kinds of identifiers *)

(** X29. Identifiers with different prefixes are different: when two
    prefixes of one length differ, what [applyPrefix] makes with them of
    two identifiers without hyphens, each at least as long as the
    prefixes, is never the same.  So the identifier of a file reference
    (['AA']) is none of a build file (['AB'], ['AC']). *)
Theorem applyPrefix_keeps_kinds_apart (prefix1 prefix2 uuid1 uuid2 r1 r2 : pystr) :
  prefix1 <> prefix2 -> length prefix1 = length prefix2 ->
  (length prefix1 <= length uuid1)%nat -> (length prefix2 <= length uuid2)%nat ->
  hyphen ∉ uuid1 -> hyphen ∉ uuid2 ->
  applyPrefix prefix1 uuid1 = Ok r1 -> applyPrefix prefix2 uuid2 = Ok r2 ->
  r1 <> r2.
Proof.
  intros Hdiff Hlen Hlen1 Hlen2 Hfree1 Hfree2 Hr1 Hr2 Heq. subst r2.
  destruct (applyPrefix_spec prefix1 uuid1) as (r & Hr & _ & Hat1).
  rewrite Hr1 in Hr. injection Hr as <-.
  destruct (applyPrefix_spec prefix2 uuid2) as (r & Hr & _ & Hat2).
  rewrite Hr2 in Hr. injection Hr as <-.
  apply Hdiff, pystr_eq_lookup; [done|]. intros i Hi.
  assert (Hover : forall prefix uuid,
             hyphen ∉ uuid -> (i < length prefix)%nat ->
             (length prefix <= length uuid)%nat ->
             overlay_at prefix uuid i = prefix !! i).
  { intros prefix uuid Hfree Hip Hle. unfold overlay_at.
    destruct (uuid !! i) as [c|] eqn:Hu; [|done].
    rewrite bool_decide_eq_false_2
      by (intros ->; apply Hfree; by apply list_elem_of_lookup_2 in Hu).
    destruct (prefix !! i) eqn:Hp; [done|]. apply lookup_ge_None in Hp. lia. }
  rewrite <- (Hover prefix1 uuid1), <- (Hover prefix2 uuid2) by (done || lia).
  rewrite <- Hat1, <- Hat2 by lia. done.
Qed.

Lemma applyPrefix_keeps_kinds_apart_witness :
  str "AA23456789ABCDEF01234567" <> str "AB23456789ABCDEF01234567".
Proof.
  apply (applyPrefix_keeps_kinds_apart (str "AA") (str "AB")
           (str "0123456789ABCDEF01234567") (str "0123456789ABCDEF01234567"));
    try done; try (simpl; lia);
    refine (bool_decide_unpack _ _); vm_compute; exact I.
Defined.

(** ** [directory_replace] without a filter *)


